(** * UniversalMCPClient: registry, dispatch and LLM tool-use orchestration

    A shallow embedding of [UniversalMCPClient] (client.ts): the three
    [Map]s that make up the server registry, the dispatch methods
    ([callTool], [readResource], [getPrompt], [ping]), connection
    life-cycle ([connectToServer], [discoverServerCapabilities],
    [disconnect]) and the tool-use conversation of [queryWithLLM].

    The MCP SDK [Client] and the Anthropic backend are external: they are
    an oracle [Env] whose answers may depend on everything the client did
    before (the trace of requests).  [console.*] output is not modelled. *)

From Stdlib Require Import ZArith Ascii String List Lia Bool.
From stdpp Require Import base decidable option list strings.

Local Open Scope string_scope.
Local Open Scope Z_scope.

(* Template strings are evaluated by [simpl] in the proofs below. *)
#[local] Arguments String.append !s1 s2 : simpl nomatch.

(** ** JavaScript strings

    Strings are sequences of Latin-1 code units ([ascii]); the operations are
    the ones the client uses: template concatenation, [indexOf],
    [substring] and [trim]. *)
Module Js.

(** [s.indexOf(c)] for a one-character needle, counting from [i]. *)
Fixpoint index_from (c : ascii) (s : string) (i : Z) : Z :=
  match s with
  | EmptyString => -1
  | String a s' => if decide (a = c) then i else index_from c s' (i + 1)
  end.

Definition indexOf (s : string) (c : ascii) : Z := index_from c s 0.

Definition strlen (s : string) : Z := Z.of_nat (String.length s).

(** Arguments of [substring] are clamped to [0, length]. *)
Definition clamp (s : string) (i : Z) : Z := Z.min (Z.max i 0) (strlen s).

(** [s.substring(start, end)]: clamped, and swapped when start > end. *)
Definition substring (s : string) (i j : Z) : string :=
  let a := clamp s i in
  let b := clamp s j in
  let lo := Z.min a b in
  let hi := Z.max a b in
  String.substring (Z.to_nat lo) (Z.to_nat (hi - lo)) s.

(** [s.substring(start)] *)
Definition substring_from (s : string) (i : Z) : string :=
  substring s i (strlen s).

(** WhiteSpace and LineTerminator code points below 256. *)
Definition is_whitespace (c : ascii) : bool :=
  let n := nat_of_ascii c in
  ((9 <=? n)%nat && (n <=? 13)%nat) || (n =? 32)%nat || (n =? 160)%nat.

Fixpoint trimStart (s : string) : string :=
  match s with
  | EmptyString => EmptyString
  | String c s' => if is_whitespace c then trimStart s' else s
  end.

Definition trimEnd (s : string) : string :=
  String.rev (trimStart (String.rev s)).

Definition trim (s : string) : string := trimEnd (trimStart s).

(** [s] occurs inside [t]. *)
Definition includes (t s : string) : Prop :=
  exists pre post, t = pre ++ s ++ post.

(** The line feed used by the ["\n"] escapes of the source. *)
Definition nl : string := String (ascii_of_nat 10) EmptyString.

(** Truthiness of a string value: only [""] is falsy. *)
Definition truthy (s : string) : bool :=
  match s with EmptyString => false | _ => true end.

(** Truthiness of an optional string argument ([undefined] is falsy). *)
Definition truthy_opt (o : option string) : bool :=
  match o with Some s => truthy s | None => false end.

End Js.

(** ** [Map<string, V>]

    A JavaScript [Map] iterates in insertion order; [set] on a present key
    keeps its position.  The tool list of [queryWithLLM] and the closing
    loop of [disconnect] follow that order, so a map is the list of its
    entries, oldest first. *)
Module JsMap.
Section Ops.
Context {V : Type}.

Definition t := list (string * V).

Definition empty : t := [].

Fixpoint get (k : string) (m : t) : option V :=
  match m with
  | [] => None
  | (k', v) :: m' => if decide (k' = k) then Some v else get k m'
  end.

Definition has (k : string) (m : t) : bool :=
  match get k m with Some _ => true | None => false end.

Fixpoint set (k : string) (v : V) (m : t) : t :=
  match m with
  | [] => [(k, v)]
  | (k', v') :: m' =>
      if decide (k' = k) then (k, v) :: m' else (k', v') :: set k v m'
  end.

Fixpoint delete (k : string) (m : t) : t :=
  match m with
  | [] => []
  | (k', v') :: m' =>
      if decide (k' = k) then delete k m' else (k', v') :: delete k m'
  end.

Definition keys (m : t) : list string := map fst m.

(** Keys are pairwise distinct: what every [Map] satisfies. *)
Definition wf (m : t) : Prop := NoDup (keys m).
End Ops.
Arguments t : clear implicits.
End JsMap.

(** ** Data of types.ts and of the two SDKs *)

(** A thrown value: an [Error] object with its [name] and [message]. *)
Record Error := { err_name : string; err_message : string }.

(** [new Error(message)] *)
Definition new_Error (message : string) : Error :=
  {| err_name := "Error"; err_message := message |}.

(** [`${error}`]: Error.prototype.toString. *)
Definition Error_toString (e : Error) : string :=
  match err_name e, err_message e with
  | EmptyString, msg => msg
  | name, EmptyString => name
  | name, msg => name ++ ": " ++ msg
  end.

Inductive TransportType := stdio | sse.

Record StdioConfig := {
  stdio_command : string;
  stdio_args : list string;
  stdio_env : option (list (string * string))
}.

Record SseConfig := {
  sse_url : string;
  sse_headers : option (list (string * string))
}.

Record TransportConfig := {
  transport_type : TransportType;
  transport_stdio : option StdioConfig;
  transport_sse : option SseConfig
}.

Record MCPServerConfig := {
  config_name : string;
  config_transport : TransportConfig;
  config_description : option string
}.

(** The transport objects [connectToServer] builds. *)
Inductive Transport :=
| StdioClientTransport (command : string) (args : list string)
                       (env : option (list (string * string)))
| SSEClientTransport (url : string).

(** An SDK [Client] object: [client_id] is its identity (the n-th object
    created by this program), [client_name] the name it was built with. *)
Record Client := { client_id : nat; client_name : string }.

Inductive Role := user | assistant.

(** How a call ends: with a value, or with a thrown error (a rejected
    promise, for the asynchronous methods). *)
Inductive Result (A : Type) :=
| Ok (a : A)
| Throw (e : Error).
Arguments Ok {A} a.
Arguments Throw {A} e.

Section Model.

(** JSON documents (tool schemas, tool arguments, tool results) are
    passed through untouched; their type is left open. *)
Context {Json : Type}.

Record Tool := {
  tool_name : string;
  tool_description : option string;
  tool_inputSchema : option Json
}.

Record Resource := {
  resource_uri : string;
  resource_name : option string;
  resource_mimeType : option string
}.

Record Prompt := {
  prompt_name : string;
  prompt_description : option string
}.

Record ServerInfo := {
  info_name : string;
  tools : list Tool;
  resources : list Resource;
  prompts : list Prompt
}.

(** A tool definition as sent to the model. *)
Record LLMTool := {
  llm_name : string;
  llm_description : string;
  llm_input_schema : option Json
}.

(** A block of a model response. *)
Inductive ContentBlock :=
| Text (text : string)
| ToolUse (id : string) (name : string) (input : Json)
| OtherBlock.

Inductive MessageContent :=
| StringContent (s : string)
| Blocks (bs : list ContentBlock)
| ToolResult (tool_use_id : string) (content : string).

Record Message := { role : Role; content : MessageContent }.

(** Requests that leave the process, in the order they are issued. *)
Inductive Event :=
| EConnect (c : Client) (t : Transport)
| EListTools (c : Client)
| EListResources (c : Client)
| EListPrompts (c : Client)
| ECallTool (c : Client) (name : string) (args : Json)
| EReadResource (c : Client) (uri : string)
| EGetPrompt (c : Client) (name : string) (args : option Json)
| EPing (c : Client)
| EClose (c : Client)
| EMessagesCreate (model : string) (max_tokens : Z)
                  (messages : list Message) (tools : list LLMTool).

Definition Trace := list Event.

(** The outside world.  Every answer is a function of the request and of
    the requests issued so far, that one included (for the three list
    calls of discovery, which are sent together, all three). *)
Record Env := {
  URL_parse : string -> option Error;
  client_connect : Trace -> Client -> Transport -> option Error;
  client_listTools : Trace -> Client -> Result (list Tool);
  client_listResources : Trace -> Client -> Result (list Resource);
  client_listPrompts : Trace -> Client -> Result (list Prompt);
  client_callTool : Trace -> Client -> string -> Json -> Result Json;
  client_readResource : Trace -> Client -> string -> Result Json;
  client_getPrompt : Trace -> Client -> string -> option Json -> Result Json;
  client_ping : Trace -> Client -> option Error;
  client_close : Trace -> Client -> option Error;
  messages_create :
    Trace -> list Message -> list LLMTool -> Result (list ContentBlock);
  JSON_stringify : Json -> string
}.

(** The fields of a [UniversalMCPClient], together with what the program
    has done so far: how many [Client] objects it created and the
    requests it issued. *)
Record ClientState := {
  clients : JsMap.t Client;
  transports : JsMap.t Transport;
  serverInfos : JsMap.t ServerInfo;
  anthropic : option string;
  anthropicModel : string;
  created : nat;
  trace : Trace
}.

(** Computations: they read and update the state and return or throw.
    Updates made before a throw stay. *)
Definition M (A : Type) : Type := ClientState -> Result A * ClientState.

Definition ret {A} (a : A) : M A := fun st => (Ok a, st).

Definition throw {A} (e : Error) : M A := fun st => (Throw e, st).

Definition bind {A B} (m : M A) (k : A -> M B) : M B :=
  fun st =>
    match m st with
    | (Ok a, st') => k a st'
    | (Throw e, st') => (Throw e, st')
    end.

Definition try_catch {A} (m : M A) (handler : Error -> M A) : M A :=
  fun st =>
    match m st with
    | (Ok a, st') => (Ok a, st')
    | (Throw e, st') => handler e st'
    end.

Definition get_state : M ClientState := fun st => (Ok st, st).

Definition emit (e : Event) : M unit :=
  fun st =>
    (Ok tt,
     {| clients := clients st; transports := transports st;
        serverInfos := serverInfos st; anthropic := anthropic st;
        anthropicModel := anthropicModel st; created := created st;
        trace := (trace st ++ [e])%list |}).

Definition set_clients (f : JsMap.t Client -> JsMap.t Client) : M unit :=
  fun st =>
    (Ok tt,
     {| clients := f (clients st); transports := transports st;
        serverInfos := serverInfos st; anthropic := anthropic st;
        anthropicModel := anthropicModel st; created := created st;
        trace := trace st |}).

Definition set_transports
    (f : JsMap.t Transport -> JsMap.t Transport) : M unit :=
  fun st =>
    (Ok tt,
     {| clients := clients st; transports := f (transports st);
        serverInfos := serverInfos st; anthropic := anthropic st;
        anthropicModel := anthropicModel st; created := created st;
        trace := trace st |}).

Definition set_serverInfos
    (f : JsMap.t ServerInfo -> JsMap.t ServerInfo) : M unit :=
  fun st =>
    (Ok tt,
     {| clients := clients st; transports := transports st;
        serverInfos := f (serverInfos st); anthropic := anthropic st;
        anthropicModel := anthropicModel st; created := created st;
        trace := trace st |}).

(** [new Client({ name, version })] *)
Definition new_Client (name : string) : M Client :=
  fun st =>
    (Ok {| client_id := created st; client_name := name |},
     {| clients := clients st; transports := transports st;
        serverInfos := serverInfos st; anthropic := anthropic st;
        anthropicModel := anthropicModel st; created := S (created st);
        trace := trace st |}).

(** Lifting an answer of the outside world. *)
Definition of_result {A} (r : Result A) : M A :=
  match r with Ok a => ret a | Throw e => throw e end.

Definition of_unit_result (r : option Error) : M unit :=
  match r with None => ret tt | Some e => throw e end.

Notation "'let*' x ':=' m 'in' k" := (bind m (fun x => k))
  (at level 10, x name, m at level 100, k at level 200).
Notation "m ;; k" := (bind m (fun _ => k))
  (at level 100, k at level 200, right associativity).

(** ** The methods of [UniversalMCPClient] *)

Context (E : Env).

(** [constructor(anthropicApiKey?, anthropicModel?)] *)
Definition constructor (anthropicApiKey anthropicModel' : option string)
  : ClientState :=
  {| clients := JsMap.empty;
     transports := JsMap.empty;
     serverInfos := JsMap.empty;
     anthropic :=
       match anthropicApiKey with
       | Some k => if Js.truthy k then Some k else None
       | None => None
       end;
     anthropicModel :=
       match anthropicModel' with
       | Some m => if Js.truthy m then m else "claude-3-5-sonnet-20241022"
       | None => "claude-3-5-sonnet-20241022"
       end;
     created := 0%nat;
     trace := [] |}.

(** The [if]/[else if]/[else] that builds the transport object. *)
Definition make_transport (serverName : string) (config : MCPServerConfig)
  : M Transport :=
  match transport_type (config_transport config),
        transport_stdio (config_transport config),
        transport_sse (config_transport config) with
  | stdio, Some c, _ =>
      ret (StdioClientTransport (stdio_command c) (stdio_args c)
                                (stdio_env c))
  | sse, _, Some c =>
      of_unit_result (URL_parse E (sse_url c)) ;;
      ret (SSEClientTransport (sse_url c))
  | _, _, _ =>
      throw (new_Error ("Invalid transport configuration for server "
                        ++ serverName))
  end.

(** [promise.catch(() => fallback)] *)
Definition or_default {A} (r : Result A) (fallback : A) : A :=
  match r with Ok a => a | Throw _ => fallback end.

(** The three promises carry their own [catch], so [allSettled] finds
    them fulfilled and nothing in the [try] block throws. *)
Definition discoverServerCapabilities (serverName : string) : M unit :=
  let* st := get_state in
  match JsMap.get serverName (clients st) with
  | None => ret tt
  | Some client =>
      emit (EListTools client) ;;
      emit (EListResources client) ;;
      emit (EListPrompts client) ;;
      let* st' := get_state in
      let serverInfo :=
        {| info_name := serverName;
           tools := or_default (client_listTools E (trace st') client) [];
           resources :=
             or_default (client_listResources E (trace st') client) [];
           prompts :=
             or_default (client_listPrompts E (trace st') client) [] |} in
      set_serverInfos (JsMap.set serverName serverInfo)
  end.

Definition connectToServer (serverName : string) (config : MCPServerConfig)
  : M unit :=
  try_catch
    (let* client := new_Client ("universal-client-" ++ serverName) in
     let* transport := make_transport serverName config in
     emit (EConnect client transport) ;;
     let* st := get_state in
     of_unit_result (client_connect E (trace st) client transport) ;;
     set_clients (JsMap.set serverName client) ;;
     set_transports (JsMap.set serverName transport) ;;
     discoverServerCapabilities serverName)
    (fun error => throw error).

Definition not_connected (serverName : string) : Error :=
  new_Error ("Server " ++ serverName ++ " not connected").

Definition callTool (serverName toolName : string) (args : Json) : M Json :=
  let* st := get_state in
  match JsMap.get serverName (clients st) with
  | None => throw (not_connected serverName)
  | Some client =>
      try_catch
        (emit (ECallTool client toolName args) ;;
         let* st' := get_state in
         of_result (client_callTool E (trace st') client toolName args))
        (fun error => throw error)
  end.

Definition readResource (serverName uri : string) : M Json :=
  let* st := get_state in
  match JsMap.get serverName (clients st) with
  | None => throw (not_connected serverName)
  | Some client =>
      try_catch
        (emit (EReadResource client uri) ;;
         let* st' := get_state in
         of_result (client_readResource E (trace st') client uri))
        (fun error => throw error)
  end.

Definition getPrompt (serverName name : string) (args : option Json)
  : M Json :=
  let* st := get_state in
  match JsMap.get serverName (clients st) with
  | None => throw (not_connected serverName)
  | Some client =>
      try_catch
        (emit (EGetPrompt client name args) ;;
         let* st' := get_state in
         of_result (client_getPrompt E (trace st') client name args))
        (fun error => throw error)
  end.

Definition ping (serverName : string) : M bool :=
  let* st := get_state in
  match JsMap.get serverName (clients st) with
  | None => ret false
  | Some client =>
      try_catch
        (emit (EPing client) ;;
         let* st' := get_state in
         of_unit_result (client_ping E (trace st') client) ;;
         ret true)
        (fun _ => ret false)
  end.

Definition getServerInfo (serverName : string) (st : ClientState)
  : option ServerInfo :=
  JsMap.get serverName (serverInfos st).

Definition getConnectedServers (st : ClientState) : list string :=
  JsMap.keys (clients st).

Definition isConnected (serverName : string) (st : ClientState) : bool :=
  JsMap.has serverName (clients st).

(** [await client.close()] *)
Definition close (client : Client) : M unit :=
  emit (EClose client) ;;
  let* st := get_state in
  of_unit_result (client_close E (trace st) client).

(** The loop of the disconnect-all branch. *)
Fixpoint close_all (entries : list (string * Client)) : M unit :=
  match entries with
  | [] => ret tt
  | (_, client) :: rest => close client ;; close_all rest
  end.

(** The branch of [disconnect] taken for a truthy [serverName]. *)
Definition disconnect_one (name : string) : M unit :=
  let* st := get_state in
  match JsMap.get name (clients st) with
  | Some client =>
      close client ;;
      set_clients (JsMap.delete name) ;;
      set_transports (JsMap.delete name) ;;
      set_serverInfos (JsMap.delete name)
  | None => ret tt
  end.

(** The branch taken otherwise: disconnect all. *)
Definition disconnect_all : M unit :=
  let* st := get_state in
  close_all (clients st) ;;
  set_clients (fun _ => JsMap.empty) ;;
  set_transports (fun _ => JsMap.empty) ;;
  set_serverInfos (fun _ => JsMap.empty).

Definition disconnect (serverName : option string) : M unit :=
  if Js.truthy_opt serverName
  then disconnect_one (default "" serverName)
  else disconnect_all.

(** *** [queryWithLLM] *)

(** One entry of [allTools]. *)
Definition qualified (serverName : string) (tool : Tool) : LLMTool :=
  {| llm_name := serverName ++ "_" ++ tool_name tool;
     llm_description :=
       match tool_description tool with
       | Some d =>
           if Js.truthy d then d
           else "Tool " ++ tool_name tool ++ " from " ++ serverName
       | None => "Tool " ++ tool_name tool ++ " from " ++ serverName
       end;
     llm_input_schema := tool_inputSchema tool |}.

(** The [for ... of this.serverInfos] loop that fills [allTools]. *)
Fixpoint collect_tools (preferredServer : option string)
    (infos : JsMap.t ServerInfo) : list LLMTool :=
  match infos with
  | [] => []
  | (serverName, serverInfo) :: rest =>
      if Js.truthy_opt preferredServer
         && negb (bool_decide (serverName = default "" preferredServer))
      then collect_tools preferredServer rest
      else (map (qualified serverName) (tools serverInfo)
            ++ collect_tools preferredServer rest)%list
  end.

(** [this.anthropic.messages.create({ model, max_tokens: 2000, messages,
    tools })] *)
Definition create (messages : list Message) (allTools : list LLMTool)
  : M (list ContentBlock) :=
  let* st := get_state in
  emit (EMessagesCreate (anthropicModel st) 2000 messages allTools) ;;
  let* st' := get_state in
  of_result (messages_create E (trace st') messages allTools).

(** An element of [followUpMessages].  The assistant turns hold the array
    [assistantContent] itself, not a copy: what they contain is read when
    the request is built. *)
Inductive FollowUpMessage :=
| FUser (query : string)
| FAssistant
| FToolResult (tool_use_id : string) (content : string).

Definition snapshot (assistantContent : list ContentBlock)
    (m : FollowUpMessage) : Message :=
  match m with
  | FUser query => {| role := user; content := StringContent query |}
  | FAssistant => {| role := assistant; content := Blocks assistantContent |}
  | FToolResult i c => {| role := user; content := ToolResult i c |}
  end.

(** The local variables of [queryWithLLM] that the loop updates. *)
Record Locals := {
  result : string;
  followUpMessages : list FollowUpMessage;
  assistantContent : list ContentBlock
}.

Definition add_result (s : string) (l : Locals) : Locals :=
  {| result := result l ++ s;
     followUpMessages := followUpMessages l;
     assistantContent := assistantContent l |}.

Definition push_assistantContent (b : ContentBlock) (l : Locals) : Locals :=
  {| result := result l;
     followUpMessages := followUpMessages l;
     assistantContent := (assistantContent l ++ [b])%list |}.

Definition push_followUp (m : FollowUpMessage) (l : Locals) : Locals :=
  {| result := result l;
     followUpMessages := (followUpMessages l ++ [m])%list;
     assistantContent := assistantContent l |}.

(** The loop over [followUpResponse.content]: only text is used. *)
Fixpoint followUp_texts (bs : list ContentBlock) (l : Locals) : Locals :=
  match bs with
  | [] => l
  | Text t :: bs' => followUp_texts bs' (add_result (t ++ Js.nl) l)
  | _ :: bs' => followUp_texts bs' l
  end.

Definition executed_text (name : string) : string :=
  Js.nl ++ "[" ++ name ++ " executed]" ++ Js.nl.

Definition failed_text (name : string) (error : Error) : string :=
  Js.nl ++ "[" ++ name ++ " failed: " ++ Error_toString error ++ "]"
  ++ Js.nl.

(** The [tool_use] branch, after the block was pushed.  The locals are
    updated in place, so what the [try] did before it threw is kept. *)
Definition tool_use (allTools : list LLMTool) (id name : string)
    (input : Json) (l : Locals) : M Locals :=
  let underscoreIndex := Js.indexOf name "_" in
  let serverName := Js.substring name 0 underscoreIndex in
  let toolName := Js.substring_from name (underscoreIndex + 1) in
  fun st =>
    match callTool serverName toolName input st with
    | (Throw error, st1) => (Ok (add_result (failed_text name error) l), st1)
    | (Ok toolResult, st1) =>
        let l1 := add_result (executed_text name) l in
        let l2 := push_followUp FAssistant l1 in
        let l3 :=
          push_followUp (FToolResult id (JSON_stringify E toolResult)) l2 in
        match create (map (snapshot (assistantContent l3))
                          (followUpMessages l3)) allTools st1 with
        | (Throw error, st2) =>
            (Ok (add_result (failed_text name error) l3), st2)
        | (Ok followUpResponse, st2) =>
            (Ok (followUp_texts followUpResponse l3), st2)
        end
    end.

(** The loop over [response.content]. *)
Fixpoint process_content (allTools : list LLMTool)
    (blocks : list ContentBlock) (l : Locals) : M Locals :=
  match blocks with
  | [] => ret l
  | Text t :: rest =>
      process_content allTools rest
        (push_assistantContent (Text t) (add_result (t ++ Js.nl) l))
  | ToolUse id name input :: rest =>
      let* l' := tool_use allTools id name input
                   (push_assistantContent (ToolUse id name input) l) in
      process_content allTools rest l'
  | OtherBlock :: rest => process_content allTools rest l
  end.

Definition queryWithLLM (query : string) (preferredServer : option string)
  : M string :=
  let* st := get_state in
  match anthropic st with
  | None => throw (new_Error "Anthropic API key not configured")
  | Some _ =>
      let allTools := collect_tools preferredServer (serverInfos st) in
      try_catch
        (let* response :=
           create [{| role := user; content := StringContent query |}]
                  allTools in
         let* l := process_content allTools response
                     {| result := "";
                        followUpMessages := [FUser query];
                        assistantContent := [] |} in
         ret (Js.trim (result l)))
        (fun error => throw error)
  end.

End Model.

(** ** Programs over the client

    A caller of the class is a sequence of method calls; the states it can
    bring the client to are the ones [run] produces from [constructor].
    The connect phase of the two programs, where the connects overlap, is
    [connect_all] further down. *)
Section Callers.
Context {Json : Type}.

Inductive Call :=
| ConnectToServer (serverName : string) (config : MCPServerConfig)
| CallTool (serverName toolName : string) (args : Json)
| ReadResource (serverName uri : string)
| GetPrompt (serverName name : string) (args : option Json)
| QueryWithLLM (query : string) (preferredServer : option string)
| Ping (serverName : string)
| Disconnect (serverName : option string).

(** The state a call leaves behind, whether it returns or throws. *)
Definition step (E : @Env Json) (c : Call) (st : ClientState)
  : ClientState :=
  match c with
  | ConnectToServer n cfg => snd (connectToServer E n cfg st)
  | CallTool n t a => snd (callTool E n t a st)
  | ReadResource n u => snd (readResource E n u st)
  | GetPrompt n p a => snd (getPrompt E n p a st)
  | QueryWithLLM q p => snd (queryWithLLM E q p st)
  | Ping n => snd (ping E n st)
  | Disconnect n => snd (disconnect E n st)
  end.

Definition run (E : @Env Json) (calls : list Call) (st : ClientState)
  : ClientState :=
  fold_left (fun st c => step E c st) calls st.

(** *** Reading traces and responses *)

Definition is_callTool (e : @Event Json) : bool :=
  match e with ECallTool _ _ _ => true | _ => false end.

Definition is_create (e : @Event Json) : bool :=
  match e with EMessagesCreate _ _ _ _ => true | _ => false end.

Definition is_close (e : @Event Json) : bool :=
  match e with EClose _ => true | _ => false end.

Definition is_tool_use (b : @ContentBlock Json) : bool :=
  match b with ToolUse _ _ _ => true | _ => false end.

(** The tool-result turn a request ends with, if it ends with one. *)
Definition last_tool_result (messages : list (@Message Json))
  : option string :=
  match last messages with
  | Some {| role := user; content := ToolResult i _ |} => Some i
  | _ => None
  end.

(** What [queryWithLLM] may issue after its first request: a tool call,
    or a model request with the same tool list whose last turn is the
    result of an invocation that [response] asked for. *)
Definition follow_up_request (allTools : list (@LLMTool Json))
    (response : list (@ContentBlock Json)) (e : @Event Json) : Prop :=
  match e with
  | ECallTool _ _ _ => True
  | EMessagesCreate _ _ messages tls =>
      tls = allTools
      /\ exists i name input,
           last_tool_result messages = Some i
           /\ In (ToolUse i name input) response
  | _ => False
  end.

(** How many elements satisfy [p]. *)
Fixpoint count {A} (p : A -> bool) (l : list A) : nat :=
  match l with
  | [] => 0
  | x :: l' => (if p x then 1 else 0) + count p l'
  end.

(** The tool list of a model request. *)
Definition request_tools (e : @Event Json) : option (list LLMTool) :=
  match e with
  | EMessagesCreate _ _ _ tls => Some tls
  | _ => None
  end.

(** A transport descriptor [connectToServer] accepts, and the transport
    it stands for. *)
Definition transport_of (config : MCPServerConfig) : option Transport :=
  match transport_type (config_transport config),
        transport_stdio (config_transport config),
        transport_sse (config_transport config) with
  | stdio, Some c, _ =>
      Some (StdioClientTransport (stdio_command c) (stdio_args c)
                                 (stdio_env c))
  | sse, _, Some c => Some (SSEClientTransport (sse_url c))
  | _, _, _ => None
  end.

(** The URL of an event-stream descriptor parses. *)
Definition url_ok (E : @Env Json) (t : Transport) : Prop :=
  match t with
  | SSEClientTransport url => URL_parse E url = None
  | StdioClientTransport _ _ _ => True
  end.

(** The registry part of the state. *)
Definition same_registry (st st' : @ClientState Json) : Prop :=
  clients st' = clients st
  /\ transports st' = transports st
  /\ serverInfos st' = serverInfos st.

(** Two states that differ at most in the requests issued. *)
Definition only_requests (st st' : @ClientState Json) : Prop :=
  same_registry st st'
  /\ anthropic st' = anthropic st
  /\ anthropicModel st' = anthropicModel st
  /\ created st' = created st.

(** What holds of the registry in every state a caller can reach: keys
    are distinct and every registered handle is an object created
    earlier. *)
Definition registry_ok (st : @ClientState Json) : Prop :=
  JsMap.wf (clients st)
  /\ JsMap.wf (serverInfos st)
  /\ forall k c,
       JsMap.get k (clients st) = Some c -> (client_id c < created st)%nat.

(** *** The outcome of a successful [connectToServer] *)

(** The [Client] object the next [connectToServer] creates. *)
Definition next_client (serverName : string) (st : @ClientState Json)
  : Client :=
  {| client_id := created st;
     client_name := "universal-client-" ++ serverName |}.

(** The trace once the channel is requested, and once the three list
    requests are out. *)
Definition connect_trace (serverName : string) (t : Transport)
    (st : @ClientState Json) : Trace :=
  (trace st ++ [EConnect (next_client serverName st) t])%list.

Definition discovery_trace (serverName : string) (t : Transport)
    (st : @ClientState Json) : Trace :=
  (connect_trace serverName t st
   ++ [EListTools (next_client serverName st);
       EListResources (next_client serverName st);
       EListPrompts (next_client serverName st)])%list.

(** The snapshot discovery stores. *)
Definition snapshot_of (E : @Env Json) (serverName : string)
    (t : Transport) (st : ClientState) : ServerInfo :=
  let c := next_client serverName st in
  let tr := discovery_trace serverName t st in
  {| info_name := serverName;
     tools := or_default (client_listTools E tr c) [];
     resources := or_default (client_listResources E tr c) [];
     prompts := or_default (client_listPrompts E tr c) [] |}.

Definition connected (E : @Env Json) (serverName : string)
    (t : Transport) (st : ClientState) : ClientState :=
  {| clients := JsMap.set serverName (next_client serverName st)
                  (clients st);
     transports := JsMap.set serverName t (transports st);
     serverInfos := JsMap.set serverName (snapshot_of E serverName t st)
                      (serverInfos st);
     anthropic := anthropic st;
     anthropicModel := anthropicModel st;
     created := S (created st);
     trace := discovery_trace serverName t st |}.

End Callers.

(** ** Example worlds

    JSON documents are their text.  Every server answers [tools/list] with
    a single tool [search], does not implement resources or prompts, and
    executes [search] only. *)
Module Demo.

Definition search : @Tool string :=
  {| tool_name := "search"; tool_description := None;
     tool_inputSchema := None |}.

Definition node_server : MCPServerConfig :=
  {| config_name := "Demo server";
     config_transport :=
       {| transport_type := stdio;
          transport_stdio :=
            Some {| stdio_command := "node";
                    stdio_args := ["server.js"];
                    stdio_env := None |};
          transport_sse := None |};
     config_description := None |}.

(** [type: 'stdio'] without the [stdio] section. *)
Definition no_stdio_section : MCPServerConfig :=
  {| config_name := "Demo server";
     config_transport :=
       {| transport_type := stdio;
          transport_stdio := None;
          transport_sse := None |};
     config_description := None |}.

Definition method_not_found : Error :=
  {| err_name := "McpError";
     err_message := "MCP error -32601: Method not found" |}.

Definition world (model : list (@Message string) -> list ContentBlock)
  : @Env string :=
  {| URL_parse := fun _ => None;
     client_connect := fun _ _ _ => None;
     client_listTools := fun _ _ => Ok [search];
     client_listResources := fun _ _ => Throw method_not_found;
     client_listPrompts := fun _ _ => Throw method_not_found;
     client_callTool := fun _ c name _ =>
       if decide (name = "search")
       then Ok ("hits from " ++ client_name c)
       else Throw method_not_found;
     client_readResource := fun _ _ _ => Throw method_not_found;
     client_getPrompt := fun _ _ _ _ => Throw method_not_found;
     client_ping := fun _ _ => None;
     client_close := fun _ _ => None;
     messages_create := fun _ messages _ => Ok (model messages);
     JSON_stringify := fun j => j |}.

(** A model that asks for [tool] once and then concludes. *)
Definition asks_once (tool : string) (messages : list (@Message string))
  : list (@ContentBlock string) :=
  match messages with
  | [_] => [Text "Let me look."; ToolUse "toolu_1" tool "{}"]
  | _ => [Text "Done."]
  end.

(** A model that asks for [tool] again in its follow-up response. *)
Definition asks_twice (tool : string) (messages : list (@Message string))
  : list (@ContentBlock string) :=
  match messages with
  | [_] => [ToolUse "toolu_1" tool "{}"]
  | _ => [Text "One more."; ToolUse "toolu_2" tool "{}"]
  end.

(** A client with a model credential. *)
Definition fresh : @ClientState string := constructor (Some "sk-demo") None.

(** A world whose model asks for [a_search], and the client once it has
    connected server [a] there. *)
Definition quiet : @Env string := world (asks_once "a_search").

Definition connected_a : @ClientState string :=
  run quiet [ConnectToServer "a" node_server] fresh.

Definition client_a : Client :=
  {| client_id := 0; client_name := "universal-client-a" |}.

(** Servers [b] and [b_x] in a world whose model asks for the [search]
    tool of [b_x]. *)
Definition picks_b_x : @Env string := world (asks_once "b_x_search").

Definition connected_b_and_b_x : @ClientState string :=
  run picks_b_x
    [ConnectToServer "b" node_server; ConnectToServer "b_x" node_server]
    fresh.

Definition client_b : Client :=
  {| client_id := 0; client_name := "universal-client-b" |}.

Definition client_b_x : Client :=
  {| client_id := 1; client_name := "universal-client-b_x" |}.

(** A world whose model asks for [a_search] again after the result. *)
Definition insists : @Env string := world (asks_twice "a_search").

(** A world whose model asks for a tool of a server that is not there. *)
Definition picks_missing : @Env string := world (asks_once "zz_search").

End Demo.

(** * The rest of the client, the configuration and the HTTP routes *)

(** ** Plain objects

    The own enumerable string-keyed properties of an object, in the order
    [Object.keys] and [Object.entries] list them: array indices first, in
    ascending order, then the other keys in the order they were created.
    An assignment to [__proto__] sets the prototype and creates no
    property. *)
Module JsObject.
Section Ops.
Context {V : Type}.

Definition t := list (string * V).

Definition is_digit (c : ascii) : bool :=
  let n := nat_of_ascii c in ((48 <=? n)%nat && (n <=? 57)%nat).

Fixpoint digits (s : string) (acc : N) : option N :=
  match s with
  | EmptyString => Some acc
  | String c s' =>
      if is_digit c
      then digits s' (acc * 10 + (N.of_nat (nat_of_ascii c) - 48))%N
      else None
  end.

(** A canonical decimal numeral below 2^32 - 1. *)
Definition array_index (k : string) : option N :=
  match k with
  | EmptyString => None
  | String c rest =>
      if bool_decide (c = "0"%char) && negb (bool_decide (rest = ""))
      then None
      else match digits k 0 with
           | Some n => if (n <=? 4294967294)%N then Some n else None
           | None => None
           end
  end.

Fixpoint get (k : string) (o : t) : option V :=
  match o with
  | [] => None
  | (k', v) :: o' => if decide (k' = k) then Some v else get k o'
  end.

Fixpoint replace (k : string) (v : V) (o : t) : t :=
  match o with
  | [] => []
  | (k', v') :: o' =>
      if decide (k' = k) then (k, v) :: o' else (k', v') :: replace k v o'
  end.

(** A new array index goes before the first key that is not a smaller
    array index. *)
Fixpoint insert_index (n : N) (k : string) (v : V) (o : t) : t :=
  match o with
  | [] => [(k, v)]
  | (k', v') :: o' =>
      match array_index k' with
      | Some n' =>
          if (n' <? n)%N then (k', v') :: insert_index n k v o'
          else (k, v) :: (k', v') :: o'
      | None => (k, v) :: (k', v') :: o'
      end
  end.

(** [o[k] = v] *)
Definition set (k : string) (v : V) (o : t) : t :=
  if decide (k = "__proto__") then o
  else match get k o with
       | Some _ => replace k v o
       | None =>
           match array_index k with
           | Some n => insert_index n k v o
           | None => (o ++ [(k, v)])%list
           end
       end.

Definition keys (o : t) : list string := map fst o.

(** A key that an assignment appends as it is. *)
Definition plain (k : string) : Prop :=
  k <> "__proto__" /\ array_index k = None.

End Ops.
Arguments t : clear implicits.
End JsObject.

(** The shape of the loops that copy a [Map] into an object: every entry
    is assigned in turn, its value seen through [f]. *)
Definition copy_loop {V W : Type} (f : V -> W) (m : JsMap.t V)
    (o : JsObject.t W) : JsObject.t W :=
  fold_left (fun result '(k, v) => JsObject.set k (f v) result) m o.

(** ** The read-only methods of the client *)

Section Readers.
Context {Json : Type}.

(** [info.tools.find(t => t.name === toolName)] *)
Definition find_tool (toolName : string) (ts : list (@Tool Json))
  : option Tool :=
  List.find (fun t => bool_decide (tool_name t = toolName)) ts.

(** The loop of [findTool] over [this.serverInfos]. *)
Fixpoint findTool_in (toolName : string) (infos : JsMap.t (@ServerInfo Json))
  : list (string * Tool) :=
  match infos with
  | [] => []
  | (serverName, info) :: rest =>
      match find_tool toolName (tools info) with
      | Some tool => (serverName, tool) :: findTool_in toolName rest
      | None => findTool_in toolName rest
      end
  end.

Definition findTool (toolName : string) (st : @ClientState Json)
  : list (string * Tool) :=
  findTool_in toolName (serverInfos st).

(** The loops that copy [this.serverInfos] into a fresh object. *)
Definition getAllServerInfos (st : @ClientState Json)
  : JsObject.t ServerInfo :=
  fold_left (fun result '(name, info) => JsObject.set name info result)
    (serverInfos st) [].

Definition listAllTools (st : @ClientState Json)
  : JsObject.t (list Tool) :=
  fold_left (fun result '(serverName, info) =>
               JsObject.set serverName (tools info) result)
    (serverInfos st) [].

Definition listAllResources (st : @ClientState Json)
  : JsObject.t (list Resource) :=
  fold_left (fun result '(serverName, info) =>
               JsObject.set serverName (resources info) result)
    (serverInfos st) [].

(** *** Shapes of states, for the statements below *)

(** The state once the request to close [c] is out. *)
Definition closing (c : Client) (st : @ClientState Json) : ClientState :=
  {| clients := clients st; transports := transports st;
     serverInfos := serverInfos st; anthropic := anthropic st;
     anthropicModel := anthropicModel st; created := created st;
     trace := (trace st ++ [EClose c])%list |}.

(** The state with the three entries of [name] deleted. *)
Definition without (name : string) (st : @ClientState Json) : ClientState :=
  {| clients := JsMap.delete name (clients st);
     transports := JsMap.delete name (transports st);
     serverInfos := JsMap.delete name (serverInfos st);
     anthropic := anthropic st;
     anthropicModel := anthropicModel st; created := created st;
     trace := trace st |}.

(** The state with the three maps cleared, after the requests [closes]. *)
Definition cleared (closes : Trace) (st : @ClientState Json) : ClientState :=
  {| clients := JsMap.empty; transports := JsMap.empty;
     serverInfos := JsMap.empty; anthropic := anthropic st;
     anthropicModel := anthropicModel st; created := created st;
     trace := (trace st ++ closes)%list |}.

(** The handles of the registry, oldest first. *)
Definition handles (st : @ClientState Json) : list Client :=
  map snd (clients st).

(** The state once the requests [requests] are out. *)
Definition after_requests (requests : @Trace Json)
    (st : @ClientState Json) : ClientState :=
  {| clients := clients st; transports := transports st;
     serverInfos := serverInfos st; anthropic := anthropic st;
     anthropicModel := anthropicModel st; created := created st;
     trace := (trace st ++ requests)%list |}.

(** While disconnecting all, the requests that are out once the close of
    the handle at position [k] is, and the answer to that close. *)
Definition closes_up_to (k : nat) (st : @ClientState Json) : @Trace Json :=
  map EClose (firstn (S k) (handles st)).

Definition close_answer (E : @Env Json) (k : nat) (c : Client)
    (st : @ClientState Json) : option Error :=
  client_close E (trace st ++ closes_up_to k st)%list c.

(** The three maps are about the same identifiers, every snapshot and
    every handle carries the identifier it is stored under, and no two
    identifiers hold the same [Client] object. *)
Definition registry_coherent (st : @ClientState Json) : Prop :=
  JsMap.keys (transports st) = JsMap.keys (clients st)
  /\ JsMap.keys (serverInfos st) = JsMap.keys (clients st)
  /\ (forall id info,
         JsMap.get id (serverInfos st) = Some info -> info_name info = id)
  /\ (forall id c,
         JsMap.get id (clients st) = Some c ->
         client_name c = "universal-client-" ++ id)
  /\ (forall id1 id2 c1 c2,
         JsMap.get id1 (clients st) = Some c1 ->
         JsMap.get id2 (clients st) = Some c2 ->
         client_id c1 = client_id c2 -> id1 = id2).

(** *** Reading the requests of a query *)

(** The text of a response: every text block followed by a line feed. *)
Fixpoint texts_of (bs : list (@ContentBlock Json)) : string :=
  match bs with
  | [] => ""
  | Text t :: bs' => t ++ Js.nl ++ texts_of bs'
  | _ :: bs' => texts_of bs'
  end.

(** A model request for [model] with the token limit of the source, whose
    conversation opens with the user's [query]. *)
Definition opens_with_query (query model : string) (e : @Event Json)
  : Prop :=
  match e with
  | EMessagesCreate m n messages _ =>
      m = model /\ n = 2000
      /\ head messages
         = Some {| role := user; content := StringContent query |}
  | _ => True
  end.

(** A request a query may issue: a model request, or a tool call on a
    handle of the registry. *)
Definition query_request (st : @ClientState Json) (e : @Event Json) : Prop :=
  match e with
  | EMessagesCreate _ _ _ _ => True
  | ECallTool c _ _ => exists id, JsMap.get id (clients st) = Some c
  | _ => False
  end.

(** The state once the request [e] is out. *)
Definition after_request (e : @Event Json) (st : @ClientState Json)
  : ClientState :=
  {| clients := clients st; transports := transports st;
     serverInfos := serverInfos st; anthropic := anthropic st;
     anthropicModel := anthropicModel st; created := created st;
     trace := (trace st ++ [e])%list |}.

End Readers.

(** ** More of JavaScript strings *)
Module JsText.

(** [toLowerCase] on one code unit below 256. *)
Definition lower_char (c : ascii) : ascii :=
  let n := nat_of_ascii c in
  if ((65 <=? n)%nat && (n <=? 90)%nat)
     || ((192 <=? n)%nat && (n <=? 222)%nat && negb (n =? 215)%nat)
  then ascii_of_nat (n + 32)
  else c.

Fixpoint toLowerCase (s : string) : string :=
  match s with
  | EmptyString => EmptyString
  | String c s' => String (lower_char c) (toLowerCase s')
  end.

(** [s.split(sep)] for a one-character separator: never empty. *)
Fixpoint split (s : string) (sep : ascii) : list string :=
  match s with
  | EmptyString => [EmptyString]
  | String c s' =>
      if decide (c = sep) then EmptyString :: split s' sep
      else match split s' sep with
           | [] => [String c EmptyString]
           | seg :: segs => String c seg :: segs
           end
  end.

(** [s.startsWith(p)] *)
Definition startsWith (s p : string) : bool := String.prefix p s.

Fixpoint drop (n : nat) (s : string) : string :=
  match n, s with
  | O, _ => s
  | S n', String _ s' => drop n' s'
  | S _, EmptyString => EmptyString
  end.

(** [s.replace(p, '')]: the first occurrence of [p] is removed. *)
Fixpoint remove_first (s p : string) : string :=
  if String.prefix p s then drop (String.length p) s
  else match s with
       | EmptyString => EmptyString
       | String c s' => String c (remove_first s' p)
       end.

(** [a || b] on optional strings. *)
Definition or_else (a b : option string) : option string :=
  if Js.truthy_opt a then a else b.

End JsText.

(** ** config.ts *)

Record AnthropicConfig := {
  anthropic_apiKey : option string;
  anthropic_model : option string
}.

Section Config.

(** Numbers (the port) and their parsing are left to the platform. *)
Context {Number : Type}.
Context (parseInt : string -> Number) (truthy_number : Number -> bool)
        (n3000 : Number).

Record ApiConfig := {
  api_port : option Number;
  api_host : option string
}.

Record ClientConfig := {
  config_servers : JsObject.t MCPServerConfig;
  config_anthropic : option AnthropicConfig;
  config_api : option ApiConfig
}.

(** [process.env]: its entries, in the order of [Object.keys]. *)
Definition ProcessEnv := JsObject.t string.

(** [process.platform] *)
Context (platform : string).

Definition stdio_config (name command : string) (args : list string)
  : MCPServerConfig :=
  {| config_name := name;
     config_transport :=
       {| transport_type := stdio;
          transport_stdio :=
            Some {| stdio_command := command; stdio_args := args;
                    stdio_env := None |};
          transport_sse := None |};
     config_description := None |}.

Definition createServerConfigFromPath (name path : string)
  : MCPServerConfig :=
  let extension := JsText.toLowerCase <$> last (JsText.split path ".") in
  if decide (extension = Some "js") then stdio_config name "node" [path]
  else if decide (extension = Some "py") then
    stdio_config name
      (if decide (platform = "win32") then "python" else "python3") [path]
  else if decide (extension = Some "jar") then
    stdio_config name "java" ["-jar"; path]
  else stdio_config name path [].

(** The body of the [forEach] of [loadFromEnv]. *)
Definition add_server_from_env (env : ProcessEnv)
    (servers : JsObject.t MCPServerConfig) (key : string)
  : JsObject.t MCPServerConfig :=
  if JsText.startsWith key "MCP_SERVER_" then
    let serverName :=
      JsText.toLowerCase (JsText.remove_first key "MCP_SERVER_") in
    match JsObject.get key env with
    | Some serverPath =>
        if Js.truthy serverPath
        then JsObject.set serverName
               (createServerConfigFromPath serverName serverPath) servers
        else servers
    | None => servers
    end
  else servers.

Definition default_model : string := "claude-3-5-sonnet-20241022".

Definition loadFromEnv (env : ProcessEnv) : ClientConfig :=
  {| config_servers :=
       fold_left (add_server_from_env env) (JsObject.keys env) [];
     config_anthropic :=
       Some {| anthropic_apiKey := JsObject.get "ANTHROPIC_API_KEY" env;
               anthropic_model :=
                 JsText.or_else (JsObject.get "ANTHROPIC_MODEL" env)
                   (Some default_model) |};
     config_api :=
       Some {| api_port :=
                 Some (parseInt
                         (default "3000"
                            (JsText.or_else (JsObject.get "API_PORT" env)
                               (Some "3000"))));
               api_host :=
                 JsText.or_else (JsObject.get "API_HOST" env)
                   (Some "0.0.0.0") |} |}.

(** [a || b] on optional numbers. *)
Definition or_number (a b : option Number) : option Number :=
  match a with
  | Some n => if truthy_number n then a else b
  | None => b
  end.

Definition mergeWithEnv (env : ProcessEnv) (config : ClientConfig)
  : ClientConfig :=
  {| config_servers := config_servers config;
     config_anthropic :=
       Some {| anthropic_apiKey :=
                 JsText.or_else (JsObject.get "ANTHROPIC_API_KEY" env)
                   (config_anthropic config ≫= anthropic_apiKey);
               anthropic_model :=
                 JsText.or_else
                   (JsText.or_else (JsObject.get "ANTHROPIC_MODEL" env)
                      (config_anthropic config ≫= anthropic_model))
                   (Some default_model) |};
     config_api :=
       Some {| api_port :=
                 or_number
                   (or_number
                      (Some (parseInt
                               (default ""
                                  (JsText.or_else
                                     (JsObject.get "API_PORT" env)
                                     (Some "")))))
                      (config_api config ≫= api_port))
                   (Some n3000);
               api_host :=
                 JsText.or_else
                   (JsText.or_else (JsObject.get "API_HOST" env)
                      (config_api config ≫= api_host))
                   (Some "0.0.0.0") |} |}.

Definition getServerNames (config : ClientConfig) : list string :=
  JsObject.keys (config_servers config).

Definition hasAnthropicConfig (config : ClientConfig) : bool :=
  Js.truthy_opt (config_anthropic config ≫= anthropic_apiKey).

Definition missing_stdio_error (name : string) : string :=
  "Server " ++ name
  ++ ": stdio transport configured but missing stdio configuration".

Definition missing_sse_error (name : string) : string :=
  "Server " ++ name
  ++ ": sse transport configured but missing sse configuration".

(** The errors [validateConfig] pushes for one server. *)
Definition server_errors (name : string) (config : MCPServerConfig)
  : list string :=
  ((match transport_type (config_transport config),
          transport_stdio (config_transport config) with
    | stdio, None => [missing_stdio_error name]
    | _, _ => []
    end)
   ++
   (match transport_type (config_transport config),
          transport_sse (config_transport config) with
    | sse, None => [missing_sse_error name]
    | _, _ => []
    end))%list.

Definition no_servers_error : string :=
  "No MCP servers configured. Add servers to mcp-config.json or set MCP_SERVER_* environment variables.".

(** [validateConfig()]: the pair of [valid] and [errors]. *)
Definition validateConfig (config : ClientConfig) : bool * list string :=
  let errors :=
    ((if (length (JsObject.keys (config_servers config)) =? 0)%nat
      then [no_servers_error] else [])
     ++ flat_map (fun '(name, c) => server_errors name c)
          (config_servers config))%list in
  ((length errors =? 0)%nat, errors).

End Config.

(** The client that [main] and [startAPIServer] build from the
    configuration. *)
Definition client_of_config {Json Number : Type}
    (config : @ClientConfig Number) : @ClientState Json :=
  constructor (config_anthropic config ≫= anthropic_apiKey)
    (config_anthropic config ≫= anthropic_model).

(** ** index.ts: the path of the configuration file

    [args.find(arg => arg.startsWith('--config='))?.split('=')[1]] *)
Definition configPath_of (args : list string) : option string :=
  List.find (fun arg => JsText.startsWith arg "--config=") args
  ≫= (fun arg => JsText.split arg "=" !! 1%nat).

(** ** The HTTP routes of server.ts

    A handler reads the parameters of the path and the fields of the JSON
    body, calls the client and answers with a status and a JSON body
    ([res.json] alone answers 200). *)
Section Routes.
Context {Json : Type} (E : @Env Json).

(** Truthiness of a JSON value, and the empty object [{}]. *)
Context (json_truthy : Json -> bool) (empty_object : Json).

Inductive ApiBody :=
| ErrorBody (error : string)
| ToolDone (result : Json) (serverName toolName : string) (arguments : Json)
| ToolFailed (error : string) (serverName toolName : string)
             (arguments : Json)
| ReadDone (result : Json) (serverName uri : string)
| ReadFailed (error : string) (serverName uri : string)
| QueryDone (response query server : string)
| QueryFailed (error query server : string)
| PingDone (alive : bool) (serverName : string)
| PingFailed (error : string) (serverName : string)
| InfoBody (info : @ServerInfo Json)
| FindBody (toolName : string) (found : bool)
           (results : list (string * @Tool Json)).

Record ApiResponse := { status : nat; body : ApiBody }.

(** The [success] field of a body, when it has one. *)
Definition success (b : ApiBody) : option bool :=
  match b with
  | ToolDone _ _ _ _ | ReadDone _ _ _ | QueryDone _ _ _ | PingDone _ _ =>
      Some true
  | ToolFailed _ _ _ _ | ReadFailed _ _ _ | QueryFailed _ _ _
  | PingFailed _ _ => Some false
  | _ => None
  end.

Definition Handler := @ClientState Json -> ApiResponse * @ClientState Json.

(** [a || b] on optional JSON values. *)
Definition json_or (a b : option Json) : option Json :=
  match a with
  | Some v => if json_truthy v then a else b
  | None => b
  end.

(** [GET /api/servers/:serverName] *)
Definition get_server (serverName : string) : Handler :=
  fun st =>
    match getServerInfo serverName st with
    | None => ({| status := 404; body := ErrorBody "Server not found" |}, st)
    | Some serverInfo => ({| status := 200; body := InfoBody serverInfo |}, st)
    end.

(** [POST /api/servers/:serverName/tools/:toolName], with the fields
    [arguments] and [args] of the body. *)
Definition post_tool (serverName toolName : string)
    (arguments args : option Json) : Handler :=
  fun st =>
    let args' :=
      default empty_object
        (json_or (json_or arguments args) (Some empty_object)) in
    if negb (isConnected serverName st) then
      ({| status := 404; body := ErrorBody "Server not connected" |}, st)
    else
      match callTool E serverName toolName args' st with
      | (Ok result, st') =>
          ({| status := 200;
              body := ToolDone result serverName toolName args' |}, st')
      | (Throw error, st') =>
          ({| status := 500;
              body := ToolFailed (err_message error) serverName toolName
                        args' |}, st')
      end.

(** [GET /api/servers/:serverName/resources/*] *)
Definition get_resource (serverName uri : string) : Handler :=
  fun st =>
    if negb (isConnected serverName st) then
      ({| status := 404; body := ErrorBody "Server not connected" |}, st)
    else
      match readResource E serverName uri st with
      | (Ok result, st') =>
          ({| status := 200; body := ReadDone result serverName uri |}, st')
      | (Throw error, st') =>
          ({| status := 500;
              body := ReadFailed (err_message error) serverName uri |}, st')
      end.

(** [POST /api/query], with the fields [query] and [server] of the body. *)
Definition post_query (query server : option string) : Handler :=
  fun st =>
    if negb (Js.truthy_opt query) then
      ({| status := 400; body := ErrorBody "Query is required" |}, st)
    else
      let query' := default "" query in
      let shown := default "" (JsText.or_else server (Some "all")) in
      match queryWithLLM E query' server st with
      | (Ok result, st') =>
          ({| status := 200; body := QueryDone result query' shown |}, st')
      | (Throw error, st') =>
          ({| status := 500;
              body := QueryFailed (err_message error) query' shown |}, st')
      end.

(** [POST /api/servers/:serverName/ping] *)
Definition post_ping (serverName : string) : Handler :=
  fun st =>
    match ping E serverName st with
    | (Ok isAlive, st') =>
        ({| status := 200; body := PingDone isAlive serverName |}, st')
    | (Throw error, st') =>
        ({| status := 500;
            body := PingFailed (err_message error) serverName |}, st')
    end.

(** The [forEach] of [GET /api/tools/find/:toolName] over the entries of
    [getAllServerInfos()]. *)
Fixpoint find_in_entries (toolName : string)
    (entries : JsObject.t (@ServerInfo Json)) : list (string * Tool) :=
  match entries with
  | [] => []
  | (serverName, info) :: rest =>
      match find_tool toolName (tools info) with
      | Some tool => (serverName, tool) :: find_in_entries toolName rest
      | None => find_in_entries toolName rest
      end
  end.

Definition get_find (toolName : string) : Handler :=
  fun st =>
    let results := find_in_entries toolName (getAllServerInfos st) in
    ({| status := 200;
        body := FindBody toolName (0 <? length results)%nat results |}, st).

End Routes.

(** ** The connect phase of index.ts and server.ts

    [main] and [startAPIServer] start the connects of all configured
    servers together, [serverNames.map(async ...)], and wait for all of
    them, [await Promise.all(...)].  Every callback runs up to its first
    [await] when [map] calls it; after that the callbacks go on one at a
    time, each up to its next [await], in the order in which the outside
    world answers. *)
Section Startup.
Context {Json : Type} (E : @Env Json).

#[local] Notation "'let*' x ':=' m 'in' k" := (bind m (fun x => k))
  (at level 10, x name, m at level 100, k at level 200).
#[local] Notation "m ;; k" := (bind m (fun _ => k))
  (at level 100, k at level 200, right associativity).

(** A [connectToServer] that waits: at [await client.connect(transport)],
    or at the [await Promise.allSettled([...])] of
    [discoverServerCapabilities]. *)
Inductive Pending :=
| Connecting (serverName : string) (client : Client) (transport : Transport)
| Discovering (serverName : string) (client : Client).

(** [connectToServer] up to [await client.connect(transport)]: the request
    to open the channel is out. *)
Definition connect_begin (serverName : string) (config : MCPServerConfig)
  : @M Json Pending :=
  try_catch
    (let* client := new_Client ("universal-client-" ++ serverName) in
     let* transport := make_transport E serverName config in
     emit (EConnect client transport) ;;
     ret (Connecting serverName client transport))
    (fun error => throw error).

(** [discoverServerCapabilities] up to its [await]: the three list
    requests are out. *)
Definition discover_begin (serverName : string) : @M Json (option Pending) :=
  let* st := get_state in
  match JsMap.get serverName (clients st) with
  | None => ret None
  | Some client =>
      emit (EListTools client) ;;
      emit (EListResources client) ;;
      emit (EListPrompts client) ;;
      ret (Some (Discovering serverName client))
  end.

(** What a waiting [connectToServer] does once the answer is in, up to its
    next [await] or to its end. *)
Definition resume (p : Pending) : @M Json (option Pending) :=
  match p with
  | Connecting serverName client transport =>
      try_catch
        (let* st := get_state in
         of_unit_result (client_connect E (trace st) client transport) ;;
         set_clients (JsMap.set serverName client) ;;
         set_transports (JsMap.set serverName transport) ;;
         discover_begin serverName)
        (fun error => throw error)
  | Discovering serverName client =>
      let* st' := get_state in
      let serverInfo :=
        {| info_name := serverName;
           tools := or_default (client_listTools E (trace st') client) [];
           resources :=
             or_default (client_listResources E (trace st') client) [];
           prompts :=
             or_default (client_listPrompts E (trace st') client) [] |} in
      set_serverInfos (JsMap.set serverName serverInfo) ;;
      ret None
  end.

(** A [connectToServer] that nothing interleaves with. *)
Definition connect_alone (serverName : string) (config : MCPServerConfig)
  : @M Json unit :=
  let* p := connect_begin serverName config in
  let* discovering := resume p in
  match discovering with
  | Some p' => resume p' ;; ret tt
  | None => ret tt
  end.

(** The callback of [serverNames.map], up to its first [await]; a connect
    that has thrown by then is caught and gives [success: false]. *)
Definition begin_task (servers : JsObject.t MCPServerConfig)
    (serverName : string) (st : @ClientState Json)
  : list Pending * @ClientState Json :=
  match JsObject.get serverName servers with
  | Some serverConfig =>
      match connect_begin serverName serverConfig st with
      | (Ok p, st') => ([p], st')
      | (Throw _, st') => ([], st')
      end
  | None => ([], st)
  end.

Fixpoint begin_all (servers : JsObject.t MCPServerConfig)
    (serverNames : list string) (st : @ClientState Json)
  : list Pending * @ClientState Json :=
  match serverNames with
  | [] => ([], st)
  | serverName :: rest =>
      let '(p, st1) := begin_task servers serverName st in
      let '(ps, st2) := begin_all servers rest st1 in
      ((p ++ ps)%list, st2)
  end.

(** What is left to wait for after a step of a callback. *)
Definition continuation (r : @Result (option Pending)) : list Pending :=
  match r with
  | Ok (Some p) => [p]
  | _ => []
  end.

(** The callbacks go on in the order of the answers: [schedule] gives,
    step after step, the position of the waiting callback that goes on. *)
Fixpoint settle (schedule : list nat) (pending : list Pending)
    (st : @ClientState Json) : list Pending * @ClientState Json :=
  match schedule with
  | [] => (pending, st)
  | k :: rest =>
      match pending !! k with
      | None => settle rest pending st
      | Some p =>
          let '(r, st') := resume p st in
          settle rest
            (take k pending ++ continuation r ++ drop (S k) pending)%list
            st'
      end
  end.

(** The connect phase: what is still waiting, and the state.
    [Promise.all] is through when nothing is waiting. *)
Definition connect_all (servers : JsObject.t MCPServerConfig)
    (schedule : list nat) (st : @ClientState Json)
  : list Pending * @ClientState Json :=
  let '(pending, st1) := begin_all servers (JsObject.keys servers) st in
  settle schedule pending st1.

(** What holds of the registry while callbacks wait: a registered handle
    without snapshot belongs to a callback that waits for its lists. *)
Definition startup_ok (pending : list Pending) (st : @ClientState Json)
  : Prop :=
  JsMap.wf (clients st)
  /\ JsMap.wf (serverInfos st)
  /\ JsMap.keys (transports st) = JsMap.keys (clients st)
  /\ (forall id, In id (JsMap.keys (serverInfos st)) ->
                 In id (JsMap.keys (clients st)))
  /\ (forall id, In id (JsMap.keys (clients st)) ->
                 In id (JsMap.keys (serverInfos st))
                 \/ exists c, In (Discovering id c) pending)
  /\ (forall id c, In (Discovering id c) pending ->
                   In id (JsMap.keys (clients st))).

(** What holds once nothing waits: the three maps are about the same
    identifiers. *)
Definition registry_agrees (st : @ClientState Json) : Prop :=
  JsMap.wf (clients st)
  /\ JsMap.wf (serverInfos st)
  /\ JsMap.keys (transports st) = JsMap.keys (clients st)
  /\ (forall id, In id (JsMap.keys (serverInfos st))
                 <-> In id (JsMap.keys (clients st))).

End Startup.

(** ** More example worlds *)
Module Examples.

Definition connection_refused : Error :=
  {| err_name := "Error"; err_message := "connect ECONNREFUSED" |}.

Definition overloaded : Error :=
  {| err_name := "APIError"; err_message := "529 overloaded" |}.

(** Like [Demo.world], except that the channel of the servers in [down]
    does not open, those in [stuck] fail to close, and the model fails
    when [model] gives no response. *)
Definition world (down stuck : list string)
    (model : list (@Message string) -> option (list ContentBlock))
  : @Env string :=
  {| URL_parse := fun _ => None;
     client_connect := fun _ c _ =>
       if bool_decide (client_name c ∈ down)
       then Some connection_refused else None;
     client_listTools := fun _ _ => Ok [Demo.search];
     client_listResources := fun _ _ => Throw Demo.method_not_found;
     client_listPrompts := fun _ _ => Throw Demo.method_not_found;
     client_callTool := fun _ c name _ =>
       if decide (name = "search")
       then Ok ("hits from " ++ client_name c)
       else Throw Demo.method_not_found;
     client_readResource := fun _ _ _ => Throw Demo.method_not_found;
     client_getPrompt := fun _ _ _ _ => Throw Demo.method_not_found;
     client_ping := fun _ _ => None;
     client_close := fun _ c =>
       if bool_decide (client_name c ∈ stuck)
       then Some connection_refused else None;
     messages_create := fun _ messages _ =>
       match model messages with
       | Some response => Ok response
       | None => Throw overloaded
       end;
     JSON_stringify := fun j => j |}.

(** Servers [a], [b] and [c] all work, except that [b] cannot be
    closed. *)
Definition b_stuck : @Env string :=
  world [] ["universal-client-b"] (fun _ => Some [Text "Hello."]).

Definition three_servers : list (@Call string) :=
  [ConnectToServer "a" Demo.node_server;
   ConnectToServer "b" Demo.node_server;
   ConnectToServer "c" Demo.node_server].

Definition connected_abc : @ClientState string :=
  run b_stuck three_servers (constructor (Some "sk-demo") None).

(** The channel of [b] does not open. *)
Definition b_down : @Env string :=
  world ["universal-client-b"] [] (fun _ => Some [Text "Hello."]).

(** The model is out of service. *)
Definition model_down : @Env string := world [] [] (fun _ => None).

(** The model asks for [a_search] and is out of service afterwards. *)
Definition model_fails_second : @Env string :=
  world [] []
    (fun messages =>
       match messages with
       | [_] => Some [Text "Let me look."; ToolUse "toolu_1" "a_search" "{}"]
       | _ => None
       end).

(** The model asks for a tool whose name has no separator. *)
Definition model_unqualified : @Env string :=
  world [] []
    (fun messages =>
       match messages with
       | [_] => Some [ToolUse "toolu_1" "search" "{}"]
       | _ => Some [Text "Done."]
       end).

(** An environment with two servers, one without a path. *)
Definition shell_env : JsObject.t string :=
  [("HOME", "/root");
   ("MCP_SERVER_MY_DB", "/srv/db/Server.JS");
   ("MCP_SERVER_EMPTY", "");
   ("MCP_SERVER_WEATHER", "/srv/weather.py")].

(** A server registered as [__proto__], and servers [b] and [7]. *)
Definition with_proto : @ClientState string :=
  run b_stuck [ConnectToServer "__proto__" Demo.node_server;
               ConnectToServer "a" Demo.node_server]
    (constructor (Some "sk-demo") None).

Definition with_index : @ClientState string :=
  run b_stuck [ConnectToServer "b" Demo.node_server;
               ConnectToServer "7" Demo.node_server]
    (constructor (Some "sk-demo") None).

(** Servers [a] and [b] of a configuration, started together: [a] is
    connected first, and the lists of [b] are in first. *)
Definition two_servers : JsObject.t MCPServerConfig :=
  [("a", Demo.node_server); ("b", Demo.node_server)].

Definition b_lists_first : list nat := [0; 1; 1; 0]%nat.

Definition started_ab : list Pending * @ClientState string :=
  connect_all b_stuck two_servers b_lists_first
    (constructor (Some "sk-demo") None).

Definition client_a : Client :=
  {| client_id := 0; client_name := "universal-client-a" |}.
Definition client_b : Client :=
  {| client_id := 1; client_name := "universal-client-b" |}.
Definition client_c : Client :=
  {| client_id := 2; client_name := "universal-client-c" |}.

End Examples.

(** * Properties *)

(** Closed facts about the example worlds are settled by evaluation, one
    conjunct at a time. *)
Ltac by_evaluation :=
  repeat match goal with |- _ /\ _ => split end; vm_compute; reflexivity.

(** ** Strings *)

Lemma append_assoc (a b c : string) : (a ++ b) ++ c = a ++ b ++ c.
Proof. induction a as [|x a IH]; simpl; [reflexivity | now rewrite IH]. Qed.

Lemma append_String (c : ascii) (a b : string) :
  String c a ++ b = String c (a ++ b).
Proof. reflexivity. Qed.

(** Bring both sides of an equation between concatenations to the same
    right-nested form. *)
Ltac append_normal :=
  repeat (rewrite append_assoc || rewrite append_String); try reflexivity.

Lemma append_empty_r (a : string) : a ++ "" = a.
Proof. induction a as [|x a IH]; simpl; [reflexivity | now rewrite IH]. Qed.

Lemma strlen_append (a b : string) :
  Js.strlen (a ++ b) = Js.strlen a + Js.strlen b.
Proof.
  unfold Js.strlen. induction a as [|x a IH]; simpl String.length.
  - reflexivity.
  - rewrite !Nat2Z.inj_succ, IH. lia.
Qed.

Lemma strlen_nonneg (a : string) : 0 <= Js.strlen a.
Proof. unfold Js.strlen. lia. Qed.

Lemma rev_app_spec (a c : string) :
  String.rev_app a c = String.rev a ++ c.
Proof.
  unfold String.rev. revert c.
  induction a as [|x a IH]; intros c; simpl; [reflexivity|].
  rewrite (IH (String x c)), (IH (String x "")), append_assoc. reflexivity.
Qed.

Lemma rev_append (a b : string) :
  String.rev (a ++ b) = String.rev b ++ String.rev a.
Proof.
  induction a as [|x a IH]; simpl.
  - now rewrite append_empty_r.
  - unfold String.rev at 1 3. simpl.
    rewrite !rev_app_spec, IH, append_assoc. reflexivity.
Qed.

Lemma rev_String (x : ascii) (a : string) :
  String.rev (String x a) = String.rev a ++ String x "".
Proof. unfold String.rev at 1. simpl. apply rev_app_spec. Qed.

Lemma rev_involutive (a : string) : String.rev (String.rev a) = a.
Proof.
  induction a as [|x a IH]; [reflexivity|].
  rewrite rev_String, rev_append, IH. reflexivity.
Qed.

(** [trimStart] only removes a prefix, and stops at a visible character. *)
Lemma trimStart_keeps (pre : string) (c : ascii) (rest : string) :
  Js.is_whitespace c = false ->
  exists pre', Js.trimStart (pre ++ String c rest) = pre' ++ String c rest.
Proof.
  intros Hc. induction pre as [|x pre IH]; simpl.
  - rewrite Hc. now exists "".
  - destruct (Js.is_whitespace x).
    + exact IH.
    + now exists (String x pre).
Qed.

Lemma trimEnd_keeps (body : string) (c : ascii) (post : string) :
  Js.is_whitespace c = false ->
  exists post',
    Js.trimEnd (body ++ String c post) = body ++ String c post'.
Proof.
  intros Hc. unfold Js.trimEnd.
  replace (body ++ String c post) with ((body ++ String c "") ++ post)
    by now rewrite append_assoc.
  rewrite rev_append, rev_append.
  change (String.rev (String c "") ++ String.rev body)
    with (String c (String.rev body)).
  destruct (trimStart_keeps (String.rev post) c (String.rev body) Hc)
    as [post' ->].
  exists (String.rev post').
  rewrite rev_append, rev_String, rev_involutive, append_assoc.
  reflexivity.
Qed.

(** What [trim] keeps: a piece of text delimited by visible characters. *)
Lemma trim_keeps (pre : string) (c1 : ascii) (mid : string) (c2 : ascii)
    (post : string) :
  Js.is_whitespace c1 = false ->
  Js.is_whitespace c2 = false ->
  exists pre' post',
    Js.trim (pre ++ String c1 (mid ++ String c2 post))
    = pre' ++ String c1 (mid ++ String c2 post').
Proof.
  intros H1 H2. unfold Js.trim.
  destruct (trimStart_keeps pre c1 (mid ++ String c2 post) H1) as [pre' ->].
  destruct (trimEnd_keeps (pre' ++ String c1 mid) c2 post H2) as [post' Hp].
  exists pre', post'.
  replace (pre' ++ String c1 (mid ++ String c2 post))
    with ((pre' ++ String c1 mid) ++ String c2 post)
    by (rewrite append_assoc; reflexivity).
  rewrite Hp, append_assoc. reflexivity.
Qed.

(** [indexOf] skips a prefix that does not contain the character. *)
Lemma index_from_absent (c : ascii) (a rest : string) (i : Z) :
  Js.index_from c a i = -1 -> 0 <= i ->
  Js.index_from c (a ++ rest) i = Js.index_from c rest (i + Js.strlen a).
Proof.
  revert i. induction a as [|x a IH]; intros i Ha Hi; simpl.
  - unfold Js.strlen. simpl. now rewrite Z.add_0_r.
  - simpl in Ha. destruct (decide (x = c)); [lia|].
    rewrite IH by (assumption || lia).
    f_equal. unfold Js.strlen. simpl String.length. lia.
Qed.

Lemma index_from_range (c : ascii) (a : string) (i : Z) :
  0 <= i ->
  Js.index_from c a i = -1 \/ i <= Js.index_from c a i < i + Js.strlen a.
Proof.
  revert i. induction a as [|x a IH]; intros i Hi; simpl.
  - now left.
  - assert (Js.strlen (String x a) = 1 + Js.strlen a) as ->
      by (unfold Js.strlen; simpl String.length; lia).
    pose proof (strlen_nonneg a).
    destruct (decide (x = c)); [right; lia|].
    destruct (IH (i + 1)) as [->|?]; [lia | now left | right; lia].
Qed.

Lemma substring_prefix (a b : string) :
  String.substring 0 (String.length a) (a ++ b) = a.
Proof.
  induction a as [|x a IH]; simpl.
  - now destruct b.
  - now rewrite IH.
Qed.

Lemma substring_suffix (a b : string) :
  String.substring (String.length a) (String.length b) (a ++ b) = b.
Proof.
  induction a as [|x a IH]; simpl.
  - induction b as [|y b IHb]; simpl; [reflexivity | now rewrite IHb].
  - exact IH.
Qed.

(** Splitting a qualified name at its first separator recovers the server
    and the tool when the server name has no separator. *)
Lemma split_qualified (serverName toolName : string) :
  Js.indexOf serverName "_" = -1 ->
  let name := serverName ++ "_" ++ toolName in
  Js.substring name 0 (Js.indexOf name "_") = serverName
  /\ Js.substring_from name (Js.indexOf name "_" + 1) = toolName.
Proof.
  intros Hno name.
  assert (Hidx : Js.indexOf name "_" = Js.strlen serverName).
  { unfold Js.indexOf, name in *.
    rewrite index_from_absent by (assumption || lia).
    change ("_" ++ toolName) with (String "_" toolName).
    simpl. lia. }
  assert (Hlen : Js.strlen name = Js.strlen serverName + 1 + Js.strlen toolName).
  { unfold name. rewrite !strlen_append. unfold Js.strlen at 2. simpl. lia. }
  pose proof (strlen_nonneg serverName) as Hs.
  pose proof (strlen_nonneg toolName) as Ht.
  rewrite Hidx. unfold Js.substring_from, Js.substring, Js.clamp.
  rewrite Hlen. split.
  - replace (Z.to_nat _) with 0%nat by lia.
    replace (Z.to_nat _) with (String.length serverName)
      by (unfold Js.strlen in *; lia).
    apply substring_prefix.
  - replace (Z.to_nat (Z.min _ _)) with (String.length (serverName ++ "_"))
      by (unfold Js.strlen in *; apply Nat2Z.inj;
          change (Z.of_nat (String.length (serverName ++ "_")))
            with (Js.strlen (serverName ++ "_"));
          rewrite strlen_append; unfold Js.strlen; simpl; lia).
    replace (Z.to_nat _) with (String.length toolName)
      by (unfold Js.strlen in *; lia).
    unfold name. rewrite <- append_assoc. apply substring_suffix.
Qed.

(** ** Maps *)

Section MapFacts.
Context {V : Type}.
Implicit Types (m : JsMap.t V) (k : string) (v : V).

Lemma JsMap_get_set_eq k v m : JsMap.get k (JsMap.set k v m) = Some v.
Proof.
  induction m as [|[k' v'] m IH]; simpl.
  - case_decide; congruence.
  - case_decide; simpl; case_decide; congruence.
Qed.

Lemma JsMap_get_set_ne k k' v m :
  k <> k' -> JsMap.get k' (JsMap.set k v m) = JsMap.get k' m.
Proof.
  intros Hne. induction m as [|[k0 v0] m IH]; simpl.
  - case_decide; congruence.
  - case_decide; simpl; repeat case_decide; congruence.
Qed.

Lemma JsMap_get_delete_eq k m : JsMap.get k (JsMap.delete k m) = None.
Proof.
  induction m as [|[k' v'] m IH]; simpl; [reflexivity|].
  case_decide; simpl; [assumption|]. case_decide; congruence.
Qed.

Lemma JsMap_get_delete_ne k k' m :
  k <> k' -> JsMap.get k' (JsMap.delete k m) = JsMap.get k' m.
Proof.
  intros Hne. induction m as [|[k0 v0] m IH]; simpl; [reflexivity|].
  repeat (case_decide; simpl); congruence.
Qed.

Lemma JsMap_get_None_keys k m :
  JsMap.get k m = None <-> ~ In k (JsMap.keys m).
Proof.
  induction m as [|[k' v'] m IH]; simpl.
  - tauto.
  - case_decide; [split; [discriminate | tauto]|].
    rewrite IH. tauto.
Qed.

(** Deleting an absent key changes nothing. *)
Lemma JsMap_delete_absent k m :
  JsMap.get k m = None -> JsMap.delete k m = m.
Proof.
  induction m as [|[k' v'] m IH]; simpl; [reflexivity|].
  case_decide; [discriminate|]. intros Hk. now rewrite IH.
Qed.

Lemma JsMap_keys_set k v m :
  JsMap.keys (JsMap.set k v m)
  = if JsMap.has k m then JsMap.keys m else (JsMap.keys m ++ [k])%list.
Proof.
  unfold JsMap.has. induction m as [|[k' v'] m IH]; simpl; [reflexivity|].
  case_decide; simpl; [congruence|].
  rewrite IH. now destruct (JsMap.get k m).
Qed.

Lemma JsMap_wf_set k v m : JsMap.wf m -> JsMap.wf (JsMap.set k v m).
Proof.
  unfold JsMap.wf. rewrite JsMap_keys_set. intros Hm.
  unfold JsMap.has. destruct (JsMap.get k m) eqn:Hk; [assumption|].
  apply NoDup_app. split; [assumption|]. split.
  - intros x Hx Hx'. apply list_elem_of_singleton in Hx'. subst x.
    apply JsMap_get_None_keys in Hk. apply Hk.
    now apply list_elem_of_In.
  - apply NoDup_singleton.
Qed.

Lemma JsMap_keys_delete_incl k k' m :
  In k' (JsMap.keys (JsMap.delete k m)) -> In k' (JsMap.keys m).
Proof.
  induction m as [|[k0 v0] m IH]; simpl; [tauto|].
  case_decide; simpl; tauto.
Qed.

Lemma JsMap_wf_delete k m : JsMap.wf m -> JsMap.wf (JsMap.delete k m).
Proof.
  unfold JsMap.wf. induction m as [|[k0 v0] m IH]; simpl; [trivial|].
  rewrite !NoDup_cons. intros [Hk0 Hm].
  case_decide; simpl; [auto|].
  rewrite NoDup_cons. split; [|auto].
  rewrite list_elem_of_In in *. intros H'. apply Hk0.
  eapply JsMap_keys_delete_incl, H'.
Qed.

Lemma JsMap_wf_empty : JsMap.wf (@JsMap.empty V).
Proof. apply NoDup_nil_2. Qed.

End MapFacts.

(** ** The registry *)

(** The cases of the transport descriptor that [connectToServer] tells
    apart. *)
Ltac case_config config :=
  let ty := fresh "ty" in
  let sd := fresh "sd" in
  let ss := fresh "ss" in
  destruct config as [? [ty sd ss] ?]; simpl;
  destruct ty, sd, ss; simpl.

Section Registry.
Context {Json : Type} (E : @Env Json).
Implicit Types (st : @ClientState Json) (id : string).

Lemma make_transport_ok id config t st :
  transport_of config = Some t -> url_ok E t ->
  make_transport E id config st = (Ok t, st).
Proof.
  unfold transport_of, make_transport.
  case_config config; intros [= <-] Hurl; try reflexivity;
    simpl in Hurl; unfold bind; simpl; rewrite Hurl; reflexivity.
Qed.

Lemma make_transport_inv id config t st st' :
  make_transport E id config st = (Ok t, st') ->
  transport_of config = Some t /\ url_ok E t /\ st' = st.
Proof.
  unfold transport_of, make_transport.
  case_config config; unfold bind, ret, throw; simpl;
    try destruct (URL_parse E _) eqn:Hurl; simpl;
    intros [= <- <-]; repeat split; auto.
Qed.

Lemma make_transport_invalid id config st :
  transport_of config = None ->
  make_transport E id config st
  = (Throw (new_Error ("Invalid transport configuration for server "
                       ++ id)), st).
Proof.
  unfold transport_of, make_transport.
  case_config config; intros [=]; reflexivity.
Qed.

(** A connect whose descriptor is accepted and whose channel opens. *)
Lemma connectToServer_ok id config t st :
  transport_of config = Some t -> url_ok E t ->
  client_connect E (connect_trace id t st) (next_client id st) t = None ->
  connectToServer E id config st = (Ok tt, connected E id t st).
Proof.
  intros Ht Hurl Hconn.
  unfold connectToServer, try_catch, bind, new_Client. simpl.
  rewrite (make_transport_ok _ _ _ _ Ht Hurl). simpl.
  unfold connect_trace, next_client in Hconn. simpl in Hconn.
  rewrite Hconn. simpl.
  unfold discoverServerCapabilities, bind. simpl.
  rewrite JsMap_get_set_eq. simpl.
  unfold connected, snapshot_of, discovery_trace, connect_trace,
    next_client.
  rewrite <- !app_assoc. reflexivity.
Qed.

(** Every connect that returns went that way. *)
Lemma connectToServer_inv id config st st' :
  connectToServer E id config st = (Ok tt, st') ->
  exists t,
    transport_of config = Some t /\ url_ok E t
    /\ client_connect E (connect_trace id t st) (next_client id st) t = None
    /\ st' = connected E id t st.
Proof.
  intros Hrun.
  destruct (transport_of config) as [t|] eqn:Ht.
  - assert (Hurl : url_ok E t).
    { destruct t as [| url]; simpl; [exact I|].
      destruct (URL_parse E url) eqn:Hu; [|reflexivity]. exfalso.
      revert Hrun Ht.
      unfold transport_of, connectToServer, try_catch, bind, new_Client,
        make_transport.
      case_config config; simpl; intros Hrun [=]; subst; unfold bind in Hrun; simpl in Hrun;
        rewrite Hu in Hrun; discriminate. }
    exists t. repeat split; auto.
    + destruct (client_connect E (connect_trace id t st)
                  (next_client id st) t) eqn:Hc; [|reflexivity].
      exfalso. revert Hrun.
      unfold connectToServer, try_catch, bind, new_Client. simpl.
      rewrite (make_transport_ok _ _ _ _ Ht Hurl). simpl.
      unfold connect_trace, next_client in Hc. simpl in Hc.
      rewrite Hc. discriminate.
    + destruct (client_connect E (connect_trace id t st)
                  (next_client id st) t) eqn:Hc.
      * exfalso. revert Hrun.
        unfold connectToServer, try_catch, bind, new_Client. simpl.
        rewrite (make_transport_ok _ _ _ _ Ht Hurl). simpl.
        unfold connect_trace, next_client in Hc. simpl in Hc.
        rewrite Hc. discriminate.
      * rewrite (connectToServer_ok _ _ _ _ Ht Hurl Hc) in Hrun.
        congruence.
  - exfalso. revert Hrun.
    unfold connectToServer, try_catch, bind, new_Client. simpl.
    rewrite (make_transport_invalid _ _ _ Ht). discriminate.
Qed.

End Registry.

(** ** What the methods leave untouched *)

Section Frames.
Context {Json : Type} (E : @Env Json).
Implicit Types (st : @ClientState Json).

Lemma only_requests_refl st : only_requests st st.
Proof. repeat split. Qed.

Lemma only_requests_trans st1 st2 st3 :
  only_requests st1 st2 -> only_requests st2 st3 -> only_requests st1 st3.
Proof.
  unfold only_requests, same_registry.
  intros [(? & ? & ?) (? & ? & ?)] [(? & ? & ?) (? & ? & ?)].
  repeat split; congruence.
Qed.

Lemma callTool_frame serverName toolName args st :
  only_requests st (snd (callTool E serverName toolName args st)).
Proof.
  unfold callTool, bind, try_catch. simpl.
  destruct (JsMap.get serverName (clients st)); simpl;
    [|apply only_requests_refl].
  destruct (client_callTool E _ _ _ _); simpl; repeat split.
Qed.

Lemma readResource_frame serverName uri st :
  only_requests st (snd (readResource E serverName uri st)).
Proof.
  unfold readResource, bind, try_catch. simpl.
  destruct (JsMap.get serverName (clients st)); simpl;
    [|apply only_requests_refl].
  destruct (client_readResource E _ _ _); simpl; repeat split.
Qed.

Lemma getPrompt_frame serverName name args st :
  only_requests st (snd (getPrompt E serverName name args st)).
Proof.
  unfold getPrompt, bind, try_catch. simpl.
  destruct (JsMap.get serverName (clients st)); simpl;
    [|apply only_requests_refl].
  destruct (client_getPrompt E _ _ _ _); simpl; repeat split.
Qed.

Lemma ping_frame serverName st :
  only_requests st (snd (ping E serverName st)).
Proof.
  unfold ping, bind, try_catch. simpl.
  destruct (JsMap.get serverName (clients st)); simpl;
    [|apply only_requests_refl].
  destruct (client_ping E _ _); simpl; repeat split.
Qed.

Lemma create_frame messages allTools st :
  only_requests st (snd (create E messages allTools st)).
Proof.
  unfold create, bind. simpl.
  destruct (messages_create E _ _ _); simpl; repeat split.
Qed.

Lemma tool_use_frame allTools i name input l st :
  only_requests st (snd (tool_use E allTools i name input l st)).
Proof.
  unfold tool_use.
  pose proof (callTool_frame
                (Js.substring name 0 (Js.indexOf name "_"))
                (Js.substring_from name (Js.indexOf name "_" + 1))
                input st) as Hc.
  destruct (callTool E _ _ input st) as [[r|e] st1]; simpl in *;
    [|exact Hc].
  match goal with
  | |- context [create E ?m allTools st1] =>
      pose proof (create_frame m allTools st1) as Hm;
      destruct (create E m allTools st1) as [[r'|e'] st2]
  end; simpl in *; eapply only_requests_trans; eauto.
Qed.

Lemma process_content_frame allTools blocks l st :
  only_requests st (snd (process_content E allTools blocks l st)).
Proof.
  revert l st. induction blocks as [|b rest IH]; intros l st; simpl.
  - apply only_requests_refl.
  - destruct b as [t|i name input|]; try apply IH.
    unfold bind.
    pose proof (tool_use_frame allTools i name input
                  (push_assistantContent (ToolUse i name input) l) st)
      as Hu.
    destruct (tool_use E allTools i name input _ st) as [[l'|e] st1];
      simpl in *; [|exact Hu].
    eapply only_requests_trans; [exact Hu | apply IH].
Qed.

Lemma queryWithLLM_frame query preferredServer st :
  only_requests st (snd (queryWithLLM E query preferredServer st)).
Proof.
  unfold queryWithLLM, bind, try_catch. simpl.
  destruct (anthropic st); [|apply only_requests_refl].
  match goal with
  | |- context [create E ?m ?a st] =>
      pose proof (create_frame m a st) as Hm;
      destruct (create E m a st) as [[response|e] st1]
  end; simpl in *; [|exact Hm].
  match goal with
  | |- context [process_content E ?a response ?l st1] =>
      pose proof (process_content_frame a response l st1) as Hp;
      destruct (process_content E a response l st1) as [[l'|e] st2]
  end; simpl in *; eapply only_requests_trans; eauto.
Qed.

End Frames.

(** ** Connecting and disconnecting, whatever the outcome *)

Section Lifecycle.
Context {Json : Type} (E : @Env Json).
Implicit Types (st : @ClientState Json).

(** A connect that throws has created a [Client] object and nothing
    else: the registry is as before. *)
Lemma connectToServer_throw id config st e st' :
  connectToServer E id config st = (Throw e, st') ->
  same_registry st st'
  /\ anthropic st' = anthropic st
  /\ anthropicModel st' = anthropicModel st
  /\ created st' = S (created st).
Proof.
  unfold connectToServer, try_catch, bind, new_Client. simpl.
  match goal with
  | |- context [make_transport E id config ?s] =>
      destruct (make_transport E id config s) as [[t|e0] st0] eqn:Hmk
  end.
  - apply make_transport_inv in Hmk as (_ & _ & ->). simpl.
    destruct (client_connect E _ _ t); simpl.
    + intros [= <- <-]. repeat split.
    + unfold discoverServerCapabilities, bind. simpl.
      rewrite JsMap_get_set_eq. simpl. discriminate.
  - revert Hmk. unfold make_transport.
    case_config config; unfold bind, throw, ret; simpl;
      try destruct (URL_parse E _); simpl;
      intros [= <- <-]; intros [= <- <-]; repeat split.
Qed.

Lemma close_frame c st : only_requests st (snd (close E c st)).
Proof.
  unfold close, bind. simpl.
  destruct (client_close E _ _); simpl; repeat split.
Qed.

Lemma close_all_frame entries st :
  only_requests st (snd (close_all E entries st)).
Proof.
  revert st. induction entries as [|[k c] rest IH]; intros st; simpl.
  - apply only_requests_refl.
  - unfold bind. pose proof (close_frame c st) as Hc.
    destruct (close E c st) as [[[]|e] st1]; simpl in *; [|exact Hc].
    eapply only_requests_trans; [exact Hc | apply IH].
Qed.

(** What [disconnect] can do to the registry. *)
Lemma disconnect_cases serverName st :
  let st' := snd (disconnect E serverName st) in
  anthropic st' = anthropic st
  /\ created st' = created st
  /\ (same_registry st st'
      \/ (exists name,
            clients st' = JsMap.delete name (clients st)
            /\ serverInfos st' = JsMap.delete name (serverInfos st))
      \/ (clients st' = JsMap.empty /\ serverInfos st' = JsMap.empty)).
Proof.
  unfold disconnect.
  destruct (Js.truthy_opt serverName).
  - unfold disconnect_one, bind. simpl.
    destruct (JsMap.get (default "" serverName) (clients st)) as [c|];
      simpl; [|repeat split; left; repeat split].
    pose proof (close_frame c st) as Hc.
    destruct (close E c st) as [[[]|e] st1]; simpl in *;
      destruct Hc as [(Hc1 & Hc2 & Hc3) (Ha & Hm & Hn)].
    + repeat split; auto. right; left.
      exists (default "" serverName). now rewrite Hc1, Hc3.
    + repeat split; auto. left. repeat split; auto.
  - unfold disconnect_all, bind. simpl.
    pose proof (close_all_frame (clients st) st) as Hc.
    destruct (close_all E (clients st) st) as [[[]|e] st1]; simpl in *;
      destruct Hc as [(Hc1 & Hc2 & Hc3) (Ha & Hm & Hn)].
    + repeat split; auto.
    + repeat split; auto. left. repeat split; auto.
Qed.

Lemma JsMap_get_delete_Some {V} (k k' : string) (v : V) m :
  JsMap.get k' (JsMap.delete k m) = Some v -> JsMap.get k' m = Some v.
Proof.
  destruct (decide (k = k')) as [->|Hne].
  - now rewrite JsMap_get_delete_eq.
  - now rewrite JsMap_get_delete_ne.
Qed.

Lemma step_anthropic c st : anthropic (step E c st) = anthropic st.
Proof.
  destruct c as [n cfg|n t a|n u|n p a|q p|n|n]; simpl.
  - destruct (connectToServer E n cfg st) as [[[]|e] st'] eqn:Hc; simpl.
    + apply connectToServer_inv in Hc as (t & _ & _ & _ & ->).
      reflexivity.
    + now apply connectToServer_throw in Hc.
  - apply callTool_frame.
  - apply readResource_frame.
  - apply getPrompt_frame.
  - apply queryWithLLM_frame.
  - apply ping_frame.
  - apply disconnect_cases.
Qed.

Lemma run_anthropic calls st : anthropic (run E calls st) = anthropic st.
Proof.
  revert st. induction calls as [|c calls IH]; intros st.
  - reflexivity.
  - change (run E (c :: calls) st) with (run E calls (step E c st)).
    rewrite IH. apply step_anthropic.
Qed.

Lemma registry_ok_only_requests st st' :
  only_requests st st' -> registry_ok st -> registry_ok st'.
Proof.
  intros [(Hc & _ & Hi) (_ & _ & Hn)] (H1 & H2 & H3).
  unfold registry_ok. rewrite Hc, Hi, Hn. auto.
Qed.

Lemma step_registry_ok c st : registry_ok st -> registry_ok (step E c st).
Proof.
  intros Hok.
  destruct c as [n cfg|n t a|n u|n p a|q p|n|n]; simpl.
  - destruct Hok as (H1 & H2 & H3).
    destruct (connectToServer E n cfg st) as [[[]|e] st'] eqn:Hc; simpl.
    + apply connectToServer_inv in Hc as (t & _ & _ & _ & ->).
      unfold registry_ok, connected. simpl.
      split; [now apply JsMap_wf_set|].
      split; [now apply JsMap_wf_set|].
      intros k c. destruct (decide (n = k)) as [->|Hne].
      * rewrite JsMap_get_set_eq. intros [= <-]. simpl. lia.
      * rewrite JsMap_get_set_ne by assumption.
        intros Hk. apply H3 in Hk. lia.
    + apply connectToServer_throw in Hc
        as ((Hc1 & _ & Hc3) & _ & _ & Hn).
      unfold registry_ok. rewrite Hc1, Hc3, Hn.
      split; [assumption|]. split; [assumption|].
      intros k c Hk. apply H3 in Hk. lia.
  - eapply registry_ok_only_requests; [apply callTool_frame | exact Hok].
  - eapply registry_ok_only_requests;
      [apply readResource_frame | exact Hok].
  - eapply registry_ok_only_requests; [apply getPrompt_frame | exact Hok].
  - eapply registry_ok_only_requests;
      [apply queryWithLLM_frame | exact Hok].
  - eapply registry_ok_only_requests; [apply ping_frame | exact Hok].
  - destruct Hok as (H1 & H2 & H3).
    destruct (disconnect_cases n st) as (_ & Hn & Hcases).
    unfold registry_ok. rewrite Hn.
    destruct Hcases as [(Hc1 & _ & Hc3)|[(name & Hc1 & Hc3)|[Hc1 Hc3]]];
      rewrite Hc1, Hc3.
    + auto.
    + split; [now apply JsMap_wf_delete|].
      split; [now apply JsMap_wf_delete|].
      intros k c Hk. apply JsMap_get_delete_Some in Hk. eauto.
    + split; [apply JsMap_wf_empty|]. split; [apply JsMap_wf_empty|].
      intros k c. discriminate.
Qed.

(** The registry is well formed in every state a caller can reach. *)
Lemma run_registry_ok calls st :
  registry_ok st -> registry_ok (run E calls st).
Proof.
  revert st. induction calls as [|c calls IH]; intros st Hok.
  - exact Hok.
  - change (run E (c :: calls) st) with (run E calls (step E c st)).
    apply IH, step_registry_ok, Hok.
Qed.

Lemma constructor_registry_ok key model :
  registry_ok (@constructor Json key model).
Proof.
  unfold registry_ok, constructor. simpl.
  split; [apply JsMap_wf_empty|]. split; [apply JsMap_wf_empty|].
  intros k c. discriminate.
Qed.

End Lifecycle.

(** ** Claims about connecting *)

Section Connecting.
Context {Json : Type} (E : @Env Json).
Implicit Types (st : @ClientState Json) (id : string).

(** The one validation [connectToServer] performs: a descriptor whose
    section for the declared transport type is missing is refused, and
    the registry is left as it was. *)
Lemma connectToServer_invalid id config st :
  transport_of config = None ->
  exists st',
    connectToServer E id config st
    = (Throw (new_Error ("Invalid transport configuration for server "
                         ++ id)), st')
    /\ same_registry st st' /\ trace st' = trace st.
Proof.
  intros Hbad. eexists.
  unfold connectToServer, try_catch, bind, new_Client. simpl.
  rewrite (make_transport_invalid _ _ _ _ Hbad). simpl.
  split; [reflexivity|]. repeat split.
Qed.

(** C1 (amended): an identifier that contains the separator ["_"] is not
    refused.  With a well-formed descriptor whose channel opens, the
    connect returns normally and the identifier gets its handle, its
    transport and its snapshot in the three maps. *)
Theorem connect_accepts_separator id config t st :
  Js.indexOf id "_" <> -1 ->
  transport_of config = Some t ->
  url_ok E t ->
  client_connect E (connect_trace id t st) (next_client id st) t = None ->
  exists st',
    connectToServer E id config st = (Ok tt, st')
    /\ JsMap.get id (clients st') = Some (next_client id st)
    /\ JsMap.get id (transports st') = Some t
    /\ JsMap.get id (serverInfos st') = Some (snapshot_of E id t st).
Proof.
  intros _ Ht Hurl Hconn. exists (connected E id t st).
  split; [now apply connectToServer_ok|].
  unfold connected. simpl. now rewrite !JsMap_get_set_eq.
Qed.

(** C4: discovery is fault tolerant per capability.  Whenever the
    descriptor is well formed and the channel opens, the connect returns
    normally and stores a snapshot in which each of the three lists is
    what its own list call answered, or empty when that call failed,
    whatever the other two calls did.  In particular a server that lists
    tools and fails on resources gets a non-empty tool list and an empty
    resource list. *)
Theorem discovery_fault_tolerant id config t st :
  transport_of config = Some t ->
  url_ok E t ->
  client_connect E (connect_trace id t st) (next_client id st) t = None ->
  let c := next_client id st in
  let tr := discovery_trace id t st in
  exists st' info,
    connectToServer E id config st = (Ok tt, st')
    /\ getServerInfo id st' = Some info
    /\ (forall ts, client_listTools E tr c = Ok ts -> tools info = ts)
    /\ (forall e, client_listTools E tr c = Throw e -> tools info = [])
    /\ (forall rs, client_listResources E tr c = Ok rs ->
                   resources info = rs)
    /\ (forall e, client_listResources E tr c = Throw e ->
                  resources info = [])
    /\ (forall ps, client_listPrompts E tr c = Ok ps -> prompts info = ps)
    /\ (forall e, client_listPrompts E tr c = Throw e -> prompts info = [])
    /\ (forall ts e, client_listTools E tr c = Ok ts -> ts <> [] ->
                     client_listResources E tr c = Throw e ->
                     tools info <> [] /\ resources info = []).
Proof.
  intros Ht Hurl Hconn c tr.
  exists (connected E id t st), (snapshot_of E id t st).
  split; [now apply connectToServer_ok|].
  split.
  { unfold getServerInfo, connected. simpl. apply JsMap_get_set_eq. }
  unfold snapshot_of. fold c. fold tr. simpl.
  repeat split; intros; subst;
    repeat match goal with
           | H : _ = Ok _ |- _ => rewrite H
           | H : _ = Throw _ |- _ => rewrite H
           end; simpl; auto.
Qed.

(** C8 (amended): in any state a caller can reach, a successful connect
    to an identifier that already has a handle puts a newly created
    handle in its place, and issues no close at all: among the requests
    of that connect there is none to close the prior handle. *)
Theorem reconnect_replaces_without_close key model calls id config old st' :
  let st := run E calls (constructor key model) in
  JsMap.get id (clients st) = Some old ->
  connectToServer E id config st = (Ok tt, st') ->
  JsMap.get id (clients st') = Some (next_client id st)
  /\ next_client id st <> old
  /\ exists requests,
       trace st' = (trace st ++ requests)%list
       /\ count is_close requests = 0%nat.
Proof.
  intros st Hold Hrun.
  apply connectToServer_inv in Hrun as (t & _ & _ & _ & ->).
  split; [unfold connected; simpl; apply JsMap_get_set_eq|].
  split.
  - destruct (run_registry_ok E calls (constructor key model)
                (constructor_registry_ok key model)) as (_ & _ & Hfresh).
    apply Hfresh in Hold. fold st in Hold.
    intros <-. simpl in Hold. lia.
  - exists [EConnect (next_client id st) t;
            EListTools (next_client id st);
            EListResources (next_client id st);
            EListPrompts (next_client id st)].
    split; [|reflexivity].
    unfold connected, discovery_trace, connect_trace. simpl.
    now rewrite <- app_assoc.
Qed.

(** C9: right after a connect that returned normally, [getServerInfo]
    finds the snapshot that discovery stored and [isConnected] is true.
    Both are plain reads of the state: they are functions of it and
    issue no request. *)
Theorem connected_is_cached id config st st' :
  connectToServer E id config st = (Ok tt, st') ->
  (exists t, getServerInfo id st' = Some (snapshot_of E id t st))
  /\ isConnected id st' = true.
Proof.
  intros Hrun.
  apply connectToServer_inv in Hrun as (t & _ & _ & _ & ->).
  unfold getServerInfo, isConnected, JsMap.has, connected. simpl.
  rewrite !JsMap_get_set_eq. eauto.
Qed.

End Connecting.

(** A descriptor of type [stdio] without its [stdio] section is refused. *)
Lemma missing_section_is_refused :
  fst (connectToServer Demo.quiet "a" Demo.no_stdio_section Demo.fresh)
  = Throw (new_Error "Invalid transport configuration for server a")
  /\ clients (snd (connectToServer Demo.quiet "a" Demo.no_stdio_section
                     Demo.fresh)) = JsMap.empty.
Proof. split; vm_compute; reflexivity. Qed.

(** The identifier ["a_b"] contains the separator, and is connected and
    registered all the same. *)
Lemma separator_identifier_is_registered :
  Js.indexOf "a_b" "_" = 1
  /\ fst (connectToServer (Demo.world (Demo.asks_once "a_b_search"))
            "a_b" Demo.node_server Demo.fresh) = Ok tt
  /\ JsMap.get "a_b"
       (clients (snd (connectToServer
                        (Demo.world (Demo.asks_once "a_b_search"))
                        "a_b" Demo.node_server Demo.fresh)))
     = Some {| client_id := 0; client_name := "universal-client-a_b" |}.
Proof. repeat split. Qed.

Lemma connect_accepts_separator_witness :
  exists st',
    connectToServer (Demo.world (Demo.asks_once "a_b_search"))
      "a_b" Demo.node_server Demo.fresh = (Ok tt, st')
    /\ JsMap.get "a_b" (clients st')
       = Some (next_client "a_b" Demo.fresh)
    /\ JsMap.get "a_b" (transports st')
       = Some (StdioClientTransport "node" ["server.js"] None)
    /\ JsMap.get "a_b" (serverInfos st')
       = Some (snapshot_of (Demo.world (Demo.asks_once "a_b_search"))
                 "a_b" (StdioClientTransport "node" ["server.js"] None)
                 Demo.fresh).
Proof.
  apply (connect_accepts_separator
           (Demo.world (Demo.asks_once "a_b_search"))
           "a_b" Demo.node_server
           (StdioClientTransport "node" ["server.js"] None) Demo.fresh).
  - vm_compute. discriminate.
  - reflexivity.
  - exact I.
  - reflexivity.
Defined.

Lemma discovery_fault_tolerant_witness :
  exists st' info,
    connectToServer (Demo.world (Demo.asks_once "a_search"))
      "a" Demo.node_server Demo.fresh = (Ok tt, st')
    /\ getServerInfo "a" st' = Some info
    /\ tools info = [Demo.search]
    /\ resources info = [].
Proof.
  destruct (discovery_fault_tolerant
              (Demo.world (Demo.asks_once "a_search"))
              "a" Demo.node_server
              (StdioClientTransport "node" ["server.js"] None) Demo.fresh
              eq_refl I eq_refl)
    as (st' & info & Hrun & Hget & Htools & _ & _ & Hres & _).
  exists st', info.
  split; [exact Hrun|]. split; [exact Hget|].
  split.
  - apply Htools. reflexivity.
  - apply (Hres Demo.method_not_found). reflexivity.
Defined.

(** Connecting [a] a second time: the handle is replaced, and the first
    handle has not been closed. *)
Lemma reconnect_leaves_prior_open :
  JsMap.get "a" (clients Demo.connected_a) = Some Demo.client_a
  /\ fst (connectToServer Demo.quiet "a" Demo.node_server Demo.connected_a)
     = Ok tt
  /\ JsMap.get "a"
       (clients (snd (connectToServer Demo.quiet "a" Demo.node_server
                        Demo.connected_a)))
     = Some {| client_id := 1; client_name := "universal-client-a" |}
  /\ ~ In (EClose Demo.client_a)
         (trace (snd (connectToServer Demo.quiet "a" Demo.node_server
                        Demo.connected_a))).
Proof.
  split; [vm_compute; reflexivity|].
  split; [vm_compute; reflexivity|].
  split; [vm_compute; reflexivity|].
  vm_compute. intuition discriminate.
Qed.

Lemma reconnect_replaces_without_close_witness :
  JsMap.get "a"
    (clients (snd (connectToServer Demo.quiet "a" Demo.node_server
                     Demo.connected_a)))
  = Some (next_client "a" Demo.connected_a)
  /\ next_client "a" Demo.connected_a <> Demo.client_a
  /\ exists requests,
       trace (snd (connectToServer Demo.quiet "a" Demo.node_server
                     Demo.connected_a))
       = (trace Demo.connected_a ++ requests)%list
       /\ count is_close requests = 0%nat.
Proof.
  refine (reconnect_replaces_without_close Demo.quiet (Some "sk-demo") None
            [ConnectToServer "a" Demo.node_server] "a" Demo.node_server
            Demo.client_a
            (snd (connectToServer Demo.quiet "a" Demo.node_server
                    Demo.connected_a)) _ _).
  - vm_compute. reflexivity.
  - vm_compute. reflexivity.
Defined.

Lemma connected_is_cached_witness :
  (exists t,
     getServerInfo "a" Demo.connected_a
     = Some (snapshot_of Demo.quiet "a" t Demo.fresh))
  /\ isConnected "a" Demo.connected_a = true.
Proof.
  refine (connected_is_cached Demo.quiet "a" Demo.node_server Demo.fresh
            Demo.connected_a _).
  vm_compute. reflexivity.
Defined.

(** ** Claims about dispatch and disconnecting *)

Section Dispatch.
Context {Json : Type} (E : @Env Json).
Implicit Types (st : @ClientState Json) (id : string).

(** With no handle for [id], the three throwing dispatch methods fail
    before any request, and [ping] answers [false]. *)
Lemma dispatch_not_connected id st :
  JsMap.get id (clients st) = None ->
  (forall toolName args,
      callTool E id toolName args st = (Throw (not_connected id), st))
  /\ (forall uri,
        readResource E id uri st = (Throw (not_connected id), st))
  /\ (forall name args,
        getPrompt E id name args st = (Throw (not_connected id), st))
  /\ ping E id st = (Ok false, st).
Proof.
  intros Hnone.
  unfold callTool, readResource, getPrompt, ping, bind, get_state.
  rewrite Hnone. repeat split.
Qed.

(** A [disconnect(id)] that returned leaves no handle for [id]. *)
Lemma disconnect_removes id st st' :
  disconnect E (Some id) st = (Ok tt, st') ->
  JsMap.get id (clients st') = None
  /\ disconnect E (Some id) st' = (Ok tt, st').
Proof.
  unfold disconnect. simpl.
  destruct (Js.truthy id) eqn:Hid.
  - unfold disconnect_one, bind. simpl.
    destruct (JsMap.get id (clients st)) as [c|] eqn:Hc; simpl.
    + destruct (close E c st) as [[[]|e] st1]; simpl; [|discriminate].
      intros [= <-]. simpl. rewrite JsMap_get_delete_eq. auto.
    + intros [= <-]. rewrite Hc. auto.
  - unfold disconnect_all, bind. simpl.
    destruct (close_all E (clients st) st) as [[[]|e] st1]; simpl;
      [|discriminate].
    intros [= <-]. simpl. auto.
Qed.

(** C7 (amended): after a [disconnect(id)] that returned, a tool call,
    a resource read and a prompt fetch addressed to [id] throw the
    not-connected error and [ping(id)] returns [false] instead of
    throwing, all four without a request and without changing the state;
    a second [disconnect(id)] changes nothing, and neither does the
    disconnect of a non-empty identifier that has no handle. *)
Theorem disconnected_fails_fast id st :
  (forall st',
      disconnect E (Some id) st = (Ok tt, st') ->
      (forall toolName args,
          callTool E id toolName args st' = (Throw (not_connected id), st'))
      /\ (forall uri,
            readResource E id uri st' = (Throw (not_connected id), st'))
      /\ (forall name args,
            getPrompt E id name args st'
            = (Throw (not_connected id), st'))
      /\ ping E id st' = (Ok false, st')
      /\ disconnect E (Some id) st' = (Ok tt, st'))
  /\ (Js.truthy id = true ->
      JsMap.get id (clients st) = None ->
      disconnect E (Some id) st = (Ok tt, st)).
Proof.
  split.
  - intros st' Hd. apply disconnect_removes in Hd as [Hnone Hagain].
    destruct (dispatch_not_connected id st' Hnone) as (? & ? & ? & ?).
    auto.
  - intros Hid Hnone. unfold disconnect. simpl. rewrite Hid.
    unfold disconnect_one, bind. simpl. now rewrite Hnone.
Qed.

(** C6: a client built without a model credential ([undefined] or the
    empty string) has no model backend, whatever is called on it
    afterwards, and [queryWithLLM] then throws the configuration error at
    once: the state, and so the list of requests issued, is unchanged. *)
Theorem query_needs_model_backend key model calls query preferredServer :
  Js.truthy_opt key = false ->
  let st := run E calls (constructor key model) in
  queryWithLLM E query preferredServer st
  = (Throw (new_Error "Anthropic API key not configured"), st).
Proof.
  intros Hkey st.
  assert (Hnone : anthropic st = None).
  { unfold st. rewrite run_anthropic. unfold constructor. simpl.
    destruct key as [k|]; [|reflexivity].
    simpl in Hkey. now rewrite Hkey. }
  unfold queryWithLLM, bind, get_state. now rewrite Hnone.
Qed.

End Dispatch.

(** [ping] of a disconnected server does not fail: it returns [false]. *)
Lemma ping_after_disconnect_returns_false :
  disconnect Demo.quiet (Some "a") Demo.connected_a
  = (Ok tt, snd (disconnect Demo.quiet (Some "a") Demo.connected_a))
  /\ fst (ping Demo.quiet "a"
            (snd (disconnect Demo.quiet (Some "a") Demo.connected_a)))
     = Ok false.
Proof. split; vm_compute; reflexivity. Qed.

(** The empty string is falsy: [disconnect("")] is the disconnect of all
    servers. *)
Lemma disconnect_of_empty_identifier :
  JsMap.keys (clients Demo.connected_b_and_b_x) = ["b"; "b_x"]
  /\ disconnect Demo.picks_b_x (Some "") Demo.connected_b_and_b_x
     = disconnect Demo.picks_b_x None Demo.connected_b_and_b_x
  /\ clients (snd (disconnect Demo.picks_b_x (Some "")
                     Demo.connected_b_and_b_x)) = JsMap.empty.
Proof. by_evaluation. Qed.

Lemma disconnected_fails_fast_witness :
  callTool Demo.quiet "a" "search" "{}"
    (snd (disconnect Demo.quiet (Some "a") Demo.connected_a))
  = (Throw (not_connected "a"),
     snd (disconnect Demo.quiet (Some "a") Demo.connected_a))
  /\ disconnect Demo.quiet (Some "zz") Demo.connected_a
     = (Ok tt, Demo.connected_a).
Proof.
  destruct (disconnected_fails_fast Demo.quiet "a" Demo.connected_a)
    as [Hafter _].
  destruct (disconnected_fails_fast Demo.quiet "zz" Demo.connected_a)
    as [_ Hunknown].
  split.
  - apply Hafter. vm_compute. reflexivity.
  - apply Hunknown; vm_compute; reflexivity.
Defined.

Lemma query_needs_model_backend_witness :
  queryWithLLM Demo.quiet "find" None
    (run Demo.quiet [ConnectToServer "a" Demo.node_server]
       (constructor (Some "") None))
  = (Throw (new_Error "Anthropic API key not configured"),
     run Demo.quiet [ConnectToServer "a" Demo.node_server]
       (constructor (Some "") None)).
Proof.
  refine (query_needs_model_backend Demo.quiet (Some "") None
            [ConnectToServer "a" Demo.node_server] "find" None _).
  reflexivity.
Defined.

(** ** The conversation of [queryWithLLM] *)

Section Conversation.
Context {Json : Type} (E : @Env Json).
Implicit Types (st : @ClientState Json) (l : @Locals Json).

Lemma count_app {A} (p : A -> bool) (xs ys : list A) :
  count p (xs ++ ys)%list = (count p xs + count p ys)%nat.
Proof. induction xs as [|x xs IH]; simpl; [reflexivity | lia]. Qed.

(** [callTool] issues at most its own request, and none when it finds
    no handle. *)
Lemma callTool_trace serverName toolName args st :
  exists requests,
    trace (snd (callTool E serverName toolName args st))
    = (trace st ++ requests)%list
    /\ (requests = []
        \/ exists c, JsMap.get serverName (clients st) = Some c
                     /\ requests = [ECallTool c toolName args])
    /\ (forall r, fst (callTool E serverName toolName args st) = Ok r ->
                  count is_callTool requests = 1%nat).
Proof.
  unfold callTool, bind, try_catch. simpl.
  destruct (JsMap.get serverName (clients st)) as [c|]; simpl.
  - exists [ECallTool c toolName args].
    destruct (client_callTool E _ c toolName args); simpl;
      (split; [reflexivity|]); (split; [right; eauto|]); auto.
  - exists []. rewrite app_nil_r.
    split; [reflexivity|]. split; [now left|]. discriminate.
Qed.

Lemma create_trace messages allTools st :
  trace (snd (create E messages allTools st))
  = (trace st
     ++ [EMessagesCreate (anthropicModel st) 2000 messages allTools])%list.
Proof.
  unfold create, bind. simpl.
  now destruct (messages_create E _ messages allTools).
Qed.

Lemma followUp_texts_result bs l :
  exists grown,
    result (followUp_texts bs l) = result l ++ grown
    /\ followUpMessages (followUp_texts bs l) = followUpMessages l
    /\ assistantContent (followUp_texts bs l) = assistantContent l.
Proof.
  revert l. induction bs as [|b bs IH]; intros l; simpl.
  - exists "". now rewrite append_empty_r.
  - destruct b as [t|i name input|]; try apply IH.
    destruct (IH (add_result (t ++ Js.nl) l)) as (g & Hg & Hf & Ha).
    exists ((t ++ Js.nl) ++ g). rewrite Hg, Hf, Ha. simpl.
    now rewrite append_assoc.
Qed.

Lemma last_tool_result_follow_up ac fu i s :
  last_tool_result
    (map (@snapshot Json ac)
         ((fu ++ [FAssistant]) ++ [FToolResult i s])%list)
  = Some i.
Proof.
  unfold last_tool_result. rewrite map_app. simpl. now rewrite last_snoc.
Qed.

(** One invocation: it always yields the updated locals, only adds to
    the output, and issues at most one tool call followed by at most one
    model request, which ends with the result of this invocation. *)
Lemma tool_use_spec allTools i name input l st :
  exists l' st' grown requests,
    tool_use E allTools i name input l st = (Ok l', st')
    /\ result l' = result l ++ grown
    /\ trace st' = (trace st ++ requests)%list
    /\ Forall (follow_up_request allTools [ToolUse i name input]) requests
    /\ (count is_create requests <= count is_callTool requests)%nat
    /\ (count is_callTool requests <= 1)%nat.
Proof.
  unfold tool_use.
  set (serverName := Js.substring name 0 (Js.indexOf name "_")).
  set (toolName := Js.substring_from name (Js.indexOf name "_" + 1)).
  destruct (callTool_trace serverName toolName input st)
    as (reqs & Htr & Hreqs & Hok).
  destruct (callTool E serverName toolName input st) as [[r|e] st1];
    simpl in *.
  - specialize (Hok r eq_refl).
    set (l3 := push_followUp _ (push_followUp _ (add_result _ l))).
    pose proof (create_trace
                  (map (snapshot (assistantContent l3))
                       (followUpMessages l3)) allTools st1) as Hct.
    destruct Hreqs as [->|(c & _ & ->)]; [discriminate|].
    destruct (create E _ allTools st1) as [[bs|e] st2]; simpl in *.
    + destruct (followUp_texts_result bs l3) as (g & Hg & _ & _).
      do 4 eexists. split; [reflexivity|].
      split; [rewrite Hg; unfold l3; simpl; apply append_assoc|].
      split; [rewrite Hct, Htr, <- app_assoc; reflexivity|].
      split; [|simpl; lia].
      repeat constructor.
      exists i, name, input. split; [|now left].
      unfold l3. simpl. apply last_tool_result_follow_up.
    + do 4 eexists. split; [reflexivity|].
      split; [unfold l3; simpl; apply append_assoc|].
      split; [rewrite Hct, Htr, <- app_assoc; reflexivity|].
      split; [|simpl; lia].
      repeat constructor.
      exists i, name, input. split; [|now left].
      unfold l3. simpl. apply last_tool_result_follow_up.
  - do 4 eexists. split; [reflexivity|].
    split; [reflexivity|]. split; [exact Htr|].
    destruct Hreqs as [->|(c & _ & ->)]; simpl.
    + split; [constructor | lia].
    + split; [repeat constructor | lia].
Qed.

Lemma follow_up_request_mono allTools (bs bs' : list (@ContentBlock Json))
    e :
  (forall b, In b bs -> In b bs') ->
  follow_up_request allTools bs e -> follow_up_request allTools bs' e.
Proof.
  intros Hsub. destruct e; simpl; auto.
  intros (-> & i & name & input & Hl & Hin). split; [reflexivity|].
  exists i, name, input. auto.
Qed.

(** The loop over the first response: it always ends normally, only adds
    to the output, and what it issues are tool calls and their follow-up
    requests, at most one of each per invocation of that response. *)
Lemma process_content_spec allTools blocks l st :
  exists l' st' grown requests,
    process_content E allTools blocks l st = (Ok l', st')
    /\ result l' = result l ++ grown
    /\ trace st' = (trace st ++ requests)%list
    /\ Forall (follow_up_request allTools blocks) requests
    /\ (count is_create requests <= count is_callTool requests)%nat
    /\ (count is_callTool requests <= count is_tool_use blocks)%nat.
Proof.
  revert l st. induction blocks as [|b rest IH]; intros l st.
  - exists l, st, "", []. simpl.
    rewrite append_empty_r, app_nil_r. repeat split; auto.
  - destruct b as [t|i name input|]; simpl.
    + destruct (IH (push_assistantContent (Text t)
                      (add_result (t ++ Js.nl) l)) st)
        as (l' & st' & g & reqs & Hrun & Hres & Htr & Hall & Hc1 & Hc2).
      exists l', st', ((t ++ Js.nl) ++ g), reqs.
      split; [exact Hrun|].
      split; [rewrite Hres; simpl; apply append_assoc|].
      split; [exact Htr|].
      split; [|lia].
      eapply Forall_impl; [exact Hall|].
      intros e. apply follow_up_request_mono. intros b Hb. now right.
    + unfold bind.
      destruct (tool_use_spec allTools i name input
                  (push_assistantContent (ToolUse i name input) l) st)
        as (l1 & st1 & g1 & r1 & Hrun1 & Hres1 & Htr1 & Hall1 & Ha1 & Hb1).
      rewrite Hrun1.
      destruct (IH l1 st1)
        as (l' & st' & g & reqs & Hrun & Hres & Htr & Hall & Hc1 & Hc2).
      exists l', st', (g1 ++ g), (r1 ++ reqs)%list.
      split; [exact Hrun|].
      split; [rewrite Hres, Hres1; simpl; apply append_assoc|].
      split; [rewrite Htr, Htr1; apply eq_sym, app_assoc|].
      split; [|rewrite !count_app; lia].
      apply Forall_app_2.
      * eapply Forall_impl; [exact Hall1|].
        intros e. apply follow_up_request_mono.
        intros b [<-|[]]. now left.
      * eapply Forall_impl; [exact Hall|].
        intros e. apply follow_up_request_mono. intros b Hb. now right.
    + destruct (IH l st)
        as (l' & st' & g & reqs & Hrun & Hres & Htr & Hall & Hc1 & Hc2).
      exists l', st', g, reqs. repeat split; auto.
      eapply Forall_impl; [exact Hall|].
      intros e. apply follow_up_request_mono. intros b Hb. now right.
Qed.

(** Processing a response is processing its beginning, then its rest. *)
Lemma process_content_app allTools pre post l st :
  process_content E allTools (pre ++ post)%list l st
  = match process_content E allTools pre l st with
    | (Ok l1, st1) => process_content E allTools post l1 st1
    | (Throw e, st1) => (Throw e, st1)
    end.
Proof.
  revert l st. induction pre as [|b pre IH]; intros l st; simpl.
  - reflexivity.
  - destruct b as [t|i name input|]; try apply IH.
    unfold bind.
    destruct (tool_use E allTools i name input _ st) as [[l1|e] st1];
      [apply IH | reflexivity].
Qed.

(** The loop over a follow-up response appends its text, and nothing
    else. *)
Lemma followUp_texts_exact bs l :
  result (followUp_texts bs l) = result l ++ texts_of bs
  /\ followUpMessages (followUp_texts bs l) = followUpMessages l
  /\ assistantContent (followUp_texts bs l) = assistantContent l.
Proof.
  revert l. induction bs as [|b bs IH]; intros l; simpl.
  - now rewrite append_empty_r.
  - destruct b as [t| |]; try apply IH.
    destruct (IH (add_result (t ++ Js.nl) l)) as (Hres & Hfu & Hac).
    rewrite Hres, Hfu, Hac. simpl. now rewrite !append_assoc.
Qed.

(** The turns of the conversation are only ever added to. *)
Lemma tool_use_turns allTools i name input l st l' st' :
  tool_use E allTools i name input l st = (Ok l', st') ->
  exists more, followUpMessages l' = (followUpMessages l ++ more)%list.
Proof.
  unfold tool_use.
  destruct (callTool E _ _ input st) as [[r|e] st1].
  - destruct (create E _ allTools st1) as [[bs|e] st2]; intros [= <- _].
    + destruct (followUp_texts_exact bs
                  (push_followUp (FToolResult i (JSON_stringify E r))
                     (push_followUp FAssistant
                        (add_result (executed_text name) l))))
        as (_ & -> & _).
      simpl. rewrite <- app_assoc. eauto.
    + simpl. rewrite <- app_assoc. eauto.
  - intros [= <- _]. exists []. simpl. now rewrite app_nil_r.
Qed.

Lemma process_content_turns allTools blocks l st l' st' :
  process_content E allTools blocks l st = (Ok l', st') ->
  exists more, followUpMessages l' = (followUpMessages l ++ more)%list.
Proof.
  revert l st. induction blocks as [|b rest IH]; intros l st; simpl.
  - intros [= <- _]. exists []. now rewrite app_nil_r.
  - destruct b as [t|i name input|].
    + intros Hrun. apply IH in Hrun as (more & ->). simpl. eauto.
    + unfold bind.
      destruct (tool_use E allTools i name input _ st) as [[l1|e] st1] eqn:H1;
        [|discriminate].
      intros Hrun. apply IH in Hrun as (more & ->).
      apply tool_use_turns in H1 as (more1 & ->). simpl.
      rewrite <- app_assoc. eauto.
    + apply IH.
Qed.

End Conversation.

(** ** Claims about the tool list and the routing *)

Section Orchestrator.
Context {Json : Type} (E : @Env Json).
Implicit Types (st : @ClientState Json) (l : @Locals Json).

Lemma collect_tools_absent pref (infos : JsMap.t (@ServerInfo Json)) :
  Js.truthy pref = true ->
  ~ In pref (JsMap.keys infos) ->
  collect_tools (Some pref) infos = [].
Proof.
  intros Hp. induction infos as [|[k info] rest IH]; simpl; [reflexivity|].
  intros Hn. rewrite Hp. simpl.
  case_bool_decide; simpl; [tauto|]. apply IH. tauto.
Qed.

(** With a preferred server, the list is made of its tools alone. *)
Lemma collect_tools_preferred pref (infos : JsMap.t (@ServerInfo Json)) :
  Js.truthy pref = true ->
  JsMap.wf infos ->
  collect_tools (Some pref) infos
  = match JsMap.get pref infos with
    | Some info => map (qualified pref) (tools info)
    | None => []
    end.
Proof.
  intros Hp. unfold JsMap.wf.
  induction infos as [|[k info] rest IH]; simpl; [reflexivity|].
  rewrite NoDup_cons, list_elem_of_In. intros [Hk Hrest].
  rewrite Hp. simpl. case_bool_decide; case_decide; try congruence; simpl.
  - subst k. rewrite collect_tools_absent by assumption.
    apply app_nil_r.
  - now apply IH.
Qed.

(** Without one, every tool of every snapshot is in the list, under its
    qualified name. *)
Lemma collect_tools_all serverName info tool
    (infos : JsMap.t (@ServerInfo Json)) :
  In (serverName, info) infos ->
  In tool (tools info) ->
  In (qualified serverName tool) (collect_tools None infos).
Proof.
  intros Hin Htool. induction infos as [|[k i] rest IH]; simpl in *.
  - contradiction.
  - apply in_or_app. destruct Hin as [[= -> ->]|Hin].
    + left. now apply in_map.
    + right. now apply IH.
Qed.

Lemma append_cancel_r (a b c : string) : a ++ c = b ++ c -> a = b.
Proof.
  intros H. apply (f_equal String.rev) in H.
  rewrite !rev_append in H. apply String.app_inj in H.
  apply (f_equal String.rev) in H. now rewrite !rev_involutive in H.
Qed.

(** Two servers never share a qualified name for the same tool name. *)
Lemma qualified_distinct serverA serverB (toolA toolB : @Tool Json) :
  serverA <> serverB ->
  tool_name toolA = tool_name toolB ->
  llm_name (qualified serverA toolA) <> llm_name (qualified serverB toolB).
Proof.
  intros Hne Hname. simpl. rewrite Hname. intros H.
  apply Hne. eapply append_cancel_r, H.
Qed.

(** For a server whose name has no separator, the invocation of its
    qualified tool is dispatched to that server under the tool's own
    name. *)
Lemma tool_use_routes allTools i serverName (tool : @Tool Json) input l st :
  Js.indexOf serverName "_" = -1 ->
  tool_use E allTools i (llm_name (qualified serverName tool)) input l st
  = match callTool E serverName (tool_name tool) input st with
    | (Throw error, st1) =>
        (Ok (add_result
               (failed_text (llm_name (qualified serverName tool)) error)
               l), st1)
    | (Ok toolResult, st1) =>
        let l3 :=
          push_followUp (FToolResult i (JSON_stringify E toolResult))
            (push_followUp FAssistant
               (add_result
                  (executed_text (llm_name (qualified serverName tool)))
                  l)) in
        match create E (map (snapshot (assistantContent l3))
                            (followUpMessages l3)) allTools st1 with
        | (Throw error, st2) =>
            (Ok (add_result
                   (failed_text (llm_name (qualified serverName tool))
                      error) l3), st2)
        | (Ok followUpResponse, st2) =>
            (Ok (followUp_texts followUpResponse l3), st2)
        end
    end.
Proof.
  intros Hno. unfold tool_use.
  change (llm_name (qualified serverName tool))
    with (serverName ++ "_" ++ tool_name tool).
  pose proof (split_qualified serverName (tool_name tool) Hno) as Hsplit.
  cbv zeta in Hsplit. destruct Hsplit as [-> ->].
  reflexivity.
Qed.

(** Every model request of a query carries the list collected at its
    start. *)
Lemma queryWithLLM_requests query preferredServer st :
  exists requests,
    trace (snd (queryWithLLM E query preferredServer st))
    = (trace st ++ requests)%list
    /\ forall e tls,
         In e requests -> request_tools e = Some tls ->
         tls = collect_tools preferredServer (serverInfos st).
Proof.
  unfold queryWithLLM, bind, try_catch, get_state.
  destruct (anthropic st) as [key|]; simpl.
  2:{ exists []. rewrite app_nil_r. split; [reflexivity|]. now intros. }
  set (allTools := collect_tools preferredServer (serverInfos st)).
  set (messages := [{| role := user; content := StringContent query |}]).
  pose proof (create_trace E messages allTools st) as Hct.
  destruct (create E messages allTools st) as [[response|e] st0];
    simpl in *.
  - match goal with
    | |- context [process_content E allTools response ?l0 st0] =>
        destruct (process_content_spec E allTools response l0 st0)
          as (l' & st' & g & reqs & -> & _ & Htr & Hall & _)
    end. simpl.
    eexists. split; [rewrite Htr, Hct, <- app_assoc; reflexivity|].
    intros e tls [<-|Hin] Htls.
    + now injection Htls.
    + rewrite Forall_forall in Hall.
      apply list_elem_of_In, Hall in Hin.
      destruct e; try discriminate. simpl in *.
      destruct Hin as [-> _]. now injection Htls.
  - eexists. split; [rewrite Hct; reflexivity|].
    intros e' tls [<-|[]] Htls. now injection Htls.
Qed.

(** C10 (amended): in any state a caller can reach, a query whose
    preferred server is a non-empty string collects exactly the tools of
    that server's snapshot, qualified, and none when it has no snapshot;
    every model request of the query carries that list. *)
Theorem preferred_server_only key model calls query pref :
  Js.truthy pref = true ->
  let st := run E calls (constructor key model) in
  let offered :=
    match getServerInfo pref st with
    | Some info => map (qualified pref) (tools info)
    | None => []
    end in
  collect_tools (Some pref) (serverInfos st) = offered
  /\ exists requests,
       trace (snd (queryWithLLM E query (Some pref) st))
       = (trace st ++ requests)%list
       /\ forall e tls,
            In e requests -> request_tools e = Some tls -> tls = offered.
Proof.
  intros Hp st offered.
  assert (Hcollect : collect_tools (Some pref) (serverInfos st) = offered).
  { apply collect_tools_preferred; [assumption|].
    apply (run_registry_ok E calls (constructor key model)
             (constructor_registry_ok key model)). }
  split; [exact Hcollect|].
  destruct (queryWithLLM_requests query (Some pref) st)
    as (requests & Htr & Hall).
  exists requests. split; [exact Htr|].
  intros e tls Hin Htls. rewrite <- Hcollect. eauto.
Qed.

(** C3 (amended): a query whose first model request is answered makes one
    pass over the blocks of that first response and returns.  For every
    invocation of the first response whose dispatch succeeds, the tool
    call is followed at once by one more model request: it has the same
    tool list, and its conversation is the one so far (opened by the
    query) extended by the assistant turn and by the tool-result turn that
    carries the request id of the invocation and the result of the tool.
    Of the follow-up response only the text is appended to the answer:
    what is issued afterwards is bounded by the invocations that remain in
    the first response, so an invocation asked for in a follow-up response
    is not executed.  Over the whole query there is at most one tool call
    per invocation of the first response and at most one follow-up request
    per tool call, and every follow-up request ends with the tool-result
    turn of an invocation of the first response. *)
Theorem follow_up_is_one_round query preferredServer st key response :
  anthropic st = Some key ->
  let allTools := collect_tools preferredServer (serverInfos st) in
  let messages := [{| role := user; content := StringContent query |}] in
  let first := EMessagesCreate (anthropicModel st) 2000 messages allTools in
  messages_create E (trace st ++ [first])%list messages allTools
  = Ok response ->
  exists answer st' requests,
    queryWithLLM E query preferredServer st = (Ok answer, st')
    /\ trace st' = (trace st ++ first :: requests)%list
    /\ Forall (follow_up_request allTools response) requests
    /\ (count is_create requests <= count is_callTool requests)%nat
    /\ (count is_callTool requests <= count is_tool_use response)%nat
    /\ forall before i name input rest l1 st1 r st2,
         response = (before ++ ToolUse i name input :: rest)%list ->
         process_content E allTools before
           {| result := ""; followUpMessages := [FUser query];
              assistantContent := [] |} (after_request first st)
         = (Ok l1, st1) ->
         let serverName := Js.substring name 0 (Js.indexOf name "_") in
         let toolName := Js.substring_from name (Js.indexOf name "_" + 1) in
         callTool E serverName toolName input st1 = (Ok r, st2) ->
         let blocks := (assistantContent l1 ++ [ToolUse i name input])%list in
         let conversation :=
           (map (snapshot blocks) (followUpMessages l1)
            ++ [{| role := assistant; content := Blocks blocks |};
                {| role := user;
                   content := ToolResult i (JSON_stringify E r) |}])%list in
         let ask :=
           EMessagesCreate (anthropicModel st) 2000 conversation allTools in
         exists c earlier later grown,
           JsMap.get serverName (clients st) = Some c
           /\ trace st1 = (trace st ++ first :: earlier)%list
           /\ requests
              = (earlier ++ ECallTool c toolName input :: ask :: later)%list
           /\ head conversation
              = Some {| role := user; content := StringContent query |}
           /\ (count is_callTool later <= count is_tool_use rest)%nat
           /\ (count is_create later <= count is_callTool later)%nat
           /\ answer
              = Js.trim
                  (result l1 ++ executed_text name
                   ++ match messages_create E (trace st2 ++ [ask])%list
                              conversation allTools with
                      | Ok followUp => texts_of followUp
                      | Throw e => failed_text name e
                      end
                   ++ grown).
Proof.
  intros Hkey allTools messages first Hresp.
  unfold queryWithLLM, bind, try_catch, get_state. rewrite Hkey.
  fold allTools. fold messages.
  unfold create, bind, get_state, emit. cbn [trace anthropicModel].
  fold first. rewrite Hresp. cbn [of_result ret].
  change {| clients := clients st; transports := transports st;
            serverInfos := serverInfos st; anthropic := anthropic st;
            anthropicModel := anthropicModel st; created := created st;
            trace := (trace st ++ [first])%list |}
    with (after_request first st).
  set (st0 := after_request first st).
  set (l0 := {| result := ""; followUpMessages := [FUser query];
                assistantContent := [] |}).
  destruct (process_content_spec E allTools response l0 st0)
    as (l' & st' & g & reqs & Hrun & _ & Htr & Hall & Hc1 & Hc2).
  rewrite Hrun. cbn [ret].
  exists (Js.trim (result l')), st', reqs.
  split; [reflexivity|].
  assert (Htr0 : trace st' = (trace st ++ first :: reqs)%list).
  { rewrite Htr. unfold st0. cbn [after_request trace].
    now rewrite <- app_assoc. }
  split; [exact Htr0|]. do 3 (split; [assumption|]).
  intros before i name input rest l1 st1 r st2 -> Hbefore Hcall.
  set (serverName := Js.substring name 0 (Js.indexOf name "_")) in *.
  set (toolName := Js.substring_from name (Js.indexOf name "_" + 1)) in *.
  set (blocks := (assistantContent l1 ++ [ToolUse i name input])%list).
  set (conversation := (map (snapshot blocks) (followUpMessages l1) ++ _)%list).
  set (ask := EMessagesCreate (anthropicModel st) 2000 conversation allTools).
  rewrite process_content_app, Hbefore in Hrun.
  cbn [process_content] in Hrun. unfold bind in Hrun.
  unfold tool_use in Hrun. fold serverName toolName in Hrun.
  rewrite Hcall in Hrun.
  set (l3 := push_followUp _ (push_followUp _ (add_result _ _))) in Hrun.
  assert (Hconv : map (snapshot (assistantContent l3)) (followUpMessages l3)
                  = conversation).
  { unfold l3, conversation, blocks. simpl. rewrite !map_app. simpl.
    now rewrite <- app_assoc. }
  rewrite Hconv in Hrun.
  pose proof (process_content_frame E allTools before l0 st0) as Hf1.
  rewrite Hbefore in Hf1. cbn [snd] in Hf1.
  destruct Hf1 as ((Hcl1 & _ & _) & _ & Hm1 & _).
  pose proof (callTool_frame E serverName toolName input st1) as Hf2.
  rewrite Hcall in Hf2. cbn [snd] in Hf2. destruct Hf2 as (_ & _ & Hm2 & _).
  destruct (callTool_trace E serverName toolName input st1)
    as (creqs & Hctr & Hcr & Hok).
  rewrite Hcall in Hctr, Hok. cbn [fst snd] in Hctr, Hok.
  specialize (Hok r eq_refl).
  destruct Hcr as [->|(c & Hc & ->)]; [discriminate|].
  rewrite Hcl1 in Hc.
  destruct (process_content_spec E allTools before l0 st0)
    as (l1' & st1' & g1 & earlier & Hrun1 & _ & Htr1 & _).
  rewrite Hbefore in Hrun1. injection Hrun1 as <- <-.
  destruct (process_content_turns E allTools before l0 st0 l1 st1 Hbefore)
    as (more & Hturns).
  assert (Hhead : head conversation
                  = Some {| role := user; content := StringContent query |}).
  { unfold conversation. rewrite Hturns. reflexivity. }
  unfold create, bind, get_state, emit in Hrun.
  cbn [trace anthropicModel] in Hrun.
  rewrite Hm2, Hm1 in Hrun.
  change (anthropicModel st0) with (anthropicModel st) in Hrun.
  fold ask in Hrun.
  match type of Hrun with
  | context [of_result _ ?s] => set (st3 := s) in Hrun
  end.
  assert (Htr3 : trace st3
                 = (trace st ++ first
                    :: earlier ++ [ECallTool c toolName input; ask])%list).
  { unfold st3. cbn [trace]. rewrite Hctr, Htr1. unfold st0.
    cbn [after_request trace]. rewrite <- !app_assoc. reflexivity. }
  assert (Hres3 : result l3 = result l1 ++ executed_text name)
    by reflexivity.
  assert (Hrest : forall l3',
             process_content E allTools rest l3' st3 = (Ok l', st') ->
             exists later grown,
               reqs = (earlier ++ ECallTool c toolName input :: ask
                       :: later)%list
               /\ (count is_callTool later <= count is_tool_use rest)%nat
               /\ (count is_create later <= count is_callTool later)%nat
               /\ result l' = result l3' ++ grown).
  { intros l3' Hrun4.
    destruct (process_content_spec E allTools rest l3' st3)
      as (l4 & st4 & grown & later & Hrun4' & Hres4 & Htr4 & _ & Hc1' & Hc2').
    rewrite Hrun4 in Hrun4'. injection Hrun4' as <- <-.
    exists later, grown. split; [|auto].
    rewrite Htr3, Htr0 in Htr4.
    change (first :: earlier ++ [ECallTool c toolName input; ask])%list
      with ([first] ++ earlier ++ [ECallTool c toolName input; ask])%list
      in Htr4.
    change (first :: reqs)%list with ([first] ++ reqs)%list in Htr4.
    rewrite <- !app_assoc in Htr4.
    now do 2 apply app_inv_head in Htr4. }
  assert (Htr1' : trace st1 = (trace st ++ first :: earlier)%list).
  { rewrite Htr1. unfold st0. cbn [after_request trace].
    now rewrite <- app_assoc. }
  exists c, earlier.
  destruct (messages_create E (trace st2 ++ [ask])%list conversation
              allTools) as [followUp|e]; cbn [of_result ret throw] in Hrun.
  - destruct (Hrest _ Hrun) as (later & grown & Hreqs & Hb1 & Hb2 & Hres).
    exists later, grown. repeat (split; [assumption|]).
    rewrite Hres. f_equal.
    destruct (followUp_texts_exact followUp l3) as (-> & _ & _).
    rewrite Hres3. now rewrite !append_assoc.
  - destruct (Hrest _ Hrun) as (later & grown & Hreqs & Hb1 & Hb2 & Hres).
    exists later, grown. repeat (split; [assumption|]).
    rewrite Hres. f_equal. cbn [add_result result]. rewrite Hres3.
    now rewrite !append_assoc.
Qed.

End Orchestrator.

(** ** Claims about failed invocations *)

Section Failures.
Context {Json : Type} (E : @Env Json).
Implicit Types (st : @ClientState Json) (l : @Locals Json).

(** The text recorded for a failure, with its brackets in view. *)
Lemma failed_text_shape name e :
  failed_text name e
  = Js.nl ++ String "[" ((name ++ " failed: " ++ Error_toString e)
                         ++ String "]" Js.nl).
Proof. unfold failed_text. now rewrite !append_assoc. Qed.

(** Once recorded, a failure stays in the answer: [trim] and the text
    added later leave it in place. *)
Lemma failure_survives before name e after :
  let answer := Js.trim ((before ++ failed_text name e) ++ after) in
  answer <> ""
  /\ Js.includes answer
       ("[" ++ name ++ " failed: " ++ Error_toString e ++ "]").
Proof.
  intros answer. unfold answer. clear answer.
  rewrite failed_text_shape.
  replace ((before ++ Js.nl ++ String "[" ((name ++ " failed: "
              ++ Error_toString e) ++ String "]" Js.nl)) ++ after)
    with ((before ++ Js.nl) ++ String "[" ((name ++ " failed: "
              ++ Error_toString e) ++ String "]" (Js.nl ++ after)))
    by append_normal.
  destruct (trim_keeps (before ++ Js.nl) "["
              (name ++ " failed: " ++ Error_toString e) "]"
              (Js.nl ++ after) eq_refl eq_refl) as (pre' & post' & ->).
  split.
  - now destruct pre'.
  - exists pre', post'. append_normal.
Qed.

(** C5: when the dispatch of an invocation of the first response
    throws, the failure is appended to the output as text, the list of
    conversation turns is left as it was (no tool-result turn) and no
    request is issued beyond those of the dispatch itself (the model is
    not asked again); the loop goes on with the remaining segments, the
    query returns normally, and its answer is non-empty and contains
    the failure text. *)
Theorem failed_invocation_is_inline
    query preferredServer st key st0 before i name input rest l1 st1 e st2 :
  anthropic st = Some key ->
  let allTools := collect_tools preferredServer (serverInfos st) in
  let invocation := ToolUse i name input in
  create E [{| role := user; content := StringContent query |}] allTools st
  = (Ok (before ++ invocation :: rest)%list, st0) ->
  process_content E allTools before
    {| result := ""; followUpMessages := [FUser query];
       assistantContent := [] |} st0
  = (Ok l1, st1) ->
  callTool E (Js.substring name 0 (Js.indexOf name "_"))
    (Js.substring_from name (Js.indexOf name "_" + 1)) input st1
  = (Throw e, st2) ->
  let l2 := add_result (failed_text name e)
              (push_assistantContent invocation l1) in
  tool_use E allTools i name input (push_assistantContent invocation l1)
    st1 = (Ok l2, st2)
  /\ followUpMessages l2 = followUpMessages l1
  /\ exists l3 st3,
       process_content E allTools rest l2 st2 = (Ok l3, st3)
       /\ queryWithLLM E query preferredServer st
          = (Ok (Js.trim (result l3)), st3)
       /\ Js.trim (result l3) <> ""
       /\ Js.includes (Js.trim (result l3))
            ("[" ++ name ++ " failed: " ++ Error_toString e ++ "]").
Proof.
  intros Hkey allTools invocation Hfirst Hbefore Hcall l2.
  assert (Hstep : tool_use E allTools i name input
                    (push_assistantContent invocation l1) st1
                  = (Ok l2, st2)).
  { unfold tool_use. now rewrite Hcall. }
  split; [exact Hstep|]. split; [reflexivity|].
  destruct (process_content_spec E allTools rest l2 st2)
    as (l3 & st3 & g & reqs & Hrest & Hres & _).
  exists l3, st3. split; [exact Hrest|].
  split.
  - unfold queryWithLLM, bind, try_catch, get_state. rewrite Hkey.
    fold allTools. rewrite Hfirst.
    rewrite process_content_app, Hbefore.
    change (process_content E allTools (invocation :: rest) l1 st1)
      with (bind (tool_use E allTools i name input
                    (push_assistantContent invocation l1))
                 (fun l' => process_content E allTools rest l') st1).
    unfold bind. rewrite Hstep, Hrest. reflexivity.
  - rewrite Hres. unfold l2. simpl result.
    apply failure_survives.
Qed.

End Failures.

(** ** The claims on the example worlds *)

(** C2: servers [b] and [b_x] both expose [search].  The list offers
    [b_search] and [b_x_search]; the model picks [b_x_search]; the split at
    the first separator yields server [b] and tool [x_search], so the one
    tool call of the query goes to the handle of [b], and [b_x] is never
    called. *)
Theorem underscore_server_is_misrouted :
  map llm_name (collect_tools None (serverInfos Demo.connected_b_and_b_x))
  = ["b_search"; "b_x_search"]
  /\ Js.substring "b_x_search" 0 (Js.indexOf "b_x_search" "_") = "b"
  /\ Js.substring_from "b_x_search" (Js.indexOf "b_x_search" "_" + 1)
     = "x_search"
  /\ List.filter is_callTool
       (trace (snd (queryWithLLM Demo.picks_b_x "find" None
                      Demo.connected_b_and_b_x)))
     = [ECallTool Demo.client_b "x_search" "{}"]
  /\ JsMap.get "b_x" (clients Demo.connected_b_and_b_x)
     = Some Demo.client_b_x.
Proof. by_evaluation. Qed.

(** The model asks for [a_search] again in its follow-up response
    ([toolu_2]); the query returns with one tool call made, the one of
    [toolu_1]. *)
Lemma second_invocation_is_not_executed :
  fst (queryWithLLM Demo.insists "find" None Demo.connected_a)
  = Ok ("[a_search executed]" ++ Js.nl ++ "One more.")
  /\ Demo.asks_twice "a_search"
       [{| role := user; content := StringContent "find" |};
        {| role := assistant;
           content := Blocks [ToolUse "toolu_1" "a_search" "{}"] |};
        {| role := user;
           content := ToolResult "toolu_1" "hits from universal-client-a" |}]
     = [Text "One more."; ToolUse "toolu_2" "a_search" "{}"]
  /\ List.filter (fun e => is_callTool e || is_create e)
       (trace (snd (queryWithLLM Demo.insists "find" None Demo.connected_a)))
     = [EMessagesCreate "claude-3-5-sonnet-20241022" 2000
          [{| role := user; content := StringContent "find" |}]
          (collect_tools None (serverInfos Demo.connected_a));
        ECallTool Demo.client_a "search" "{}";
        EMessagesCreate "claude-3-5-sonnet-20241022" 2000
          [{| role := user; content := StringContent "find" |};
           {| role := assistant;
              content := Blocks [ToolUse "toolu_1" "a_search" "{}"] |};
           {| role := user;
              content :=
                ToolResult "toolu_1" "hits from universal-client-a" |}]
          (collect_tools None (serverInfos Demo.connected_a))].
Proof. by_evaluation. Qed.

Lemma follow_up_is_one_round_witness :
  exists answer st' requests c earlier ask later,
    queryWithLLM Demo.insists "find" None Demo.connected_a = (Ok answer, st')
    /\ requests = (earlier ++ ECallTool c "search" "{}" :: ask :: later)%list
    /\ (count is_callTool requests <= 1)%nat
    /\ (count is_callTool later <= 0)%nat.
Proof.
  destruct (follow_up_is_one_round Demo.insists "find" None
              Demo.connected_a "sk-demo"
              [ToolUse "toolu_1" "a_search" "{}"])
    as (answer & st' & requests & Hrun & _ & _ & _ & Hcalls & Hround).
  - vm_compute. reflexivity.
  - vm_compute. reflexivity.
  - destruct (Hround [] "toolu_1" "a_search" "{}" []
                {| result := ""; followUpMessages := [FUser "find"];
                   assistantContent := [] |}
                (snd (create Demo.insists
                        [{| role := user; content := StringContent "find" |}]
                        (collect_tools None (serverInfos Demo.connected_a))
                        Demo.connected_a))
                "hits from universal-client-a"
                (snd (callTool Demo.insists "a" "search" "{}"
                        (snd (create Demo.insists
                                [{| role := user;
                                    content := StringContent "find" |}]
                                (collect_tools None
                                   (serverInfos Demo.connected_a))
                                Demo.connected_a)))))
      as (c & earlier & later & grown & _ & _ & Hreqs & _ & Hlater & _).
    + reflexivity.
    + vm_compute. reflexivity.
    + vm_compute. reflexivity.
    + exists answer, st', requests, c, earlier. eexists. exists later.
      split; [exact Hrun|]. split; [exact Hreqs|]. split; assumption.
Defined.

(** With the empty string as preferred server, the tools of every server
    are offered. *)
Lemma empty_preferred_server_offers_all :
  getServerInfo "" Demo.connected_b_and_b_x = None
  /\ map llm_name
       (collect_tools (Some "") (serverInfos Demo.connected_b_and_b_x))
     = ["b_search"; "b_x_search"]
  /\ map (map llm_name)
       (omap request_tools
          (trace (snd (queryWithLLM Demo.picks_b_x "find" (Some "")
                         Demo.connected_b_and_b_x))))
     = [["b_search"; "b_x_search"]].
Proof. by_evaluation. Qed.

Lemma preferred_server_only_witness :
  collect_tools (Some "b_x")
    (serverInfos
       (run Demo.picks_b_x
          [ConnectToServer "b" Demo.node_server;
           ConnectToServer "b_x" Demo.node_server]
          (constructor (Some "sk-demo") None)))
  = [qualified "b_x" Demo.search].
Proof.
  pose proof (preferred_server_only Demo.picks_b_x (Some "sk-demo") None
                [ConnectToServer "b" Demo.node_server;
                 ConnectToServer "b_x" Demo.node_server] "find" "b_x"
                eq_refl) as Hthm.
  cbv zeta in Hthm. destruct Hthm as [Hoffered _].
  rewrite Hoffered. vm_compute. reflexivity.
Defined.

Lemma failed_invocation_is_inline_witness :
  exists answer st3,
    queryWithLLM Demo.picks_missing "find" None Demo.connected_a
    = (Ok answer, st3)
    /\ answer <> ""
    /\ Js.includes answer "[zz_search failed: Error: Server zz not connected]".
Proof.
  destruct (failed_invocation_is_inline Demo.picks_missing "find" None
              Demo.connected_a "sk-demo"
              (snd (create Demo.picks_missing
                      [{| role := user; content := StringContent "find" |}]
                      (collect_tools None (serverInfos Demo.connected_a))
                      Demo.connected_a))
              [Text "Let me look."] "toolu_1" "zz_search" "{}" []
              {| result := "Let me look." ++ Js.nl;
                 followUpMessages := [FUser "find"];
                 assistantContent := [Text "Let me look."] |}
              (snd (create Demo.picks_missing
                      [{| role := user; content := StringContent "find" |}]
                      (collect_tools None (serverInfos Demo.connected_a))
                      Demo.connected_a))
              (not_connected "zz")
              (snd (create Demo.picks_missing
                      [{| role := user; content := StringContent "find" |}]
                      (collect_tools None (serverInfos Demo.connected_a))
                      Demo.connected_a)))
    as (_ & _ & l3 & st3 & _ & Hrun & Hne & Hinc).
  - vm_compute. reflexivity.
  - vm_compute. reflexivity.
  - vm_compute. reflexivity.
  - vm_compute. reflexivity.
  - exists (Js.trim (result l3)), st3. auto.
Defined.

(** * Further properties *)

(** ** More on maps *)

Section MoreMapFacts.
Context {V W : Type}.

Lemma JsMap_has_same_keys k (m1 : JsMap.t V) (m2 : JsMap.t W) :
  JsMap.keys m1 = JsMap.keys m2 -> JsMap.has k m1 = JsMap.has k m2.
Proof.
  unfold JsMap.has. revert m2.
  induction m1 as [|[k1 v1] m1 IH]; intros [|[k2 v2] m2]; simpl;
    try discriminate; [reflexivity|].
  intros [= -> Hkeys]. case_decide; [reflexivity | now apply IH].
Qed.

Lemma JsMap_set_same_keys k v w (m1 : JsMap.t V) (m2 : JsMap.t W) :
  JsMap.keys m1 = JsMap.keys m2 ->
  JsMap.keys (JsMap.set k v m1) = JsMap.keys (JsMap.set k w m2).
Proof.
  intros Hkeys. rewrite !JsMap_keys_set.
  rewrite (JsMap_has_same_keys k m1 m2 Hkeys), Hkeys. reflexivity.
Qed.

Lemma JsMap_delete_same_keys k (m1 : JsMap.t V) (m2 : JsMap.t W) :
  JsMap.keys m1 = JsMap.keys m2 ->
  JsMap.keys (JsMap.delete k m1) = JsMap.keys (JsMap.delete k m2).
Proof.
  revert m2.
  induction m1 as [|[k1 v1] m1 IH]; intros [|[k2 v2] m2]; simpl;
    try discriminate; [reflexivity|].
  intros [= -> Hkeys]. case_decide; simpl; [|f_equal]; now apply IH.
Qed.

Lemma JsMap_has_true k (m : JsMap.t V) :
  JsMap.has k m = true <-> In k (JsMap.keys m).
Proof.
  unfold JsMap.has. pose proof (JsMap_get_None_keys k m) as Hnone.
  destruct (JsMap.get k m); split; intros H; try reflexivity;
    try discriminate.
  - destruct (in_dec string_dec k (JsMap.keys m)) as [Hin|Hnot];
      [exact Hin|]. apply Hnone in Hnot. discriminate.
  - exfalso. now apply Hnone.
Qed.

Lemma JsMap_get_In k v (m : JsMap.t V) :
  JsMap.get k m = Some v -> In (k, v) m.
Proof.
  induction m as [|[k' v'] m IH]; simpl; [discriminate|].
  case_decide; [intros [= ->]; subst; now left | right; auto].
Qed.

Lemma JsMap_In_get k v (m : JsMap.t V) :
  JsMap.wf m -> In (k, v) m -> JsMap.get k m = Some v.
Proof.
  unfold JsMap.wf. induction m as [|[k' v'] m IH]; simpl; [tauto|].
  rewrite NoDup_cons, list_elem_of_In. intros [Hk Hm] [[= -> ->]|Hin].
  - case_decide; congruence.
  - case_decide; [|auto]. subst k'. exfalso. apply Hk.
    apply (in_map fst) in Hin. exact Hin.
Qed.

End MoreMapFacts.

(** ** The life cycle, in full *)

Section LifecycleSpec.
Context {Json : Type} (E : @Env Json).
Implicit Types (st : @ClientState Json).

(** What [disconnect(name)] does for a non-empty name. *)
Lemma disconnect_one_spec name st :
  disconnect_one E name st
  = match JsMap.get name (clients st) with
    | None => (Ok tt, st)
    | Some c =>
        match client_close E (trace (closing c st)) c with
        | None => (Ok tt, without name (closing c st))
        | Some e => (Throw e, closing c st)
        end
    end.
Proof.
  unfold disconnect_one, bind, get_state.
  destruct (JsMap.get name (clients st)) as [c|]; [|reflexivity].
  unfold close, bind, emit, get_state, closing. simpl.
  destruct (client_close E _ c); reflexivity.
Qed.

(** The closing loop when nothing fails. *)
Lemma close_all_ok entries st :
  (forall tr c, In c (map snd entries) -> client_close E tr c = None) ->
  close_all E entries st
  = (Ok tt,
     {| clients := clients st; transports := transports st;
        serverInfos := serverInfos st; anthropic := anthropic st;
        anthropicModel := anthropicModel st; created := created st;
        trace := (trace st ++ map EClose (map snd entries))%list |}).
Proof.
  revert st. induction entries as [|[k c] rest IH]; intros st Hok; simpl.
  - rewrite app_nil_r. now destruct st.
  - unfold close, emit, get_state, bind. simpl.
    rewrite (Hok _ c) by now left. simpl.
    rewrite IH by (intros; apply Hok; now right). simpl.
    now rewrite <- app_assoc.
Qed.

(** The closing loop when it throws: it has closed a non-empty beginning
    of the handles and stopped there. *)
Lemma close_all_throw entries st e st' :
  close_all E entries st = (Throw e, st') ->
  only_requests st st'
  /\ exists k,
       (k < length entries)%nat
       /\ trace st'
          = (trace st ++ map EClose (firstn (S k) (map snd entries)))%list.
Proof.
  revert st. induction entries as [|[key c] rest IH]; intros st; simpl.
  - discriminate.
  - unfold bind. pose proof (close_frame E c st) as Hframe.
    assert (Htr : trace (snd (close E c st))
                  = (trace st ++ [EClose c])%list).
    { unfold close, bind, emit, get_state. simpl.
      now destruct (client_close E _ c). }
    destruct (close E c st) as [[[]|e0] st1]; simpl in *.
    + intros Hrest. apply IH in Hrest as [Hf (k & Hk & Hk')].
      split; [eapply only_requests_trans; eauto|].
      exists (S k). split; [lia|].
      rewrite Hk', Htr, <- app_assoc. reflexivity.
    + intros [= <- <-]. split; [exact Hframe|].
      exists 0%nat. split; [lia|]. rewrite Htr. reflexivity.
Qed.

Lemma registry_coherent_same st st' :
  same_registry st st' -> registry_coherent st -> registry_coherent st'.
Proof.
  intros (Hc & Ht & Hi). unfold registry_coherent.
  rewrite Hc, Ht, Hi. auto.
Qed.

Lemma without_coherent name st :
  registry_coherent st -> registry_coherent (without name st).
Proof.
  intros (Ht & Hi & Hn & Hc & Hd). unfold registry_coherent, without.
  cbn [clients transports serverInfos].
  split; [now apply JsMap_delete_same_keys|].
  split; [now apply JsMap_delete_same_keys|].
  split; [intros id info Hg; apply JsMap_get_delete_Some in Hg; eauto|].
  split; [intros id c Hg; apply JsMap_get_delete_Some in Hg; eauto|].
  intros id1 id2 c1 c2 H1 H2.
  apply JsMap_get_delete_Some in H1, H2. eauto.
Qed.

Lemma connected_coherent id t st :
  registry_ok st -> registry_coherent st ->
  registry_coherent (connected E id t st).
Proof.
  intros (_ & _ & Hfresh) (Ht & Hi & Hn & Hc & Hd).
  unfold registry_coherent, connected.
  cbn [clients transports serverInfos].
  split; [now apply JsMap_set_same_keys|].
  split; [now apply JsMap_set_same_keys|].
  split.
  { intros id' info. destruct (decide (id = id')) as [<-|Hne].
    - rewrite JsMap_get_set_eq. now intros [= <-].
    - rewrite JsMap_get_set_ne by assumption. auto. }
  split.
  { intros id' c. destruct (decide (id = id')) as [<-|Hne].
    - rewrite JsMap_get_set_eq. now intros [= <-].
    - rewrite JsMap_get_set_ne by assumption. auto. }
  intros id1 id2 c1 c2.
  destruct (decide (id = id1)) as [<-|Hne1];
    destruct (decide (id = id2)) as [<-|Hne2];
    rewrite ?JsMap_get_set_eq;
    rewrite ?(JsMap_get_set_ne id id1) by assumption;
    rewrite ?(JsMap_get_set_ne id id2) by assumption; auto.
  - intros [= <-] H2 Heq. cbn in Heq. apply Hfresh in H2. lia.
  - intros H1 [= <-] Heq. cbn in Heq. apply Hfresh in H1. lia.
  - eauto.
Qed.

Lemma disconnect_coherent serverName st :
  registry_coherent st ->
  registry_coherent (snd (disconnect E serverName st)).
Proof.
  intros Hco. unfold disconnect.
  destruct (Js.truthy_opt serverName).
  - rewrite disconnect_one_spec.
    destruct (JsMap.get _ (clients st)) as [c|]; [|exact Hco].
    destruct (client_close E _ c); simpl.
    + eapply registry_coherent_same; [|exact Hco]. repeat split.
    + apply without_coherent.
      eapply registry_coherent_same; [|exact Hco]. repeat split.
  - unfold disconnect_all, bind, get_state.
    pose proof (close_all_frame E (clients st) st) as Hf.
    destruct (close_all E (clients st) st) as [[[]|e] st1]; simpl in *.
    + unfold registry_coherent. simpl. repeat split; discriminate.
    + eapply registry_coherent_same; [apply Hf | exact Hco].
Qed.

Lemma step_coherent c st :
  registry_ok st -> registry_coherent st -> registry_coherent (step E c st).
Proof.
  intros Hok Hco.
  destruct c as [n cfg|n t a|n u|n p a|q p|n|n]; simpl.
  - destruct (connectToServer E n cfg st) as [[[]|e] st'] eqn:Hc; simpl.
    + apply connectToServer_inv in Hc as (t & _ & _ & _ & ->).
      now apply connected_coherent.
    + apply connectToServer_throw in Hc as (Hsame & _).
      eapply registry_coherent_same; eauto.
  - eapply registry_coherent_same; [apply callTool_frame | exact Hco].
  - eapply registry_coherent_same; [apply readResource_frame | exact Hco].
  - eapply registry_coherent_same; [apply getPrompt_frame | exact Hco].
  - eapply registry_coherent_same; [apply queryWithLLM_frame | exact Hco].
  - eapply registry_coherent_same; [apply ping_frame | exact Hco].
  - now apply disconnect_coherent.
Qed.

(** Both invariants hold in every state a caller can reach. *)
Lemma run_coherent calls key model :
  registry_ok (run E calls (constructor key model))
  /\ registry_coherent (run E calls (constructor key model)).
Proof.
  assert (Hgen : forall st,
             registry_ok st -> registry_coherent st ->
             registry_ok (run E calls st)
             /\ registry_coherent (run E calls st)).
  { induction calls as [|c calls IH]; intros st Hok Hco; [auto|].
    change (run E (c :: calls) st) with (run E calls (step E c st)).
    apply IH; [now apply step_registry_ok | now apply step_coherent]. }
  apply Hgen; [apply constructor_registry_ok|].
  unfold registry_coherent, constructor. simpl.
  repeat split; discriminate.
Qed.

End LifecycleSpec.

(** ** The registry, as its callers see it *)

Section RegistryExtras.
Context {Json : Type} (E : @Env Json).
Implicit Types (st : @ClientState Json) (id : string).

(** *** The connect phase *)

Lemma make_transport_state id config st :
  snd (make_transport E id config st) = st.
Proof.
  unfold make_transport.
  case_config config; unfold bind, throw, ret; simpl;
    try destruct (URL_parse E _); reflexivity.
Qed.

(** The steps of a connect, taken one after the other with nothing in
    between, are [connectToServer]. *)
Lemma connect_alone_is_connectToServer id config st :
  connect_alone E id config st = connectToServer E id config st.
Proof.
  unfold connect_alone, connect_begin, connectToServer, resume.
  unfold try_catch, bind, new_Client. cbn [fst snd].
  match goal with
  | |- context [make_transport E id config ?s] =>
      pose proof (make_transport_state id config s) as Hst;
      destruct (make_transport E id config s) as [[t|e0] st0]
  end; cbn [snd] in Hst; subst st0; [|reflexivity].
  unfold emit, get_state, ret. cbn [trace].
  destruct (client_connect E _ _ t); cbn [of_unit_result throw ret];
    [reflexivity|].
  unfold set_clients, set_transports, discover_begin,
    discoverServerCapabilities, bind, get_state. cbn [clients].
  rewrite JsMap_get_set_eq. reflexivity.
Qed.

Lemma JsMap_keys_set_In {V} k k' (v : V) (m : JsMap.t V) :
  In k' (JsMap.keys (JsMap.set k v m)) <-> k' = k \/ In k' (JsMap.keys m).
Proof.
  rewrite JsMap_keys_set.
  destruct (JsMap.has k m) eqn:Hhas.
  - apply JsMap_has_true in Hhas. split; [auto|].
    intros [->|Hin]; assumption.
  - rewrite in_app_iff. simpl. split.
    + intros [Hin|[<-|[]]]; auto.
    + intros [->|Hin]; auto.
Qed.

Lemma JsMap_keys_delete_In {V} k k' (m : JsMap.t V) :
  In k' (JsMap.keys (JsMap.delete k m)) <-> k' <> k /\ In k' (JsMap.keys m).
Proof.
  induction m as [|[k0 v0] m IH]; simpl.
  - tauto.
  - case_decide; simpl; rewrite IH; split.
    + tauto.
    + intros (Hne & [<-|Hin]); [congruence | auto].
    + intros [<-|(Hne & Hin)]; [split; [congruence | auto] | auto].
    + intros (Hne & [<-|Hin]); auto.
Qed.

(** Up to the first [await] a callback registers nothing, and what it
    leaves waiting waits for its channel. *)
Lemma begin_all_spec servers names st :
  same_registry st (snd (begin_all E servers names st))
  /\ forall id c, ~ In (Discovering id c) (fst (begin_all E servers names st)).
Proof.
  revert st. induction names as [|name names IH]; intros st.
  - simpl. repeat split. intros id c [].
  - cbn [begin_all].
    assert (Htask : same_registry st (snd (begin_task E servers name st))
                    /\ forall id c,
                         ~ In (Discovering id c)
                             (fst (begin_task E servers name st))).
    { unfold begin_task.
      destruct (JsObject.get name servers) as [cfg|];
        [|simpl; repeat split; intros id c []].
      unfold connect_begin, try_catch, bind, new_Client. cbn [fst snd].
      match goal with
      | |- context [make_transport E name cfg ?s] =>
          pose proof (make_transport_state name cfg s) as Hst;
          destruct (make_transport E name cfg s) as [[t|e0] st0]
      end; cbn [snd] in Hst; subst st0; simpl.
      - repeat split. intros id c [[=]|[]].
      - repeat split. intros id c []. }
    destruct (begin_task E servers name st) as [p st1].
    cbn [fst snd] in Htask. destruct Htask as ((Hc & Ht & Hi) & Hp).
    specialize (IH st1).
    destruct (begin_all E servers names st1) as [ps st2].
    cbn [fst snd] in *. destruct IH as ((Hc' & Ht' & Hi') & Hps).
    split; [repeat split; congruence|].
    intros id c Hin. apply in_app_iff in Hin as [Hin|Hin];
      [eapply Hp | eapply Hps]; eauto.
Qed.

Lemma in_middle {A} (x p : A) (k : nat) (l mid : list A) :
  l !! k = Some p ->
  In x (take k l ++ mid ++ drop (S k) l)%list
  <-> In x mid \/ (In x (take k l) \/ In x (drop (S k) l)).
Proof. intros _. rewrite !in_app_iff. tauto. Qed.

Lemma in_around {A} (x p : A) (k : nat) (l : list A) :
  l !! k = Some p ->
  In x l <-> x = p \/ (In x (take k l) \/ In x (drop (S k) l)).
Proof.
  intros Hk. rewrite <- (take_drop_middle l k p Hk) at 1.
  rewrite in_app_iff. simpl. intuition congruence.
Qed.

(** A step of a waiting callback keeps the registry in order. *)
Lemma resume_startup_ok pending k p st :
  pending !! k = Some p ->
  startup_ok pending st ->
  startup_ok
    (take k pending ++ continuation (fst (resume E p st))
     ++ drop (S k) pending)%list
    (snd (resume E p st)).
Proof.
  intros Hk (Hwc & Hwi & Ht & Hic & Hci & Hd).
  assert (Hkeep : forall id c,
             In (Discovering id c) pending ->
             Discovering id c <> p ->
             forall mid,
               In (Discovering id c)
                 (take k pending ++ mid ++ drop (S k) pending)%list).
  { intros id c Hin Hne mid. rewrite (in_middle _ p) by exact Hk.
    apply (in_around _ p k) in Hin; [|exact Hk]. tauto. }
  assert (Hback : forall x,
             In x (take k pending ++ drop (S k) pending)%list ->
             In x pending).
  { intros x Hin. apply (in_around x p k); [exact Hk|].
    apply in_app_iff in Hin. tauto. }
  destruct p as [name client transport|name client]; cbn [resume].
  - unfold try_catch, bind, get_state. cbn [fst snd].
    destruct (client_connect E (trace st) client transport);
      cbn [of_unit_result throw ret fst snd continuation app].
    + repeat (split; [assumption|]). split.
      * intros id Hin. destruct (Hci id Hin) as [?|(c & Hc)]; [auto|].
        right. exists c. exact (Hkeep id c Hc ltac:(discriminate) []).
      * intros id c Hin. apply Hback in Hin. eauto.
    + unfold set_clients, set_transports, discover_begin, bind, get_state.
      cbn [fst snd clients]. rewrite JsMap_get_set_eq.
      unfold emit, bind, ret. cbn [fst snd continuation].
      unfold startup_ok. cbn [clients transports serverInfos].
      split; [now apply JsMap_wf_set|]. split; [assumption|].
      split; [now apply JsMap_set_same_keys|].
      split.
      { intros id Hin. apply JsMap_keys_set_In. right. auto. }
      split.
      { intros id Hin. apply JsMap_keys_set_In in Hin as [->|Hin].
        - right. exists client.
          apply (in_middle _ _ _ _ [Discovering name client] Hk).
          left. now left.
        - destruct (Hci id Hin) as [?|(c & Hc)]; [auto|].
          right. exists c.
          exact (Hkeep id c Hc ltac:(discriminate)
                   [Discovering name client]). }
      intros id c Hin. apply JsMap_keys_set_In.
      apply (in_middle _ _ _ _ [Discovering name client] Hk) in Hin.
      destruct Hin as [[[= -> ->]|[]]|Hin]; [now left|].
      right. apply (Hd id c). apply Hback. apply in_app_iff. exact Hin.
  - unfold bind, get_state, set_serverInfos, ret.
    cbn [fst snd continuation app]. unfold startup_ok.
    cbn [clients transports serverInfos].
    assert (Hname : In name (JsMap.keys (clients st))).
    { apply (Hd name client). apply (in_around _ _ k _ Hk). now left. }
    split; [assumption|]. split; [now apply JsMap_wf_set|].
    split; [assumption|].
    split.
    { intros id Hin. apply JsMap_keys_set_In in Hin as [->|Hin]; auto. }
    split.
    { intros id Hin. destruct (decide (id = name)) as [->|Hne].
      - left. apply JsMap_keys_set_In. now left.
      - destruct (Hci id Hin) as [?|(c & Hc)].
        + left. apply JsMap_keys_set_In. now right.
        + right. exists c. exact (Hkeep id c Hc ltac:(congruence) []). }
    intros id c Hin. apply (Hd id c). now apply Hback.
Qed.

Lemma settle_startup_ok schedule pending st :
  startup_ok pending st ->
  startup_ok (fst (settle E schedule pending st))
    (snd (settle E schedule pending st)).
Proof.
  revert pending st. induction schedule as [|k rest IH]; intros pending st Hok.
  - exact Hok.
  - cbn [settle]. destruct (pending !! k) as [p|] eqn:Hk; [|now apply IH].
    pose proof (resume_startup_ok pending k p st Hk Hok) as Hstep.
    destruct (resume E p st) as [r st1]. now apply IH.
Qed.

Lemma connect_all_startup_ok servers schedule key model :
  startup_ok
    (fst (connect_all E servers schedule (constructor key model)))
    (snd (connect_all E servers schedule (constructor key model))).
Proof.
  unfold connect_all.
  destruct (begin_all_spec servers (JsObject.keys servers)
              (constructor key model)) as ((Hc & Ht & Hi) & Hp).
  destruct (begin_all E servers (JsObject.keys servers)
              (constructor key model)) as [pending st1].
  cbn [fst snd] in *. apply settle_startup_ok.
  unfold startup_ok. rewrite Hc, Ht, Hi. cbn.
  repeat split; try constructor; try tauto;
    try (intros id c Hin; now apply Hp in Hin).
Qed.

Lemma registry_agrees_same st st' :
  same_registry st st' -> registry_agrees st -> registry_agrees st'.
Proof.
  intros (Hc & Ht & Hi). unfold registry_agrees.
  rewrite Hc, Ht, Hi. auto.
Qed.

Lemma without_agrees name st :
  registry_agrees st -> registry_agrees (without name st).
Proof.
  intros (Hwc & Hwi & Ht & Hi). unfold registry_agrees, without.
  cbn [clients transports serverInfos].
  split; [now apply JsMap_wf_delete|]. split; [now apply JsMap_wf_delete|].
  split; [now apply JsMap_delete_same_keys|].
  intros id. rewrite !JsMap_keys_delete_In, Hi. tauto.
Qed.

Lemma step_agrees c st : registry_agrees st -> registry_agrees (step E c st).
Proof.
  intros Hag.
  destruct c as [n cfg|n t a|n u|n p a|q p|n|n]; simpl.
  - destruct (connectToServer E n cfg st) as [[[]|e] st'] eqn:Hc; simpl.
    + apply connectToServer_inv in Hc as (t & _ & _ & _ & ->).
      destruct Hag as (Hwc & Hwi & Ht & Hi).
      unfold registry_agrees, connected. cbn [clients transports serverInfos].
      split; [now apply JsMap_wf_set|]. split; [now apply JsMap_wf_set|].
      split; [now apply JsMap_set_same_keys|].
      intros id. rewrite !JsMap_keys_set_In, Hi. tauto.
    + apply connectToServer_throw in Hc as (Hsame & _).
      eapply registry_agrees_same; eauto.
  - eapply registry_agrees_same; [apply callTool_frame | exact Hag].
  - eapply registry_agrees_same; [apply readResource_frame | exact Hag].
  - eapply registry_agrees_same; [apply getPrompt_frame | exact Hag].
  - eapply registry_agrees_same; [apply queryWithLLM_frame | exact Hag].
  - eapply registry_agrees_same; [apply ping_frame | exact Hag].
  - unfold disconnect. destruct (Js.truthy_opt n).
    + rewrite disconnect_one_spec.
      destruct (JsMap.get _ (clients st)) as [c|]; [|exact Hag].
      destruct (client_close E _ c); simpl.
      * eapply registry_agrees_same; [|exact Hag]. repeat split.
      * apply without_agrees.
        eapply registry_agrees_same; [|exact Hag]. repeat split.
    + unfold disconnect_all, bind, get_state.
      pose proof (close_all_frame E (clients st) st) as Hf.
      destruct (close_all E (clients st) st) as [[[]|e] st1]; simpl in *.
      * unfold registry_agrees. simpl. repeat split; try constructor; tauto.
      * eapply registry_agrees_same; [apply Hf | exact Hag].
Qed.

Lemma run_agrees calls st :
  registry_agrees st -> registry_agrees (run E calls st).
Proof.
  revert st. induction calls as [|c calls IH]; intros st Hag; [exact Hag|].
  change (run E (c :: calls) st) with (run E calls (step E c st)).
  apply IH. now apply step_agrees.
Qed.

(** X1: the connects of the configured servers are started together and
    go on in the order of the answers; once none of them waits, and after
    any calls of the methods from then on, the three maps are about the
    same identifiers, each once: [clients] and [transports] in the same
    order, [serverInfos] possibly in another; so an identifier is connected
    exactly when it has a snapshot. *)
Theorem registry_maps_agree key model servers schedule calls :
  let started := connect_all E servers schedule (constructor key model) in
  fst started = [] ->
  let st := run E calls (snd started) in
  JsMap.keys (transports st) = getConnectedServers st
  /\ Permutation (JsMap.keys (serverInfos st)) (getConnectedServers st)
  /\ NoDup (getConnectedServers st)
  /\ forall id,
       isConnected id st = true <-> exists info, getServerInfo id st = Some info.
Proof.
  intros started Hdone st.
  pose proof (connect_all_startup_ok servers schedule key model) as Hok.
  fold started in Hok. rewrite Hdone in Hok.
  destruct Hok as (Hwc & Hwi & Ht & Hic & Hci & _).
  assert (Hag : registry_agrees st).
  { apply run_agrees. repeat split; auto.
    intros Hin. destruct (Hci _ Hin) as [?|(c & [])]. assumption. }
  destruct Hag as (Hwc' & Hwi' & Ht' & Hi').
  unfold getConnectedServers.
  split; [exact Ht'|].
  split.
  { apply NoDup_Permutation; [exact Hwi' | exact Hwc' |].
    intros id. rewrite !list_elem_of_In. apply Hi'. }
  split; [exact Hwc'|].
  intros id. unfold isConnected, getServerInfo.
  rewrite JsMap_has_true, <- Hi'.
  destruct (JsMap.get id (serverInfos st)) as [info|] eqn:Hget.
  - split; [eauto|]. intros _.
    destruct (in_dec string_dec id (JsMap.keys (serverInfos st)))
      as [Hin|Hnin]; [exact Hin|].
    apply JsMap_get_None_keys in Hnin. congruence.
  - apply JsMap_get_None_keys in Hget. split; [tauto | intros [info [=]]].
Qed.

(** X2: in every state a caller can reach, a snapshot found under an
    identifier has that identifier as its name. *)
Theorem snapshot_has_its_identifier key model calls id info :
  let st := run E calls (constructor key model) in
  getServerInfo id st = Some info ->
  info_name info = id.
Proof.
  intros st Hget.
  destruct (run_coherent E calls key model) as [_ (_ & _ & Hn & _)].
  eauto.
Qed.

(** X3: in every state a caller can reach, two different identifiers never
    hold the same [Client] object. *)
Theorem handles_are_not_shared key model calls id1 id2 c1 c2 :
  let st := run E calls (constructor key model) in
  JsMap.get id1 (clients st) = Some c1 ->
  JsMap.get id2 (clients st) = Some c2 ->
  id1 <> id2 ->
  client_id c1 <> client_id c2.
Proof.
  intros st H1 H2 Hne Heq.
  destruct (run_coherent E calls key model) as [_ (_ & _ & _ & _ & Hd)].
  apply Hne. eapply Hd; eauto.
Qed.

(** X4: a connect that throws leaves the three maps as they were (an
    identifier that was registered keeps its handle and its snapshot) and
    has issued no list request.  What it throws is the descriptor error,
    the error of the URL constructor, or the error of the channel, as it
    came. *)
Theorem failed_connect_changes_nothing id config st e st' :
  connectToServer E id config st = (Throw e, st') ->
  same_registry st st'
  /\ ((transport_of config = None
       /\ e = new_Error ("Invalid transport configuration for server " ++ id)
       /\ trace st' = trace st)
      \/ (exists url,
            transport_of config = Some (SSEClientTransport url)
            /\ URL_parse E url = Some e
            /\ trace st' = trace st)
      \/ (exists t,
            transport_of config = Some t
            /\ client_connect E (connect_trace id t st) (next_client id st) t
               = Some e
            /\ trace st' = connect_trace id t st)).
Proof.
  intros Hrun.
  split; [now apply connectToServer_throw in Hrun|].
  revert Hrun.
  unfold connectToServer, try_catch, bind, new_Client, get_state, emit.
  cbn [fst snd].
  destruct (transport_of config) as [t|] eqn:Ht.
  - destruct t as [cmd args env|url].
    + rewrite (make_transport_ok E id config _ _ Ht I).
      cbn [clients transports serverInfos anthropic anthropicModel created
           trace].
      fold (next_client id st).
      fold (connect_trace id (StdioClientTransport cmd args env) st).
      destruct (client_connect E _ _ _) as [e0|] eqn:Hc;
        cbn [of_unit_result throw ret].
      * intros [= <- <-]. right; right. eauto.
      * unfold set_clients, set_transports, discoverServerCapabilities,
          bind, get_state. cbn [clients]. rewrite JsMap_get_set_eq.
        discriminate.
    + destruct (URL_parse E url) as [e0|] eqn:Hu.
      * revert Ht. unfold transport_of, make_transport.
        case_config config; intros [=]; subst.
        unfold bind. cbn. rewrite Hu. cbn.
        intros [= <- <-]. right; left. eauto.
        unfold bind. cbn. rewrite Hu. cbn.
        intros [= <- <-]. right; left. eauto.
      * rewrite (make_transport_ok E id config _ _ Ht Hu).
        cbn [clients transports serverInfos anthropic anthropicModel created
             trace].
        fold (next_client id st).
        fold (connect_trace id (SSEClientTransport url) st).
        destruct (client_connect E _ _ _) as [e0|] eqn:Hc;
          cbn [of_unit_result throw ret].
        -- intros [= <- <-]. right; right. eauto.
        -- unfold set_clients, set_transports, discoverServerCapabilities,
             bind, get_state. cbn [clients]. rewrite JsMap_get_set_eq.
           discriminate.
  - rewrite (make_transport_invalid E id config _ Ht).
    intros [= <- <-]. left. auto.
Qed.

(** X5: a connect that returns keeps the order of the connected servers:
    an identifier that was connected stays where it was, a new one goes to
    the end; the entries of every other identifier are untouched. *)
Theorem connect_keeps_registration_order id config st st' :
  connectToServer E id config st = (Ok tt, st') ->
  getConnectedServers st'
  = (if isConnected id st then getConnectedServers st
     else getConnectedServers st ++ [id])%list
  /\ forall id',
       id' <> id ->
       JsMap.get id' (clients st') = JsMap.get id' (clients st)
       /\ JsMap.get id' (transports st') = JsMap.get id' (transports st)
       /\ getServerInfo id' st' = getServerInfo id' st.
Proof.
  intros Hrun. apply connectToServer_inv in Hrun as (t & _ & _ & _ & ->).
  unfold getConnectedServers, isConnected, getServerInfo, connected.
  cbn [clients transports serverInfos].
  split; [apply JsMap_keys_set|].
  intros id' Hne. rewrite !JsMap_get_set_ne by congruence. auto.
Qed.

(** X6: in every state a caller can reach, [disconnect(id)] for a
    non-empty [id] touches no other identifier, whatever its outcome.
    When it returns, [id] is in none of the maps.  When closing the handle
    throws, that error is thrown on and the three maps are as before:
    [id] stays registered. *)
Theorem disconnect_is_local key model calls id :
  Js.truthy id = true ->
  let st := run E calls (constructor key model) in
  let outcome := disconnect E (Some id) st in
  (forall id',
      id' <> id ->
      JsMap.get id' (clients (snd outcome)) = JsMap.get id' (clients st)
      /\ JsMap.get id' (transports (snd outcome))
         = JsMap.get id' (transports st)
      /\ getServerInfo id' (snd outcome) = getServerInfo id' st)
  /\ (fst outcome = Ok tt ->
      JsMap.get id (clients (snd outcome)) = None
      /\ JsMap.get id (transports (snd outcome)) = None
      /\ getServerInfo id (snd outcome) = None)
  /\ (forall e,
        fst outcome = Throw e ->
        same_registry st (snd outcome)
        /\ exists c,
             JsMap.get id (clients st) = Some c
             /\ client_close E (trace st ++ [EClose c])%list c = Some e
             /\ trace (snd outcome) = (trace st ++ [EClose c])%list).
Proof.
  intros Hid st outcome.
  destruct (run_coherent E calls key model) as [_ (Ht & Hi & _)].
  fold st in Ht, Hi.
  unfold outcome, disconnect. cbn [Js.truthy_opt].
  rewrite Hid. change (default "" (Some id)) with id.
  rewrite disconnect_one_spec.
  destruct (JsMap.get id (clients st)) as [c|] eqn:Hc.
  - change (trace (closing c st)) with (trace st ++ [EClose c])%list.
    destruct (client_close E (trace st ++ [EClose c])%list c) as [e0|]
      eqn:Hclose; cbn [fst snd].
    + split; [intros; repeat split|].
      split; [discriminate|].
      intros e [= <-]. split; [repeat split|]. eauto.
    + unfold getServerInfo, without. cbn [clients transports serverInfos].
      split.
      { intros id' Hne. rewrite !JsMap_get_delete_ne by congruence. auto. }
      split; [intros _; now rewrite !JsMap_get_delete_eq|discriminate].
  - cbn [fst snd]. split; [auto|]. split; [|discriminate].
    intros _. split; [exact Hc|].
    unfold getServerInfo.
    apply JsMap_get_None_keys in Hc.
    split; apply JsMap_get_None_keys; congruence.
Qed.

(** X7: when no close fails, disconnecting all (no argument, or the empty
    string) closes every registered handle once, oldest first, and leaves
    the three maps empty. *)
Theorem disconnect_all_closes_each_handle serverName st :
  Js.truthy_opt serverName = false ->
  (forall tr c, In c (handles st) -> client_close E tr c = None) ->
  disconnect E serverName st
  = (Ok tt, cleared (map EClose (handles st)) st).
Proof.
  intros Hfalsy Hok. unfold disconnect. rewrite Hfalsy.
  unfold disconnect_all, bind, get_state.
  rewrite (close_all_ok E (clients st) st Hok). reflexivity.
Qed.

(** The loop of disconnect-all throws exactly when a close fails: the
    error is the one of the first close that fails, the closes up to that
    one are out and no other, and nothing else has changed. *)
Lemma close_all_fails entries st e st' :
  close_all E entries st = (Throw e, st')
  <-> exists k c,
        map snd entries !! k = Some c
        /\ client_close E
             (trace st ++ map EClose (firstn (S k) (map snd entries)))%list c
           = Some e
        /\ (forall j c',
              (j < k)%nat -> map snd entries !! j = Some c' ->
              client_close E
                (trace st ++ map EClose (firstn (S j) (map snd entries)))%list
                c' = None)
        /\ st' = after_requests
                   (map EClose (firstn (S k) (map snd entries))) st.
Proof.
  revert st. induction entries as [|[key c0] rest IH]; intros st.
  - simpl. split; [discriminate|]. intros (k & c & Hk & _). discriminate.
  - cbn [close_all]. unfold bind at 1.
    unfold close, emit, get_state, bind. cbn [trace].
    destruct (client_close E (trace st ++ [EClose c0])%list c0) as [e0|]
      eqn:Hc0; cbn [of_unit_result throw ret].
    + split.
      * intros [= <- <-]. exists 0%nat, c0. split; [reflexivity|].
        split; [exact Hc0|]. split; [intros j c' Hj; lia | reflexivity].
      * intros (k & c & Hk & He & Hbefore & ->). destruct k as [|k].
        -- injection Hk as <-. simpl in He. rewrite Hc0 in He.
           injection He as <-. reflexivity.
        -- specialize (Hbefore 0%nat c0 ltac:(lia) eq_refl). simpl in Hbefore.
           congruence.
    + rewrite IH. cbn [trace]. split.
      * intros (k & c & Hk & He & Hbefore & ->).
        exists (S k), c. split; [exact Hk|].
        split; [simpl; rewrite <- app_assoc in He; exact He|].
        split.
        -- intros [|j] c' Hj Hc'.
           ++ injection Hc' as <-. exact Hc0.
           ++ simpl. specialize (Hbefore j c' ltac:(lia) Hc').
              rewrite <- app_assoc in Hbefore. exact Hbefore.
        -- unfold after_requests. simpl. now rewrite <- app_assoc.
      * intros (k & c & Hk & He & Hbefore & ->). destruct k as [|k].
        -- injection Hk as <-. simpl in He. congruence.
        -- exists k, c. split; [exact Hk|].
           split; [simpl in He; rewrite <- app_assoc; exact He|].
           split.
           ++ intros j c' Hj Hc'.
              specialize (Hbefore (S j) c' ltac:(lia) Hc'). simpl in Hbefore.
              rewrite <- app_assoc. exact Hbefore.
           ++ unfold after_requests. simpl. now rewrite <- app_assoc.
Qed.

(** X8: disconnecting all throws exactly when a close fails.  The error
    thrown is the one of the first close that fails; the handles up to
    that one have been asked to close, oldest first, and the handles after
    it have not; the three maps are as before: every server stays
    registered, the ones already closed included. *)
Theorem failed_disconnect_all_keeps_registry serverName st e st' :
  Js.truthy_opt serverName = false ->
  disconnect E serverName st = (Throw e, st')
  <-> exists k c,
        handles st !! k = Some c
        /\ close_answer E k c st = Some e
        /\ (forall j c',
              (j < k)%nat -> handles st !! j = Some c' ->
              close_answer E j c' st = None)
        /\ st' = after_requests (closes_up_to k st) st.
Proof.
  intros Hfalsy. unfold disconnect. rewrite Hfalsy.
  unfold close_answer, closes_up_to, handles.
  rewrite <- (close_all_fails (clients st) st e st').
  unfold disconnect_all, bind, get_state.
  destruct (close_all E (clients st) st) as [[[]|e0] st1].
  - split; discriminate.
  - reflexivity.
Qed.

End RegistryExtras.

(** Started together, [a] and [b] can end up registered in one order and
    described in the other. *)
Lemma snapshots_can_be_out_of_order :
  fst Examples.started_ab = []
  /\ getConnectedServers (snd Examples.started_ab) = ["a"; "b"]
  /\ JsMap.keys (transports (snd Examples.started_ab)) = ["a"; "b"]
  /\ JsMap.keys (serverInfos (snd Examples.started_ab)) = ["b"; "a"].
Proof. by_evaluation. Qed.

Lemma registry_maps_agree_witness :
  Permutation
    (JsMap.keys
       (serverInfos
          (run Examples.b_stuck [Disconnect (Some "c")]
             (snd (connect_all Examples.b_stuck Examples.two_servers
                     Examples.b_lists_first
                     (constructor (Some "sk-demo") None))))))
    (getConnectedServers
       (run Examples.b_stuck [Disconnect (Some "c")]
          (snd (connect_all Examples.b_stuck Examples.two_servers
                  Examples.b_lists_first
                  (constructor (Some "sk-demo") None))))).
Proof.
  pose proof (registry_maps_agree Examples.b_stuck (Some "sk-demo") None
                Examples.two_servers Examples.b_lists_first
                [Disconnect (Some "c")]) as Hthm.
  cbv zeta in Hthm.
  destruct Hthm as (_ & Hperm & _); [vm_compute; reflexivity|].
  exact Hperm.
Defined.

Lemma snapshot_has_its_identifier_witness :
  info_name
    {| info_name := "b"; tools := [Demo.search]; resources := [];
       prompts := [] |} = "b".
Proof.
  refine (snapshot_has_its_identifier Examples.b_stuck (Some "sk-demo") None
            Examples.three_servers "b" _ _).
  vm_compute. reflexivity.
Defined.

Lemma handles_are_not_shared_witness :
  client_id Examples.client_a <> client_id Examples.client_c.
Proof.
  refine (handles_are_not_shared Examples.b_stuck (Some "sk-demo") None
            Examples.three_servers "a" "c" _ _ _ _ _).
  - vm_compute. reflexivity.
  - vm_compute. reflexivity.
  - discriminate.
Defined.

Lemma failed_connect_changes_nothing_witness :
  same_registry Examples.connected_abc
    (snd (connectToServer Examples.b_down "b" Demo.node_server
            Examples.connected_abc)).
Proof.
  refine (proj1 (failed_connect_changes_nothing Examples.b_down "b"
                   Demo.node_server Examples.connected_abc
                   Examples.connection_refused _ _)).
  vm_compute. reflexivity.
Defined.

Lemma connect_keeps_registration_order_witness :
  getConnectedServers
    (snd (connectToServer Examples.b_stuck "a" Demo.node_server
            Examples.connected_abc))
  = ["a"; "b"; "c"].
Proof.
  pose proof (connect_keeps_registration_order Examples.b_stuck "a"
                Demo.node_server Examples.connected_abc
                (snd (connectToServer Examples.b_stuck "a" Demo.node_server
                        Examples.connected_abc))) as Hthm.
  destruct Hthm as [Horder _]; [vm_compute; reflexivity|].
  rewrite Horder. vm_compute. reflexivity.
Defined.

Lemma disconnect_is_local_witness :
  fst (disconnect Examples.b_stuck (Some "b")
         (run Examples.b_stuck Examples.three_servers
            (constructor (Some "sk-demo") None)))
  = Throw Examples.connection_refused
  /\ same_registry
       (run Examples.b_stuck Examples.three_servers
          (constructor (Some "sk-demo") None))
       (snd (disconnect Examples.b_stuck (Some "b")
               (run Examples.b_stuck Examples.three_servers
                  (constructor (Some "sk-demo") None)))).
Proof.
  pose proof (disconnect_is_local Examples.b_stuck (Some "sk-demo") None
                Examples.three_servers "b" eq_refl) as Hthm.
  cbv zeta in Hthm. destruct Hthm as (_ & _ & Hthrow).
  assert (Hfst : fst (disconnect Examples.b_stuck (Some "b")
                        (run Examples.b_stuck Examples.three_servers
                           (constructor (Some "sk-demo") None)))
                 = Throw Examples.connection_refused)
    by (vm_compute; reflexivity).
  split; [exact Hfst|]. exact (proj1 (Hthrow _ Hfst)).
Defined.

Lemma disconnect_all_closes_each_handle_witness :
  disconnect Demo.quiet None Examples.connected_abc
  = (Ok tt,
     cleared [EClose Examples.client_a; EClose Examples.client_b;
              EClose Examples.client_c] Examples.connected_abc).
Proof.
  refine (disconnect_all_closes_each_handle Demo.quiet None
            Examples.connected_abc eq_refl _).
  reflexivity.
Defined.

Lemma failed_disconnect_all_keeps_registry_witness :
  disconnect Examples.b_stuck None Examples.connected_abc
  = (Throw Examples.connection_refused,
     after_requests (closes_up_to 1 Examples.connected_abc)
       Examples.connected_abc).
Proof.
  apply (failed_disconnect_all_keeps_registry Examples.b_stuck None
           Examples.connected_abc Examples.connection_refused
           (after_requests (closes_up_to 1 Examples.connected_abc)
              Examples.connected_abc) eq_refl).
  exists 1%nat, Examples.client_b.
  split; [vm_compute; reflexivity|].
  split; [vm_compute; reflexivity|].
  split; [|reflexivity].
  intros [|j] c' Hj Hc'; [|lia].
  vm_compute in Hc'. injection Hc' as <-. vm_compute. reflexivity.
Defined.

(** ** Plain objects *)

Section ObjectFacts.
Context {V : Type}.
Implicit Types (o : JsObject.t V) (k : string) (v : V).

Lemma JsObject_get_JsMap k o : JsObject.get k o = JsMap.get k o.
Proof. induction o as [|[k' v'] o IH]; simpl; [|rewrite IH]; reflexivity. Qed.

Lemma JsObject_get_replace_eq k v o :
  JsObject.get k o <> None ->
  JsObject.get k (JsObject.replace k v o) = Some v.
Proof.
  induction o as [|[k' v'] o IH]; simpl; [congruence|].
  case_decide; simpl; case_decide; try congruence. auto.
Qed.

Lemma JsObject_get_replace_ne k k' v o :
  k <> k' ->
  JsObject.get k' (JsObject.replace k v o) = JsObject.get k' o.
Proof.
  intros Hne. induction o as [|[k0 v0] o IH]; simpl; [reflexivity|].
  repeat (case_decide; simpl); congruence.
Qed.

Lemma JsObject_get_insert_index_eq n k v o :
  JsObject.get k o = None ->
  JsObject.get k (JsObject.insert_index n k v o) = Some v.
Proof.
  induction o as [|[k' v'] o IH]; simpl.
  - case_decide; congruence.
  - case_decide; [discriminate|]. intros Hnone.
    destruct (JsObject.array_index k') as [n'|]; [destruct (n' <? n)%N|];
      simpl; repeat case_decide; try congruence; auto.
Qed.

Lemma JsObject_get_insert_index_ne n k k' v o :
  k <> k' ->
  JsObject.get k' (JsObject.insert_index n k v o) = JsObject.get k' o.
Proof.
  intros Hne. induction o as [|[k0 v0] o IH]; simpl.
  - case_decide; congruence.
  - destruct (JsObject.array_index k0) as [n'|]; [destruct (n' <? n)%N|];
      simpl; repeat case_decide; try congruence; auto.
Qed.

Lemma JsObject_get_app k o1 o2 :
  JsObject.get k (o1 ++ o2)%list
  = match JsObject.get k o1 with
    | Some v => Some v
    | None => JsObject.get k o2
    end.
Proof.
  induction o1 as [|[k' v'] o1 IH]; simpl; [reflexivity|].
  case_decide; [reflexivity | exact IH].
Qed.

(** Reading back what was assigned. *)
Lemma JsObject_get_set_eq k v o :
  k <> "__proto__" -> JsObject.get k (JsObject.set k v o) = Some v.
Proof.
  intros Hk. unfold JsObject.set. case_decide; [congruence|].
  destruct (JsObject.get k o) eqn:Hget.
  - apply JsObject_get_replace_eq. congruence.
  - destruct (JsObject.array_index k).
    + now apply JsObject_get_insert_index_eq.
    + rewrite JsObject_get_app, Hget. simpl. case_decide; congruence.
Qed.

Lemma JsObject_get_set_ne k k' v o :
  k <> k' -> JsObject.get k' (JsObject.set k v o) = JsObject.get k' o.
Proof.
  intros Hne. unfold JsObject.set. case_decide; [reflexivity|].
  destruct (JsObject.get k o).
  - now apply JsObject_get_replace_ne.
  - destruct (JsObject.array_index k).
    + now apply JsObject_get_insert_index_ne.
    + rewrite JsObject_get_app. simpl. case_decide; [congruence|].
      now destruct (JsObject.get k' o).
Qed.

Lemma JsObject_set_plain k v o :
  JsObject.plain k -> JsObject.get k o = None ->
  JsObject.set k v o = (o ++ [(k, v)])%list.
Proof.
  intros [Hproto Hidx] Hget. unfold JsObject.set.
  case_decide; [congruence|]. now rewrite Hget, Hidx.
Qed.

End ObjectFacts.

(** Copying a map into a fresh object, value by value. *)
Section ObjectOfMap.
Context {V W : Type} (f : V -> W).

Lemma copy_loop_get k (m : JsMap.t V) (o : JsObject.t W) :
  k <> "__proto__" -> JsMap.wf m ->
  JsObject.get k (copy_loop f m o)
  = match JsMap.get k m with
    | Some v => Some (f v)
    | None => JsObject.get k o
    end.
Proof.
  intros Hk. unfold JsMap.wf, copy_loop. revert o.
  induction m as [|[k' v'] m IH]; intros o; simpl; [reflexivity|].
  rewrite NoDup_cons, list_elem_of_In. intros [Hk' Hm].
  rewrite IH by assumption. case_decide.
  - subst k'. apply JsMap_get_None_keys in Hk'. rewrite Hk'.
    now apply JsObject_get_set_eq.
  - destruct (JsMap.get k m); [reflexivity|].
    now apply JsObject_get_set_ne.
Qed.

Lemma copy_loop_proto (m : JsMap.t V) (o : JsObject.t W) :
  JsObject.get "__proto__" (copy_loop f m o) = JsObject.get "__proto__" o.
Proof.
  unfold copy_loop. revert o.
  induction m as [|[k' v'] m IH]; intros o; simpl; [reflexivity|].
  rewrite IH. unfold JsObject.set. case_decide; [reflexivity|].
  destruct (JsObject.get k' o).
  - apply JsObject_get_replace_ne. assumption.
  - destruct (JsObject.array_index k').
    + apply JsObject_get_insert_index_ne. assumption.
    + rewrite JsObject_get_app. simpl. case_decide; [congruence|].
      now destruct (JsObject.get "__proto__" o).
Qed.

Lemma copy_loop_plain (m : JsMap.t V) (o : JsObject.t W) :
  NoDup (JsObject.keys o ++ JsMap.keys m) ->
  Forall JsObject.plain (JsMap.keys m) ->
  copy_loop f m o = (o ++ map (fun '(k, v) => (k, f v)) m)%list.
Proof.
  unfold copy_loop. revert o.
  induction m as [|[k v] m IH]; intros o Hnd Hplain; simpl.
  - now rewrite app_nil_r.
  - apply Forall_cons in Hplain as [Hk Hplain]. simpl in Hnd.
    assert (Hget : JsObject.get k o = None).
    { rewrite JsObject_get_JsMap. apply JsMap_get_None_keys.
      apply NoDup_app in Hnd as (_ & Hdisj & _).
      intros Hin. apply (Hdisj k); [now apply list_elem_of_In|].
      now left. }
    rewrite (JsObject_set_plain k (f v) o Hk Hget).
    rewrite IH; [now rewrite <- app_assoc| |assumption].
    unfold JsObject.keys. rewrite map_app. simpl.
    rewrite <- app_assoc. exact Hnd.
Qed.

End ObjectOfMap.

(** ** Looking tools up *)

Section Lookup.
Context {Json : Type} (E : @Env Json).
Implicit Types (st : @ClientState Json).

Lemma find_tool_Some toolName (ts : list (@Tool Json)) t :
  find_tool toolName ts = Some t -> In t ts /\ tool_name t = toolName.
Proof.
  unfold find_tool. intros H. apply find_some in H as [Hin Hname].
  split; [exact Hin|]. now apply bool_decide_eq_true in Hname.
Qed.

Lemma find_tool_complete toolName (ts : list (@Tool Json)) t :
  In t ts -> tool_name t = toolName ->
  exists t', find_tool toolName ts = Some t'.
Proof.
  unfold find_tool. intros Hin Hname.
  destruct (List.find _ ts) as [t'|] eqn:Hfind; [eauto|].
  apply (find_none _ _ Hfind) in Hin.
  apply bool_decide_eq_false in Hin. contradiction.
Qed.

Lemma findTool_in_spec toolName (infos : JsMap.t (@ServerInfo Json)) s t :
  In (s, t) (findTool_in toolName infos)
  <-> exists info, In (s, info) infos
                   /\ find_tool toolName (tools info) = Some t.
Proof.
  induction infos as [|[k info] rest IH]; simpl.
  - split; [tauto | intros (? & [] & _)].
  - destruct (find_tool toolName (tools info)) as [t0|] eqn:Hfind; simpl;
      rewrite IH; split.
    + intros [[= -> ->]|(i & Hin & Hf)]; eauto.
    + intros (i & [[= -> ->]|Hin] & Hf); [left; congruence | right; eauto].
    + intros (i & Hin & Hf). eauto.
    + intros (i & [[= -> ->]|Hin] & Hf); [congruence | eauto].
Qed.

Lemma findTool_in_servers toolName (infos : JsMap.t (@ServerInfo Json)) s :
  In s (map fst (findTool_in toolName infos)) -> In s (JsMap.keys infos).
Proof.
  induction infos as [|[k info] rest IH]; simpl; [tauto|].
  destruct (find_tool toolName (tools info)); simpl; tauto.
Qed.

Lemma findTool_in_NoDup toolName (infos : JsMap.t (@ServerInfo Json)) :
  JsMap.wf infos -> NoDup (map fst (findTool_in toolName infos)).
Proof.
  unfold JsMap.wf. induction infos as [|[k info] rest IH]; simpl.
  - intros _. apply NoDup_nil_2.
  - rewrite NoDup_cons, list_elem_of_In. intros [Hk Hrest].
    destruct (find_tool toolName (tools info)); simpl; [|auto].
    apply NoDup_cons. split; [|auto].
    rewrite list_elem_of_In. intros Hin. apply Hk.
    eapply findTool_in_servers, Hin.
Qed.

(** X9: in every state a caller can reach, [findTool(name)] lists a
    server exactly when its snapshot has a tool of that name, gives the
    first such tool of that server, lists no server twice, and every entry
    it gives is offered to the model under its qualified name. *)
Theorem findTool_finds_the_servers key model calls toolName :
  let st := run E calls (constructor key model) in
  (forall s t,
      In (s, t) (findTool toolName st)
      <-> exists info, getServerInfo s st = Some info
                       /\ find_tool toolName (tools info) = Some t)
  /\ (forall s,
        In s (map fst (findTool toolName st))
        <-> exists info t, getServerInfo s st = Some info
                           /\ In t (tools info) /\ tool_name t = toolName)
  /\ NoDup (map fst (findTool toolName st))
  /\ (forall s t,
        In (s, t) (findTool toolName st) ->
        tool_name t = toolName
        /\ In (qualified s t) (collect_tools None (serverInfos st))).
Proof.
  intros st.
  destruct (run_coherent E calls key model) as [(_ & Hwf & _) _].
  fold st in Hwf. unfold findTool, getServerInfo.
  assert (Hspec : forall s t,
             In (s, t) (findTool_in toolName (serverInfos st))
             <-> exists info, JsMap.get s (serverInfos st) = Some info
                              /\ find_tool toolName (tools info) = Some t).
  { intros s t. rewrite findTool_in_spec. split.
    - intros (info & Hin & Hf). exists info.
      split; [now apply JsMap_In_get | exact Hf].
    - intros (info & Hget & Hf). exists info.
      split; [now apply JsMap_get_In | exact Hf]. }
  split; [exact Hspec|]. split; [|split].
  - intros s. rewrite in_map_iff. split.
    + intros ([s' t] & <- & Hin). apply Hspec in Hin as (info & Hget & Hf).
      apply find_tool_Some in Hf as [Hin Hname]. eauto.
    + intros (info & t & Hget & Hin & Hname).
      destruct (find_tool_complete toolName (tools info) t Hin Hname)
        as [t' Hf].
      exists (s, t'). split; [reflexivity|]. apply Hspec. eauto.
  - now apply findTool_in_NoDup.
  - intros s t Hin. apply Hspec in Hin as (info & Hget & Hf).
    apply find_tool_Some in Hf as [Hin Hname]. split; [exact Hname|].
    eapply collect_tools_all; [|exact Hin]. now apply JsMap_get_In.
Qed.

(** X10: in every state a caller can reach, the object that
    [getAllServerInfos] returns has, under every identifier other than
    [__proto__], the snapshot [getServerInfo] gives, and never a property
    [__proto__]; when no identifier is [__proto__] or an array index, its
    entries are those of the registry, in registration order. *)
Theorem getAllServerInfos_is_the_registry key model calls :
  let st := run E calls (constructor key model) in
  (forall name,
      name <> "__proto__" ->
      JsObject.get name (getAllServerInfos st) = getServerInfo name st)
  /\ JsObject.get "__proto__" (getAllServerInfos st) = None
  /\ (Forall JsObject.plain (getConnectedServers st) ->
      getAllServerInfos st = serverInfos st).
Proof.
  intros st.
  destruct (run_coherent E calls key model) as [(_ & Hwf & _) (_ & Hi & _)].
  fold st in Hwf, Hi.
  change (getAllServerInfos st)
    with (copy_loop (fun info : ServerInfo => info) (serverInfos st) []).
  split; [|split].
  - intros name Hname. rewrite copy_loop_get by assumption.
    unfold getServerInfo. now destruct (JsMap.get name (serverInfos st)).
  - now rewrite copy_loop_proto.
  - unfold getConnectedServers. rewrite <- Hi. intros Hplain.
    rewrite copy_loop_plain by assumption. simpl.
    clear. induction (serverInfos st) as [|[k v] m IH]; simpl;
      [reflexivity | now rewrite IH].
Qed.

(** X11: likewise [listAllTools] and [listAllResources] give, under every
    identifier other than [__proto__], the tools and the resources of its
    snapshot, and nothing under an identifier without a snapshot. *)
Theorem listAll_read_the_snapshots key model calls name :
  let st := run E calls (constructor key model) in
  name <> "__proto__" ->
  JsObject.get name (listAllTools st) = tools <$> getServerInfo name st
  /\ JsObject.get name (listAllResources st)
     = resources <$> getServerInfo name st.
Proof.
  intros st Hname.
  destruct (run_coherent E calls key model) as [(_ & Hwf & _) _].
  fold st in Hwf.
  change (listAllTools st) with (copy_loop tools (serverInfos st) []).
  change (listAllResources st) with (copy_loop resources (serverInfos st) []).
  rewrite !copy_loop_get by assumption. unfold getServerInfo.
  now destruct (JsMap.get name (serverInfos st)).
Qed.

End Lookup.

Lemma getAllServerInfos_is_the_registry_witness :
  getAllServerInfos
    (run Examples.b_stuck Examples.three_servers
       (constructor (Some "sk-demo") None))
  = serverInfos
      (run Examples.b_stuck Examples.three_servers
         (constructor (Some "sk-demo") None)).
Proof.
  pose proof (getAllServerInfos_is_the_registry Examples.b_stuck
                (Some "sk-demo") None Examples.three_servers) as Hthm.
  cbv zeta in Hthm. destruct Hthm as (_ & _ & Hplain).
  apply Hplain.
  replace (getConnectedServers
             (run Examples.b_stuck Examples.three_servers
                (constructor (Some "sk-demo") None)))
    with ["a"; "b"; "c"] by (vm_compute; reflexivity).
  repeat apply Forall_cons_2; try apply Forall_nil_2;
    (split; [discriminate | vm_compute; reflexivity]).
Defined.

Lemma listAll_read_the_snapshots_witness :
  JsObject.get "b"
    (listAllTools
       (run Examples.b_stuck Examples.three_servers
          (constructor (Some "sk-demo") None)))
  = Some [Demo.search].
Proof.
  pose proof (listAll_read_the_snapshots Examples.b_stuck
                (Some "sk-demo") None Examples.three_servers "b") as Hthm.
  cbv zeta in Hthm. destruct Hthm as [Htools _]; [discriminate|].
  rewrite Htools. vm_compute. reflexivity.
Defined.

(** ** Qualified names *)

Section Names.
Context {Json : Type}.

(** X12: splitting the qualified name of a tool at its first separator
    gives back the server and the tool name, whenever the server name has
    no separator; the tool name may have some. *)
Theorem qualified_name_round_trip serverName (tool : @Tool Json) :
  Js.indexOf serverName "_" = -1 ->
  let name := llm_name (qualified serverName tool) in
  Js.substring name 0 (Js.indexOf name "_") = serverName
  /\ Js.substring_from name (Js.indexOf name "_" + 1) = tool_name tool.
Proof. intros Hno. exact (split_qualified serverName (tool_name tool) Hno). Qed.

Lemma qualified_injective serverA serverB (a b : string) :
  Js.indexOf serverA "_" = -1 -> Js.indexOf serverB "_" = -1 ->
  serverA ++ "_" ++ a = serverB ++ "_" ++ b ->
  serverA = serverB /\ a = b.
Proof.
  intros HA HB Heq.
  destruct (split_qualified serverA a HA) as [H1 H2].
  destruct (split_qualified serverB b HB) as [H3 H4].
  cbv zeta in *. rewrite Heq in H1, H2. split; congruence.
Qed.

Lemma collect_tools_names (infos : JsMap.t (@ServerInfo Json)) n :
  In n (map llm_name (collect_tools None infos)) ->
  exists k info t,
    In (k, info) infos /\ In t (tools info) /\ n = k ++ "_" ++ tool_name t.
Proof.
  induction infos as [|[k info] rest IH]; simpl; [tauto|].
  rewrite map_app, in_app_iff, map_map.
  intros [Hin|Hin].
  - apply in_map_iff in Hin as (t & <- & Hin). exists k, info, t. auto.
  - destruct (IH Hin) as (k' & info' & t & Hk & Ht & Hn).
    exists k', info', t. auto.
Qed.

(** X13: when no server name has a separator and no server lists two
    tools of the same name, the names offered to the model are pairwise
    distinct. *)
Theorem offered_names_are_distinct (infos : JsMap.t (@ServerInfo Json)) :
  JsMap.wf infos ->
  (forall k info, In (k, info) infos ->
                  Js.indexOf k "_" = -1
                  /\ NoDup (map tool_name (tools info))) ->
  NoDup (map llm_name (collect_tools None infos)).
Proof.
  unfold JsMap.wf. induction infos as [|[k info] rest IH]; simpl.
  - intros _ _. apply NoDup_nil_2.
  - rewrite NoDup_cons, list_elem_of_In. intros [Hk Hrest] Hall.
    destruct (Hall k info (or_introl eq_refl)) as [Hno Htools].
    rewrite map_app, map_map. apply NoDup_app. split; [|split].
    + simpl. clear -Htools.
      induction (tools info) as [|t ts IHt]; simpl in *;
        [apply NoDup_nil_2|].
      apply NoDup_cons in Htools as [Ht Hts]. apply NoDup_cons.
      split; [|auto].
      rewrite list_elem_of_In in *. intros Hin. apply Ht.
      apply in_map_iff in Hin as (t' & Heq & Hin).
      apply String.app_inj in Heq. injection Heq as Heq.
      apply in_map_iff. eauto.
    + intros n Hn Hn'. rewrite list_elem_of_In in *.
      apply in_map_iff in Hn as (t & <- & Ht).
      apply collect_tools_names in Hn' as (k' & info' & t' & Hk' & _ & Heq).
      simpl in Heq.
      destruct (Hall k' info' (or_intror Hk')) as [Hno' _].
      apply qualified_injective in Heq as [-> _]; try assumption.
      apply Hk. apply (in_map fst) in Hk'. exact Hk'.
    + apply IH; [assumption|]. intros k' info' Hin. apply Hall. now right.
Qed.

End Names.

Lemma qualified_name_round_trip_witness :
  Js.substring "weather_get_forecast" 0
    (Js.indexOf "weather_get_forecast" "_") = "weather"
  /\ Js.substring_from "weather_get_forecast"
       (Js.indexOf "weather_get_forecast" "_" + 1) = "get_forecast".
Proof.
  refine (qualified_name_round_trip (Json := string) "weather"
            {| tool_name := "get_forecast"; tool_description := None;
               tool_inputSchema := None |} _).
  vm_compute. reflexivity.
Defined.

Lemma offered_names_are_distinct_witness :
  NoDup (map llm_name
           (collect_tools None (serverInfos Examples.connected_abc))).
Proof.
  apply offered_names_are_distinct.
  - replace (serverInfos Examples.connected_abc)
      with [("a", {| info_name := "a"; tools := [Demo.search];
                     resources := []; prompts := [] |});
            ("b", {| info_name := "b"; tools := [Demo.search];
                     resources := []; prompts := [] |});
            ("c", {| info_name := "c"; tools := [Demo.search];
                     resources := []; prompts := [] |})]
      by (vm_compute; reflexivity).
    unfold JsMap.wf. simpl. compute_done.
  - replace (serverInfos Examples.connected_abc)
      with [("a", {| info_name := "a"; tools := [Demo.search];
                     resources := []; prompts := [] |});
            ("b", {| info_name := "b"; tools := [Demo.search];
                     resources := []; prompts := [] |});
            ("c", {| info_name := "c"; tools := [Demo.search];
                     resources := []; prompts := [] |})]
      by (vm_compute; reflexivity).
    intros k info [[= <- <-]|[[= <- <-]|[[= <- <-]|[]]]];
      (split; [vm_compute; reflexivity|]);
      simpl; apply NoDup_singleton.
Defined.

(** ** More on the conversation *)

Section ConversationExtras.
Context {Json : Type} (E : @Env Json).
Implicit Types (st : @ClientState Json) (l : @Locals Json).

Lemma substring_empty (s : string) : String.substring 0 0 s = "".
Proof. now destruct s. Qed.

Lemma substring_whole (s : string) :
  String.substring 0 (String.length s) s = s.
Proof.
  rewrite <- (append_empty_r s) at 2. apply substring_prefix.
Qed.

(** A name without separator splits into the empty server name and the
    name itself. *)
Lemma split_unqualified (name : string) :
  Js.indexOf name "_" = -1 ->
  Js.substring name 0 (Js.indexOf name "_") = ""
  /\ Js.substring_from name (Js.indexOf name "_" + 1) = name.
Proof.
  intros ->. pose proof (strlen_nonneg name) as Hlen.
  unfold Js.substring_from, Js.substring, Js.clamp. split.
  - replace (Z.to_nat _) with 0%nat by lia.
    replace (Z.to_nat _) with 0%nat by lia. apply substring_empty.
  - replace (Z.to_nat (Z.min _ _)) with 0%nat by lia.
    replace (Z.to_nat _) with (String.length name)
      by (unfold Js.strlen in *; lia).
    apply substring_whole.
Qed.

(** X14: an invocation whose name has no separator is addressed to the
    server with the empty name, under the whole name.  When no server is
    registered under the empty name it fails in place, without a request:
    the failure text names the empty server. *)
Theorem unqualified_invocation_fails_in_place allTools i name input l st :
  Js.indexOf name "_" = -1 ->
  JsMap.get "" (clients st) = None ->
  tool_use E allTools i name input l st
  = (Ok (add_result
           (Js.nl ++ "[" ++ name ++ " failed: Error: Server  not connected]"
            ++ Js.nl) l), st).
Proof.
  intros Hno Hnone. unfold tool_use.
  destruct (split_unqualified name Hno) as [-> ->].
  unfold callTool, bind, get_state. rewrite Hnone. reflexivity.
Qed.

(** X15: when the first model request fails, the query throws that error
    as it came, after that one request: no tool is called. *)
Theorem model_failure_is_thrown query preferredServer st key e :
  anthropic st = Some key ->
  let allTools := collect_tools preferredServer (serverInfos st) in
  let messages := [{| role := user; content := StringContent query |}] in
  let first := EMessagesCreate (anthropicModel st) 2000 messages allTools in
  messages_create E (trace st ++ [first])%list messages allTools = Throw e ->
  queryWithLLM E query preferredServer st = (Throw e, after_request first st).
Proof.
  intros Hkey allTools messages first Hfail.
  unfold queryWithLLM, bind, try_catch, get_state. rewrite Hkey.
  fold allTools. fold messages.
  unfold create, bind, get_state, emit. cbn [trace anthropicModel].
  fold first. rewrite Hfail. reflexivity.
Qed.

Lemma process_text_only allTools blocks l st :
  count is_tool_use blocks = 0%nat ->
  exists l',
    process_content E allTools blocks l st = (Ok l', st)
    /\ result l' = result l ++ texts_of blocks
    /\ followUpMessages l' = followUpMessages l.
Proof.
  revert l. induction blocks as [|b rest IH]; intros l Hcount.
  - exists l. simpl. rewrite append_empty_r. auto.
  - destruct b as [t|i name input|]; simpl in *; try discriminate.
    + destruct (IH (push_assistantContent (Text t)
                      (add_result (t ++ Js.nl) l)) Hcount)
        as (l' & Hrun & Hres & Hfu).
      exists l'. split; [exact Hrun|]. split; [|exact Hfu].
      rewrite Hres. cbn [result push_assistantContent add_result].
      now rewrite !append_assoc.
    + apply IH, Hcount.
Qed.

(** X16: when the first response asks for no tool, the answer is its text
    blocks, each followed by a line feed, trimmed; the query has issued
    its one model request and nothing else. *)
Theorem text_response_is_the_answer query preferredServer st key response :
  anthropic st = Some key ->
  let allTools := collect_tools preferredServer (serverInfos st) in
  let messages := [{| role := user; content := StringContent query |}] in
  let first := EMessagesCreate (anthropicModel st) 2000 messages allTools in
  messages_create E (trace st ++ [first])%list messages allTools
  = Ok response ->
  count is_tool_use response = 0%nat ->
  queryWithLLM E query preferredServer st
  = (Ok (Js.trim (texts_of response)), after_request first st).
Proof.
  intros Hkey allTools messages first Hresp Hcount.
  unfold queryWithLLM, bind, try_catch, get_state. rewrite Hkey.
  fold allTools. fold messages.
  unfold create, bind, get_state, emit. cbn [trace anthropicModel].
  fold first. rewrite Hresp. cbn [of_result ret].
  match goal with
  | |- context [process_content E allTools response ?l0 ?st0] =>
      destruct (process_text_only allTools response l0 st0 Hcount)
        as (l' & -> & Hres & _)
  end.
  cbn [result] in Hres. cbn [ret]. rewrite Hres. reflexivity.
Qed.

(** One invocation keeps the conversation opened by the query, and what it
    issues is a call on a registered handle and a model request for the
    same model that opens with the query. *)
Lemma tool_use_requests allTools i name input query l st :
  head (followUpMessages l) = Some (FUser query) ->
  exists l' st' requests,
    tool_use E allTools i name input l st = (Ok l', st')
    /\ only_requests st st'
    /\ trace st' = (trace st ++ requests)%list
    /\ Forall (opens_with_query query (anthropicModel st)) requests
    /\ Forall (query_request st) requests
    /\ head (followUpMessages l') = Some (FUser query).
Proof.
  intros Hhead. unfold tool_use.
  set (serverName := Js.substring name 0 (Js.indexOf name "_")).
  set (toolName := Js.substring_from name (Js.indexOf name "_" + 1)).
  destruct (callTool_trace E serverName toolName input st)
    as (reqs & Htr & Hreqs & _).
  pose proof (callTool_frame E serverName toolName input st) as Hframe.
  assert (Hreqs_ok : Forall (opens_with_query query (anthropicModel st)) reqs
                     /\ Forall (query_request st) reqs).
  { destruct Hreqs as [->|(c & Hc & ->)];
      split; repeat constructor; simpl; eauto. }
  destruct Hreqs_ok as [Hopen Hreg].
  destruct (callTool E serverName toolName input st) as [[r|e] st1];
    cbn [fst snd] in *.
  - set (l3 := push_followUp _ (push_followUp _ (add_result _ l))).
    assert (Hhead3 : head (followUpMessages l3) = Some (FUser query)).
    { unfold l3. cbn [followUpMessages push_followUp add_result].
      destruct (followUpMessages l); [discriminate | exact Hhead]. }
    assert (Hmsgs : head (map (snapshot (assistantContent l3))
                            (followUpMessages l3))
                    = Some {| role := user;
                              content := StringContent query |}).
    { destruct (followUpMessages l3) as [|m ms]; [discriminate|].
      injection Hhead3 as ->. reflexivity. }
    pose proof (create_trace E (map (snapshot (assistantContent l3))
                                  (followUpMessages l3)) allTools st1)
      as Hct.
    pose proof (create_frame E (map (snapshot (assistantContent l3))
                                  (followUpMessages l3)) allTools st1)
      as Hcf.
    assert (Hmodel : anthropicModel st1 = anthropicModel st)
      by apply Hframe.
    destruct (create E _ allTools st1) as [[bs|e] st2]; cbn [fst snd] in *.
    + destruct (followUp_texts_result bs l3) as (g & _ & Hfu & _).
      do 3 eexists. split; [reflexivity|].
      split; [eapply only_requests_trans; eauto|].
      split; [rewrite Hct, Htr, <- app_assoc; reflexivity|].
      split; [|split].
      * apply Forall_app_2; [exact Hopen|].
        repeat constructor; simpl; auto.
      * apply Forall_app_2; [exact Hreg|]. repeat constructor.
      * now rewrite Hfu.
    + do 3 eexists. split; [reflexivity|].
      split; [eapply only_requests_trans; eauto|].
      split; [rewrite Hct, Htr, <- app_assoc; reflexivity|].
      split; [|split].
      * apply Forall_app_2; [exact Hopen|].
        repeat constructor; simpl; auto.
      * apply Forall_app_2; [exact Hreg|]. repeat constructor.
      * exact Hhead3.
  - do 3 eexists. split; [reflexivity|].
    split; [exact Hframe|]. split; [exact Htr|]. auto.
Qed.

Lemma query_request_same st st' (e : @Event Json) :
  only_requests st st' -> query_request st' e -> query_request st e.
Proof.
  intros [(Hc & _) _]. destruct e; simpl; auto. now rewrite Hc.
Qed.

Lemma process_content_requests allTools blocks query l st :
  head (followUpMessages l) = Some (FUser query) ->
  exists l' st' requests,
    process_content E allTools blocks l st = (Ok l', st')
    /\ trace st' = (trace st ++ requests)%list
    /\ Forall (opens_with_query query (anthropicModel st)) requests
    /\ Forall (query_request st) requests.
Proof.
  revert l st. induction blocks as [|b rest IH]; intros l st Hhead.
  - exists l, st, []. simpl. rewrite app_nil_r. auto.
  - destruct b as [t|i name input|]; simpl.
    + apply IH. exact Hhead.
    + unfold bind.
      destruct (tool_use_requests allTools i name input query
                  (push_assistantContent (ToolUse i name input) l) st Hhead)
        as (l1 & st1 & r1 & -> & Hframe & Htr1 & Ho1 & Hq1 & Hhead1).
      destruct (IH l1 st1 Hhead1) as (l' & st' & r2 & Hrun & Htr & Ho & Hq).
      exists l', st', (r1 ++ r2)%list. split; [exact Hrun|].
      split; [rewrite Htr, Htr1; apply eq_sym, app_assoc|].
      assert (Hmodel : anthropicModel st1 = anthropicModel st)
        by apply Hframe.
      rewrite Hmodel in Ho.
      split; apply Forall_app_2; auto.
      eapply Forall_impl; [exact Hq|].
      intros e. now apply query_request_same.
    + apply IH. exact Hhead.
Qed.

(** X17: every model request of a query is for the model set at
    construction, with a limit of 2000 tokens, and its conversation opens
    with the user's query; apart from model requests the query issues only
    tool calls, each on a handle of the registry. *)
Theorem query_requests_are_well_formed query preferredServer st :
  exists requests,
    trace (snd (queryWithLLM E query preferredServer st))
    = (trace st ++ requests)%list
    /\ Forall (opens_with_query query (anthropicModel st)) requests
    /\ Forall (query_request st) requests.
Proof.
  unfold queryWithLLM, bind, try_catch, get_state.
  destruct (anthropic st) as [key|]; cbn [fst snd].
  2:{ exists []. rewrite app_nil_r. auto. }
  set (allTools := collect_tools preferredServer (serverInfos st)).
  set (messages := [{| role := user; content := StringContent query |}]).
  pose proof (create_trace E messages allTools st) as Hct.
  pose proof (create_frame E messages allTools st) as Hcf.
  destruct (create E messages allTools st) as [[response|e] st0];
    cbn [fst snd] in *.
  - match goal with
    | |- context [process_content E allTools response ?l0 st0] =>
        destruct (process_content_requests allTools response query l0 st0
                    eq_refl)
          as (l' & st' & reqs & -> & Htr & Ho & Hq)
    end. unfold ret. cbn [fst snd].
    eexists. split; [rewrite Htr, Hct, <- app_assoc; reflexivity|].
    assert (Hmodel : anthropicModel st0 = anthropicModel st) by apply Hcf.
    rewrite Hmodel in Ho.
    split; apply Forall_app_2; auto.
    + repeat constructor.
    + repeat constructor.
    + eapply Forall_impl; [exact Hq|].
      intros e. now apply query_request_same.
  - unfold throw. cbn [fst snd].
    eexists. split; [rewrite Hct; reflexivity|].
    split; repeat constructor.
Qed.

(** X18: the dispatch methods and the query never change the registry,
    the model configuration or the count of created handles: whatever they
    return or throw, they only add to the requests issued. *)
Theorem dispatch_leaves_the_registry st :
  (forall serverName toolName args,
      only_requests st (snd (callTool E serverName toolName args st)))
  /\ (forall serverName uri,
        only_requests st (snd (readResource E serverName uri st)))
  /\ (forall serverName name args,
        only_requests st (snd (getPrompt E serverName name args st)))
  /\ (forall serverName, only_requests st (snd (ping E serverName st)))
  /\ (forall query preferredServer,
        only_requests st (snd (queryWithLLM E query preferredServer st))).
Proof.
  split; [intros; apply callTool_frame|].
  split; [intros; apply readResource_frame|].
  split; [intros; apply getPrompt_frame|].
  split; [intros; apply ping_frame | intros; apply queryWithLLM_frame].
Qed.

End ConversationExtras.

(** ** Invocations that succeed *)

Section Markers.
Context {Json : Type} (E : @Env Json).
Implicit Types (st : @ClientState Json) (l : @Locals Json).

(** A bracketed note survives [trim], wherever it stands. *)
Lemma bracket_survives pre mid post :
  Js.includes (Js.trim (pre ++ String "[" (mid ++ String "]" post)))
    ("[" ++ mid ++ "]").
Proof.
  destruct (trim_keeps pre "[" mid "]" post eq_refl eq_refl)
    as (pre' & post' & ->).
  exists pre', post'. append_normal.
Qed.

(** The invocation branch once the dispatch has succeeded. *)
Lemma tool_use_dispatched allTools i name input l st r st1 :
  callTool E (Js.substring name 0 (Js.indexOf name "_"))
    (Js.substring_from name (Js.indexOf name "_" + 1)) input st
  = (Ok r, st1) ->
  let l3 := push_followUp (FToolResult i (JSON_stringify E r))
              (push_followUp FAssistant
                 (add_result (executed_text name) l)) in
  tool_use E allTools i name input l st
  = match create E (map (snapshot (assistantContent l3))
                      (followUpMessages l3)) allTools st1 with
    | (Throw e, st2) => (Ok (add_result (failed_text name e) l3), st2)
    | (Ok bs, st2) => (Ok (followUp_texts bs l3), st2)
    end.
Proof. intros Hcall l3. unfold tool_use. rewrite Hcall. reflexivity. Qed.

(** X19: when the dispatch of an invocation of the first response
    succeeds, the query returns normally and its answer contains the note
    that the tool was executed, whatever the follow-up request and the
    remaining segments do. *)
Theorem executed_invocation_is_noted
    query preferredServer st key st0 before i name input rest l1 st1 r st2 :
  anthropic st = Some key ->
  let allTools := collect_tools preferredServer (serverInfos st) in
  let invocation := ToolUse i name input in
  create E [{| role := user; content := StringContent query |}] allTools st
  = (Ok (before ++ invocation :: rest)%list, st0) ->
  process_content E allTools before
    {| result := ""; followUpMessages := [FUser query];
       assistantContent := [] |} st0
  = (Ok l1, st1) ->
  callTool E (Js.substring name 0 (Js.indexOf name "_"))
    (Js.substring_from name (Js.indexOf name "_" + 1)) input st1
  = (Ok r, st2) ->
  exists answer st',
    queryWithLLM E query preferredServer st = (Ok answer, st')
    /\ Js.includes answer ("[" ++ name ++ " executed]").
Proof.
  intros Hkey allTools invocation Hfirst Hbefore Hcall.
  pose proof (tool_use_dispatched allTools i name input
                (push_assistantContent invocation l1) st1 r st2 Hcall)
    as Hstep. cbv zeta in Hstep.
  set (l3 := push_followUp _ (push_followUp _ (add_result _ _))) in Hstep.
  assert (Hl2 : exists l2 st3 g,
             tool_use E allTools i name input
               (push_assistantContent invocation l1) st1 = (Ok l2, st3)
             /\ result l2 = (result l1 ++ executed_text name) ++ g).
  { rewrite Hstep.
    destruct (create E _ allTools st2) as [[bs|e] st3].
    - destruct (followUp_texts_result bs l3) as (g & Hg & _).
      exists (followUp_texts bs l3), st3, g. split; [reflexivity|].
      rewrite Hg. reflexivity.
    - exists (add_result (failed_text name e) l3), st3, (failed_text name e).
      split; reflexivity. }
  destruct Hl2 as (l2 & st3 & g & Huse & Hres2).
  destruct (process_content_spec E allTools rest l2 st3)
    as (l4 & st4 & g2 & reqs & Hrest & Hres4 & _).
  exists (Js.trim (result l4)), st4. split.
  - unfold queryWithLLM, bind, try_catch, get_state. rewrite Hkey.
    fold allTools. rewrite Hfirst.
    rewrite process_content_app, Hbefore.
    change (process_content E allTools (invocation :: rest) l1 st1)
      with (bind (tool_use E allTools i name input
                    (push_assistantContent invocation l1))
                 (fun l' => process_content E allTools rest l') st1).
    unfold bind. rewrite Huse, Hrest. reflexivity.
  - rewrite Hres4, Hres2. unfold executed_text.
    replace (((result l1 ++ Js.nl ++ "[" ++ name ++ " executed]" ++ Js.nl)
              ++ g) ++ g2)
      with ((result l1 ++ Js.nl)
            ++ String "[" ((name ++ " executed")
                           ++ String "]" (Js.nl ++ g ++ g2)))
      by append_normal.
    replace ("[" ++ name ++ " executed]")
      with ("[" ++ (name ++ " executed") ++ "]") by append_normal.
    apply bracket_survives.
Qed.

(** X20: when the dispatch succeeds and the follow-up request then fails,
    the query still returns normally; its answer contains both the note
    that the tool was executed and the note that it failed, with the
    error of the model request. *)
Theorem failed_follow_up_is_noted
    query preferredServer st key st0 before i name input rest l1 st1 r st2
    e st3 :
  anthropic st = Some key ->
  let allTools := collect_tools preferredServer (serverInfos st) in
  let invocation := ToolUse i name input in
  create E [{| role := user; content := StringContent query |}] allTools st
  = (Ok (before ++ invocation :: rest)%list, st0) ->
  process_content E allTools before
    {| result := ""; followUpMessages := [FUser query];
       assistantContent := [] |} st0
  = (Ok l1, st1) ->
  callTool E (Js.substring name 0 (Js.indexOf name "_"))
    (Js.substring_from name (Js.indexOf name "_" + 1)) input st1
  = (Ok r, st2) ->
  create E
    (map (snapshot (assistantContent l1 ++ [invocation])%list)
       (followUpMessages l1
        ++ [FAssistant; FToolResult i (JSON_stringify E r)])%list)
    allTools st2
  = (Throw e, st3) ->
  exists answer st',
    queryWithLLM E query preferredServer st = (Ok answer, st')
    /\ Js.includes answer ("[" ++ name ++ " executed]")
    /\ Js.includes answer
         ("[" ++ name ++ " failed: " ++ Error_toString e ++ "]").
Proof.
  intros Hkey allTools invocation Hfirst Hbefore Hcall Hfollow.
  pose proof (tool_use_dispatched allTools i name input
                (push_assistantContent invocation l1) st1 r st2 Hcall)
    as Hstep. cbv zeta in Hstep.
  cbn [push_followUp add_result push_assistantContent followUpMessages
       assistantContent result] in Hstep.
  rewrite <- app_assoc in Hstep. cbn [app] in Hstep.
  rewrite Hfollow in Hstep.
  match type of Hstep with
  | _ = (Ok ?l2, _) =>
      destruct (process_content_spec E allTools rest l2 st3)
        as (l4 & st4 & g2 & reqs & Hrest & Hres4 & _)
  end.
  cbn [result add_result push_followUp push_assistantContent] in Hres4.
  exists (Js.trim (result l4)), st4.
  assert (Hrun : queryWithLLM E query preferredServer st
                 = (Ok (Js.trim (result l4)), st4)).
  { unfold queryWithLLM, bind, try_catch, get_state. rewrite Hkey.
    fold allTools. rewrite Hfirst.
    rewrite process_content_app, Hbefore.
    change (process_content E allTools (invocation :: rest) l1 st1)
      with (bind (tool_use E allTools i name input
                    (push_assistantContent invocation l1))
                 (fun l' => process_content E allTools rest l') st1).
    unfold bind. rewrite Hstep, Hrest. reflexivity. }
  split; [exact Hrun|]. rewrite Hres4. split.
  - unfold executed_text.
    replace (((result l1 ++ Js.nl ++ "[" ++ name ++ " executed]" ++ Js.nl)
              ++ failed_text name e) ++ g2)
      with ((result l1 ++ Js.nl)
            ++ String "[" ((name ++ " executed")
                           ++ String "]"
                                (Js.nl ++ failed_text name e ++ g2)))
      by append_normal.
    replace ("[" ++ name ++ " executed]")
      with ("[" ++ (name ++ " executed") ++ "]") by append_normal.
    apply bracket_survives.
  - rewrite failed_text_shape.
    replace (((result l1 ++ executed_text name)
              ++ Js.nl
              ++ String "[" ((name ++ " failed: " ++ Error_toString e)
                             ++ String "]" Js.nl)) ++ g2)
      with (((result l1 ++ executed_text name) ++ Js.nl)
            ++ String "[" ((name ++ " failed: " ++ Error_toString e)
                           ++ String "]" (Js.nl ++ g2)))
      by append_normal.
    replace ("[" ++ name ++ " failed: " ++ Error_toString e ++ "]")
      with ("[" ++ (name ++ " failed: " ++ Error_toString e) ++ "]")
      by append_normal.
    apply bracket_survives.
Qed.

End Markers.

Lemma unqualified_invocation_fails_in_place_witness :
  tool_use Examples.model_unqualified [] "toolu_1" "search" "{}"
    {| result := ""; followUpMessages := [FUser "find"];
       assistantContent := [ToolUse "toolu_1" "search" "{}"] |}
    Examples.connected_abc
  = (Ok {| result := Js.nl
                     ++ "[search failed: Error: Server  not connected]"
                     ++ Js.nl;
           followUpMessages := [FUser "find"];
           assistantContent := [ToolUse "toolu_1" "search" "{}"] |},
     Examples.connected_abc).
Proof.
  rewrite unqualified_invocation_fails_in_place;
    [reflexivity | vm_compute; reflexivity | vm_compute; reflexivity].
Defined.

Lemma model_failure_is_thrown_witness :
  fst (queryWithLLM Examples.model_down "find" None Examples.connected_abc)
  = Throw Examples.overloaded.
Proof.
  rewrite (model_failure_is_thrown Examples.model_down "find" None
             Examples.connected_abc "sk-demo" Examples.overloaded);
    [reflexivity | vm_compute; reflexivity | vm_compute; reflexivity].
Defined.

Lemma text_response_is_the_answer_witness :
  fst (queryWithLLM Examples.b_stuck "find" None Examples.connected_abc)
  = Ok "Hello.".
Proof.
  rewrite (text_response_is_the_answer Examples.b_stuck "find" None
             Examples.connected_abc "sk-demo" [Text "Hello."]);
    [vm_compute; reflexivity | vm_compute; reflexivity
     | vm_compute; reflexivity | reflexivity].
Defined.

Lemma executed_invocation_is_noted_witness :
  exists answer st',
    queryWithLLM Demo.quiet "find" None Demo.connected_a = (Ok answer, st')
    /\ Js.includes answer "[a_search executed]".
Proof.
  destruct (executed_invocation_is_noted Demo.quiet "find" None
              Demo.connected_a "sk-demo"
              (snd (create Demo.quiet
                      [{| role := user; content := StringContent "find" |}]
                      (collect_tools None (serverInfos Demo.connected_a))
                      Demo.connected_a))
              [Text "Let me look."] "toolu_1" "a_search" "{}" []
              {| result := "Let me look." ++ Js.nl;
                 followUpMessages := [FUser "find"];
                 assistantContent := [Text "Let me look."] |}
              (snd (create Demo.quiet
                      [{| role := user; content := StringContent "find" |}]
                      (collect_tools None (serverInfos Demo.connected_a))
                      Demo.connected_a))
              "hits from universal-client-a"
              (snd (callTool Demo.quiet "a" "search" "{}"
                      (snd (create Demo.quiet
                              [{| role := user;
                                  content := StringContent "find" |}]
                              (collect_tools None
                                 (serverInfos Demo.connected_a))
                              Demo.connected_a)))))
    as (answer & st' & Hrun & Hnote).
  - vm_compute. reflexivity.
  - vm_compute. reflexivity.
  - vm_compute. reflexivity.
  - vm_compute. reflexivity.
  - exists answer, st'. auto.
Defined.

Lemma failed_follow_up_is_noted_witness :
  exists answer st',
    queryWithLLM Examples.model_fails_second "find" None Demo.connected_a
    = (Ok answer, st')
    /\ Js.includes answer "[a_search executed]"
    /\ Js.includes answer "[a_search failed: APIError: 529 overloaded]".
Proof.
  destruct (failed_follow_up_is_noted Examples.model_fails_second "find"
              None Demo.connected_a "sk-demo"
              (snd (create Examples.model_fails_second
                      [{| role := user; content := StringContent "find" |}]
                      (collect_tools None (serverInfos Demo.connected_a))
                      Demo.connected_a))
              [Text "Let me look."] "toolu_1" "a_search" "{}" []
              {| result := "Let me look." ++ Js.nl;
                 followUpMessages := [FUser "find"];
                 assistantContent := [Text "Let me look."] |}
              (snd (create Examples.model_fails_second
                      [{| role := user; content := StringContent "find" |}]
                      (collect_tools None (serverInfos Demo.connected_a))
                      Demo.connected_a))
              "hits from universal-client-a"
              (snd (callTool Examples.model_fails_second "a" "search" "{}"
                      (snd (create Examples.model_fails_second
                              [{| role := user;
                                  content := StringContent "find" |}]
                              (collect_tools None
                                 (serverInfos Demo.connected_a))
                              Demo.connected_a))))
              Examples.overloaded
              (snd (queryWithLLM Examples.model_fails_second "find" None
                      Demo.connected_a)))
    as (answer & st' & Hrun & Hnote).
  - vm_compute. reflexivity.
  - vm_compute. reflexivity.
  - vm_compute. reflexivity.
  - vm_compute. reflexivity.
  - vm_compute. reflexivity.
  - exists answer, st'. auto.
Defined.

(** ** The configuration *)

Section ConfigFacts.
Context {Number : Type}.
Context (parseInt : string -> Number) (truthy_number : Number -> bool)
        (n3000 : Number) (platform : string).

Lemma split_not_nil s sep : JsText.split s sep <> [].
Proof.
  induction s as [|c s IH]; simpl; [discriminate|].
  case_decide; [discriminate|]. now destruct (JsText.split s sep).
Qed.

(** What follows the last separator is the last segment. *)
Lemma split_after_separator stem sep rest :
  exists seg segs,
    JsText.split (stem ++ String sep rest) sep = seg :: segs
    /\ segs <> []
    /\ last segs = last (JsText.split rest sep).
Proof.
  induction stem as [|c stem IH]; simpl.
  - case_decide; [|congruence].
    exists "", (JsText.split rest sep).
    split; [reflexivity|]. split; [apply split_not_nil | reflexivity].
  - destruct IH as (seg & segs & Heq & Hne & Hlast). rewrite Heq.
    case_decide.
    + exists "", (seg :: segs). split; [reflexivity|].
      split; [discriminate|].
      destruct segs; [congruence | exact Hlast].
    + exists (String c seg), segs. auto.
Qed.

Lemma index_from_absent_anywhere c s i j :
  0 <= i -> 0 <= j ->
  Js.index_from c s i = -1 -> Js.index_from c s j = -1.
Proof.
  revert i j. induction s as [|x s IH]; intros i j Hi Hj; simpl;
    [reflexivity|].
  case_decide; [lia|]. apply IH; lia.
Qed.

Lemma split_without_separator s sep :
  Js.indexOf s sep = -1 -> JsText.split s sep = [s].
Proof.
  unfold Js.indexOf. induction s as [|c s IH]; simpl; [reflexivity|].
  case_decide; [lia|]. intros Hidx.
  rewrite IH; [reflexivity|].
  now apply (index_from_absent_anywhere sep s 1 0).
Qed.

(** The extension the switch of [createServerConfigFromPath] looks at. *)
Lemma extension_of_path stem ext :
  Js.indexOf ext "." = -1 ->
  last (JsText.split (stem ++ "." ++ ext) ".") = Some ext.
Proof.
  intros Hno.
  destruct (split_after_separator stem "." ext)
    as (seg & segs & Heq & Hne & Hlast).
  change (stem ++ "." ++ ext) with (stem ++ String "." ext).
  rewrite Heq, (split_without_separator ext "." Hno) in *.
  destruct segs; [congruence | exact Hlast].
Qed.

(** X21: the extension that decides how a server from the environment is
    started is what follows the last dot of its path, compared without
    regard to case: [.js] runs under node, [.py] under python3 (python on
    win32), [.jar] under java -jar, and anything else is run as it is. *)
Theorem extension_decides_the_command name stem ext :
  Js.indexOf ext "." = -1 ->
  let path := stem ++ "." ++ ext in
  createServerConfigFromPath platform name path
  = if decide (JsText.toLowerCase ext = "js")
    then stdio_config name "node" [path]
    else if decide (JsText.toLowerCase ext = "py")
    then stdio_config name
           (if decide (platform = "win32") then "python" else "python3")
           [path]
    else if decide (JsText.toLowerCase ext = "jar")
    then stdio_config name "java" ["-jar"; path]
    else stdio_config name path [].
Proof.
  intros Hno path. subst path. unfold createServerConfigFromPath.
  pose proof (extension_of_path stem ext Hno) as Hext.
  repeat case_decide;
    repeat match goal with
           | H : context [last (JsText.split _ _)] |- _ =>
               rewrite Hext in H; cbn in H
           end;
    try reflexivity; congruence.
Qed.

Lemma created_config_is_accepted name path :
  exists command args,
    createServerConfigFromPath platform name path
    = stdio_config name command args
    /\ In path (command :: args).
Proof.
  unfold createServerConfigFromPath.
  repeat case_decide; do 2 eexists; (split; [reflexivity|]); simpl; auto.
Qed.

Lemma server_errors_accepts name (c : MCPServerConfig) :
  server_errors name c = [] <-> transport_of c <> None.
Proof.
  unfold server_errors, transport_of.
  case_config c; split; try congruence; try discriminate.
Qed.

Lemma server_errors_none (entries : JsObject.t MCPServerConfig) :
  flat_map (fun '(name, c) => server_errors name c) entries = []
  <-> forall name c, In (name, c) entries -> transport_of c <> None.
Proof.
  induction entries as [|[k c'] rest IH]; simpl.
  - split; [intros _ name c [] | reflexivity].
  - split.
    + intros Hnil name c [[= -> ->]|Hin];
        apply app_eq_nil in Hnil as [H1 H2].
      * now apply (server_errors_accepts name).
      * now apply (proj1 IH H2 name).
    + intros Hall.
      rewrite (proj2 (server_errors_accepts k c'))
        by (apply (Hall k); now left).
      apply IH. intros name c Hin. apply (Hall name). now right.
Qed.

(** X22: [validateConfig] finds a configuration valid exactly when it has
    at least one server and [connectToServer] accepts the transport
    descriptor of every server. *)
Theorem valid_configurations_connect (config : @ClientConfig Number) :
  fst (validateConfig config) = true
  <-> (config_servers config <> []
       /\ forall name c,
            In (name, c) (config_servers config) -> transport_of c <> None).
Proof.
  unfold validateConfig. cbn [fst]. rewrite Nat.eqb_eq, length_zero_iff_nil.
  unfold JsObject.keys. rewrite length_map, <- server_errors_none.
  destruct (config_servers config) as [|[k0 c0] servers] eqn:Hs.
  - simpl. split; [discriminate | intros [[] _]; reflexivity].
  - cbn [length Nat.eqb app]. split.
    + intros Hnil. split; [discriminate | exact Hnil].
    + intros [_ Hnil]. exact Hnil.
Qed.

Lemma JsObject_set_In {V} (k k' : string) (v v' : V) (o : JsObject.t V) :
  In (k', v') (JsObject.set k v o) -> (k', v') = (k, v) \/ In (k', v') o.
Proof.
  unfold JsObject.set. case_decide; [auto|].
  destruct (JsObject.get k o).
  - induction o as [|[k0 w0] o IH]; simpl; [tauto|].
    case_decide; simpl; intuition.
  - destruct (JsObject.array_index k) as [n|].
    + induction o as [|[k0 w0] o IH]; simpl; [intuition|].
      destruct (JsObject.array_index k0) as [n0|];
        [destruct (n0 <? n)%N|]; simpl; intuition.
    + rewrite in_app_iff. simpl. intuition.
Qed.

Lemma loadFromEnv_servers_from env keys (servers : JsObject.t MCPServerConfig)
    name c :
  In (name, c) (fold_left (add_server_from_env platform env) keys servers) ->
  In (name, c) servers
  \/ exists key path,
       JsObject.get key env = Some path
       /\ JsText.startsWith key "MCP_SERVER_" = true
       /\ Js.truthy path = true
       /\ name = JsText.toLowerCase (JsText.remove_first key "MCP_SERVER_")
       /\ c = createServerConfigFromPath platform name path.
Proof.
  revert servers. induction keys as [|key keys IH]; intros servers; simpl;
    [auto|].
  intros Hin. apply IH in Hin as [Hin|Hin]; [|auto].
  unfold add_server_from_env in Hin.
  destruct (JsText.startsWith key "MCP_SERVER_") eqn:Hstart; [|auto].
  destruct (JsObject.get key env) as [path|] eqn:Hget; [|auto].
  destruct (Js.truthy path) eqn:Hpath; [|auto].
  apply JsObject_set_In in Hin as [[= -> ->]|Hin]; [|auto].
  right. exists key, path. auto.
Qed.

(** X23: every server of a configuration read from the environment comes
    from a variable [MCP_SERVER_...] with a non-empty value: it is named
    by the rest of the variable's name in lower case, and its descriptor
    is the one made from the value.  [validateConfig] never reports such a
    server: the configuration is valid as soon as it has a server, and the
    only error it can have is that it has none. *)
Theorem environment_configuration_is_accepted (env : ProcessEnv) :
  let config := loadFromEnv parseInt platform env in
  (forall name c,
      In (name, c) (config_servers config) ->
      exists key path,
        JsObject.get key env = Some path
        /\ JsText.startsWith key "MCP_SERVER_" = true
        /\ Js.truthy path = true
        /\ name = JsText.toLowerCase (JsText.remove_first key "MCP_SERVER_")
        /\ c = createServerConfigFromPath platform name path)
  /\ (fst (validateConfig config) = true <-> config_servers config <> [])
  /\ (forall error,
        In error (snd (validateConfig config)) -> error = no_servers_error).
Proof.
  intros config.
  assert (Hfrom : forall name c,
             In (name, c) (config_servers config) ->
             exists key path,
               JsObject.get key env = Some path
               /\ JsText.startsWith key "MCP_SERVER_" = true
               /\ Js.truthy path = true
               /\ name = JsText.toLowerCase
                           (JsText.remove_first key "MCP_SERVER_")
               /\ c = createServerConfigFromPath platform name path).
  { intros name c Hin. unfold config, loadFromEnv in Hin.
    cbn [config_servers] in Hin.
    apply loadFromEnv_servers_from in Hin as [[]|Hin]. exact Hin. }
  assert (Hok : forall name c,
             In (name, c) (config_servers config) -> transport_of c <> None).
  { intros name c Hin.
    destruct (Hfrom name c Hin) as (key & path & _ & _ & _ & _ & ->).
    destruct (created_config_is_accepted name path)
      as (command & args & -> & _). discriminate. }
  split; [exact Hfrom|]. split.
  - unfold validateConfig. cbn [fst].
    rewrite (proj2 (server_errors_none (config_servers config)) Hok).
    rewrite app_nil_r. unfold JsObject.keys. rewrite length_map.
    destruct (config_servers config); simpl; split; congruence.
  - unfold validateConfig. cbn [snd]. intros error.
    rewrite in_app_iff. intros [Hin|Hin].
    + destruct (_ =? _)%nat; [|contradiction].
      destruct Hin as [<-|[]]. reflexivity.
    + exfalso. apply in_flat_map in Hin as ([name c] & Hin & Herr).
      apply Hok in Hin. apply (server_errors_accepts name) in Hin.
      rewrite Hin in Herr. contradiction.
Qed.

(** X24: after the merge with the environment, [hasAnthropicConfig] holds
    exactly when the environment or the file gives a non-empty key; the
    client built from the merged configuration has a model backend in
    exactly that case, and without one every query on it throws the
    configuration error; its model name is never empty, and is the one of
    the environment when that is non-empty; the servers are those of the
    file. *)
Theorem model_backend_follows_the_configuration {Json : Type}
    (E : @Env Json) (env : ProcessEnv) (config : @ClientConfig Number) :
  let merged := mergeWithEnv parseInt truthy_number n3000 env config in
  let client : @ClientState Json := client_of_config merged in
  (hasAnthropicConfig merged = true
   <-> Js.truthy_opt (JsObject.get "ANTHROPIC_API_KEY" env) = true
       \/ Js.truthy_opt (config_anthropic config ≫= anthropic_apiKey) = true)
  /\ (anthropic client <> None <-> hasAnthropicConfig merged = true)
  /\ (hasAnthropicConfig merged = false ->
      forall calls query preferredServer,
        fst (queryWithLLM E query preferredServer (run E calls client))
        = Throw (new_Error "Anthropic API key not configured"))
  /\ Js.truthy (anthropicModel client) = true
  /\ (forall m,
        JsObject.get "ANTHROPIC_MODEL" env = Some m -> Js.truthy m = true ->
        anthropicModel client = m)
  /\ config_servers merged = config_servers config.
Proof.
  intros merged client.
  unfold client, client_of_config, hasAnthropicConfig, merged, mergeWithEnv,
    constructor, JsText.or_else.
  cbn [config_anthropic config_servers anthropic_apiKey anthropic_model
       anthropic anthropicModel mbind option_bind].
  set (envKey := JsObject.get "ANTHROPIC_API_KEY" env).
  set (fileKey := config_anthropic config ≫= anthropic_apiKey).
  set (envModel := JsObject.get "ANTHROPIC_MODEL" env).
  set (fileModel := config_anthropic config ≫= anthropic_model).
  split; [|split; [|split; [|split; [|split]]]].
  - destruct envKey as [k|], fileKey as [k'|]; cbn;
      repeat (match goal with
              | |- context [Js.truthy ?x] => destruct (Js.truthy x) eqn:?
              end; cbn);
      intuition congruence.
  - destruct envKey as [k|], fileKey as [k'|]; cbn;
      repeat (match goal with
              | |- context [Js.truthy ?x] => destruct (Js.truthy x) eqn:?
              end; cbn);
      intuition congruence.
  - intros Hno calls query preferredServer.
    unfold queryWithLLM, bind, get_state. rewrite run_anthropic.
    cbn [anthropic].
    revert Hno.
    destruct envKey as [k|], fileKey as [k'|]; cbn;
      repeat (match goal with
              | |- context [Js.truthy ?x] => destruct (Js.truthy x) eqn:?
              end; cbn);
      try reflexivity; congruence.
  - unfold default_model.
    destruct envModel as [m|], fileModel as [m'|]; cbn;
      try destruct (Js.truthy m) eqn:Hm; cbn; rewrite ?Hm; cbn;
      try destruct (Js.truthy m') eqn:Hm'; cbn; rewrite ?Hm, ?Hm'; cbn;
      rewrite ?Hm, ?Hm'; reflexivity.
  - intros m Hget Hm. unfold envModel in *. rewrite Hget.
    cbn. rewrite Hm. cbn. rewrite Hm. cbn. now rewrite Hm.
  - reflexivity.
Qed.

End ConfigFacts.

(** ** The HTTP routes *)

Section RouteFacts.
Context {Json : Type} (E : @Env Json).
Context (json_truthy : Json -> bool) (empty_object : Json).
Implicit Types (st : @ClientState Json).

(** [ping] never throws. *)
Lemma ping_answers serverName st :
  exists alive,
    fst (ping E serverName st) = Ok alive
    /\ (alive = true -> isConnected serverName st = true)
    /\ (isConnected serverName st = false
        -> alive = false /\ snd (ping E serverName st) = st).
Proof.
  unfold ping, isConnected, JsMap.has, bind, try_catch, get_state.
  destruct (JsMap.get serverName (clients st)) as [c|].
  - unfold emit, bind. cbn [fst snd trace].
    destruct (client_ping E _ c); cbn [of_unit_result throw ret fst snd];
      eexists; (split; [reflexivity|]); split; auto; discriminate.
  - exists false. cbn. split; [reflexivity|]. split; [discriminate|auto].
Qed.

(** X25: the ping route always answers 200 with [success: true]: for an
    identifier without handle, and for a server whose ping fails, it
    answers [alive: false]; without handle it issues no request. *)
Theorem ping_route_always_succeeds serverName st :
  exists alive,
    fst (post_ping E serverName st)
    = {| status := 200; body := PingDone alive serverName |}
    /\ (alive = true -> isConnected serverName st = true)
    /\ (isConnected serverName st = false
        -> alive = false /\ snd (post_ping E serverName st) = st).
Proof.
  destruct (ping_answers serverName st) as (alive & Hfst & Htrue & Hfalse).
  exists alive. unfold post_ping.
  destruct (ping E serverName st) as [[b|e] st']; cbn [fst snd] in *;
    [|discriminate].
  injection Hfst as ->. auto.
Qed.

(** X26: the tool route answers 404, without a request, exactly for an
    identifier without handle.  Otherwise it issues the one call, with the
    tool name of the path and the arguments of the body as they are, and
    answers 200 with the result of the server as it is, or 500 with the
    message of the server's error. *)
Theorem tool_route_outcomes serverName toolName arguments args st :
  let args' :=
    default empty_object
      (json_or json_truthy (json_or json_truthy arguments args)
         (Some empty_object)) in
  let outcome :=
    post_tool E json_truthy empty_object serverName toolName arguments args
      st in
  (isConnected serverName st = false ->
   outcome
   = ({| status := 404; body := ErrorBody "Server not connected" |}, st))
  /\ (forall c,
        JsMap.get serverName (clients st) = Some c ->
        let st' := after_request (ECallTool c toolName args') st in
        outcome
        = (match client_callTool E (trace st') c toolName args' with
           | Ok result =>
               {| status := 200;
                  body := ToolDone result serverName toolName args' |}
           | Throw error =>
               {| status := 500;
                  body := ToolFailed (err_message error) serverName toolName
                            args' |}
           end, st'))
  /\ (status (fst outcome) = 200%nat
      <-> success (body (fst outcome)) = Some true).
Proof.
  intros args' outcome. unfold outcome, post_tool. fold args'.
  unfold isConnected, JsMap.has, callTool, bind, try_catch, get_state, emit.
  destruct (JsMap.get serverName (clients st)) as [c|];
    cbn [negb fst snd trace].
  - split; [discriminate|]. split.
    + intros c' [= <-]. cbv zeta. unfold after_request. cbn [trace].
      destruct (client_callTool E _ c toolName args'); reflexivity.
    + destruct (client_callTool E _ c toolName args'); cbn;
        split; congruence.
  - split; [reflexivity|]. split; [discriminate|].
    cbn. split; discriminate.
Qed.

(** X27: the query route answers 400 for a missing or empty query, and
    500 with the message of the configuration error when the client has no
    model backend, in both cases without a request; it reports [all] as
    the server when none, or the empty string, was given. *)
Theorem query_route_guards query server st :
  (Js.truthy_opt query = false ->
   post_query E query server st
   = ({| status := 400; body := ErrorBody "Query is required" |}, st))
  /\ (Js.truthy_opt query = true -> anthropic st = None ->
      post_query E query server st
      = ({| status := 500;
            body := QueryFailed "Anthropic API key not configured"
                      (default "" query)
                      (if Js.truthy_opt server then default "" server
                       else "all") |}, st)).
Proof.
  unfold post_query. split.
  - intros ->. reflexivity.
  - intros -> Hnone. cbn [negb].
    unfold queryWithLLM, bind, get_state. rewrite Hnone.
    unfold throw, JsText.or_else.
    now destruct (Js.truthy_opt server).
Qed.

Lemma find_in_entries_findTool_in toolName
    (infos : JsMap.t (@ServerInfo Json)) :
  find_in_entries toolName infos = findTool_in toolName infos.
Proof.
  induction infos as [|[k info] rest IH]; simpl; [|rewrite IH]; reflexivity.
Qed.

(** X28: in every state a caller can reach in which no identifier is
    [__proto__] or an array index, the find route answers with the results
    of [findTool], and [found] tells whether there are any. *)
Theorem find_route_agrees_with_findTool key model calls toolName :
  let st := run E calls (constructor key model) in
  Forall JsObject.plain (getConnectedServers st) ->
  get_find toolName st
  = ({| status := 200;
        body := FindBody toolName
                  (0 <? length (findTool toolName st))%nat
                  (findTool toolName st) |}, st).
Proof.
  intros st Hplain. unfold get_find.
  destruct (run_coherent E calls key model) as [(_ & Hwf & _) (_ & Hi & _)].
  fold st in Hwf, Hi.
  assert (Hall : getAllServerInfos st = serverInfos st).
  { change (getAllServerInfos st)
      with (copy_loop (fun info : ServerInfo => info) (serverInfos st) []).
    unfold getConnectedServers in Hplain. rewrite <- Hi in Hplain.
    rewrite copy_loop_plain by assumption. simpl.
    clear. induction (serverInfos st) as [|[k v] m IH]; simpl;
      [reflexivity | now rewrite IH]. }
  rewrite Hall, find_in_entries_findTool_in. reflexivity.
Qed.

End RouteFacts.

(** ** The command line *)

Lemma split_at_separator stem sep rest :
  Js.indexOf stem sep = -1 ->
  JsText.split (stem ++ String sep rest) sep = stem :: JsText.split rest sep.
Proof.
  unfold Js.indexOf. induction stem as [|c stem IH]; simpl.
  - intros _. case_decide; congruence.
  - case_decide; [lia|]. intros Hidx.
    rewrite IH; [reflexivity|].
    now apply (index_from_absent_anywhere sep stem 1 0).
Qed.

Lemma startsWith_append p s : JsText.startsWith (p ++ s) p = true.
Proof.
  unfold JsText.startsWith. induction p as [|c p IH]; simpl.
  - now destruct s.
  - destruct (ascii_dec c c); [exact IH | congruence].
Qed.

Lemma find_skips {A} (p : A -> bool) (before : list A) x after :
  Forall (fun y => p y = false) before -> p x = true ->
  List.find p (before ++ x :: after) = Some x.
Proof.
  induction before as [|y before IH]; simpl.
  - intros _ ->. reflexivity.
  - intros Hall Hx. apply Forall_cons in Hall as [-> Hall]. auto.
Qed.

(** X29: the path of the configuration file is what stands between the
    first and the second [=] of the first argument that starts with
    [--config=]: a path without [=] is taken whole, a path with one is cut
    there. *)
Theorem config_path_is_cut_at_equals before path rest after :
  Forall (fun arg => JsText.startsWith arg "--config=" = false) before ->
  Js.indexOf path "=" = -1 ->
  configPath_of (before ++ ("--config=" ++ path) :: after) = Some path
  /\ configPath_of (before ++ ("--config=" ++ path ++ "=" ++ rest) :: after)
     = Some path.
Proof.
  intros Hbefore Hno. unfold configPath_of.
  rewrite !find_skips by (assumption || apply startsWith_append).
  cbn [mbind option_bind].
  change ("--config=" ++ path) with ("--config" ++ String "=" path).
  change ("--config=" ++ path ++ "=" ++ rest)
    with ("--config" ++ String "=" (path ++ String "=" rest)).
  rewrite !split_at_separator by (assumption || reflexivity).
  rewrite (split_without_separator path "=" Hno). split; reflexivity.
Qed.

(** ** The further properties on the example worlds *)

Lemma extension_decides_the_command_witness :
  createServerConfigFromPath "linux" "my_db" ("/srv/db/Server" ++ "." ++ "JS")
  = stdio_config "my_db" "node" ["/srv/db/Server.JS"].
Proof.
  rewrite (extension_decides_the_command "linux" "my_db" "/srv/db/Server"
             "JS");
    vm_compute; reflexivity.
Defined.

(** The servers read from an environment: the name of [MCP_SERVER_MY_DB]
    keeps its separator, and the variable without value is skipped. *)
Lemma servers_of_shell_env :
  config_servers (loadFromEnv (fun _ => 3000) "linux" Examples.shell_env)
  = [("my_db", stdio_config "my_db" "node" ["/srv/db/Server.JS"]);
     ("weather", stdio_config "weather" "python3" ["/srv/weather.py"])].
Proof. vm_compute. reflexivity. Qed.

(** A server registered as [__proto__] is found by [findTool] and missing
    from [getAllServerInfos] and from the find route. *)
Lemma proto_server_is_not_listed :
  map fst (findTool "search" Examples.with_proto) = ["__proto__"; "a"]
  /\ JsObject.keys (getAllServerInfos Examples.with_proto) = ["a"]
  /\ fst (get_find (Json := string) "search" Examples.with_proto)
     = {| status := 200;
          body := FindBody "search" true [("a", Demo.search)] |}.
Proof. by_evaluation. Qed.

(** A server whose name is an array index comes first in the object. *)
Lemma index_server_is_listed_first :
  getConnectedServers Examples.with_index = ["b"; "7"]
  /\ JsObject.keys (getAllServerInfos Examples.with_index) = ["7"; "b"].
Proof. by_evaluation. Qed.

Lemma tool_route_outcomes_witness :
  post_tool Examples.b_stuck Js.truthy "{}" "b" "search" None
    (Some "[1]") Examples.connected_abc
  = ({| status := 200;
        body := ToolDone "hits from universal-client-b" "b" "search"
                  "[1]" |},
     after_request (ECallTool Examples.client_b "search" "[1]")
       Examples.connected_abc).
Proof.
  pose proof (tool_route_outcomes Examples.b_stuck Js.truthy "{}" "b"
                "search" None (Some "[1]") Examples.connected_abc)
    as Hthm.
  cbv zeta in Hthm. destruct Hthm as (_ & Hcall & _).
  rewrite (Hcall Examples.client_b) by (vm_compute; reflexivity).
  vm_compute. reflexivity.
Defined.

Lemma findTool_finds_the_servers_witness :
  In (qualified "b" Demo.search)
    (collect_tools None
       (serverInfos
          (run Examples.b_stuck Examples.three_servers
             (constructor (Some "sk-demo") None)))).
Proof.
  pose proof (findTool_finds_the_servers Examples.b_stuck (Some "sk-demo")
                None Examples.three_servers "search") as Hthm.
  cbv zeta in Hthm. destruct Hthm as (_ & _ & _ & Hoffered).
  apply (Hoffered "b" Demo.search).
  replace (findTool "search"
             (run Examples.b_stuck Examples.three_servers
                (constructor (Some "sk-demo") None)))
    with [("a", Demo.search); ("b", Demo.search); ("c", Demo.search)]
    by (vm_compute; reflexivity).
  right. left. reflexivity.
Defined.

Lemma valid_configurations_connect_witness :
  fst (validateConfig (Number := Z)
         {| config_servers := [("a", Demo.node_server)];
            config_anthropic := None;
            config_api := None |}) = true.
Proof.
  apply valid_configurations_connect. split; [discriminate|].
  intros name c [[= <- <-]|[]]. vm_compute. discriminate.
Defined.

Lemma environment_configuration_is_accepted_witness :
  fst (validateConfig
         (loadFromEnv (fun _ => 3000) "linux" Examples.shell_env)) = true.
Proof.
  pose proof (environment_configuration_is_accepted (fun _ => 3000)
                (fun n => negb (n =? 0)) 3000 "linux" Examples.shell_env)
    as Hthm.
  cbv zeta in Hthm. destruct Hthm as (_ & Hvalid & _).
  apply Hvalid. intros Hnil. vm_compute in Hnil. discriminate.
Defined.

Lemma model_backend_follows_the_configuration_witness :
  fst (queryWithLLM Examples.b_stuck "hello" None
         (run Examples.b_stuck Examples.three_servers
            (client_of_config
               (mergeWithEnv (fun _ => 3000) (fun n => negb (n =? 0)) 3000
                  [("ANTHROPIC_API_KEY", "")]
                  {| config_servers := [("a", Demo.node_server)];
                     config_anthropic := None;
                     config_api := None |}))))
  = Throw (new_Error "Anthropic API key not configured").
Proof.
  pose proof (model_backend_follows_the_configuration (fun _ => 3000)
                (fun n => negb (n =? 0)) 3000 Examples.b_stuck
                [("ANTHROPIC_API_KEY", "")]
                {| config_servers := [("a", Demo.node_server)];
                   config_anthropic := None;
                   config_api := None |}) as Hthm.
  cbv zeta in Hthm. destruct Hthm as (_ & _ & Hthrow & _).
  apply Hthrow. vm_compute. reflexivity.
Defined.

Lemma ping_route_always_succeeds_witness :
  snd (post_ping Examples.b_stuck "zz" Examples.connected_abc)
  = Examples.connected_abc.
Proof.
  destruct (ping_route_always_succeeds Examples.b_stuck "zz"
              Examples.connected_abc) as (alive & _ & _ & Hfalse).
  apply Hfalse. vm_compute. reflexivity.
Defined.

Lemma query_route_guards_witness :
  post_query Examples.b_stuck (Some "") (Some "a") Examples.connected_abc
  = ({| status := 400; body := ErrorBody "Query is required" |},
     Examples.connected_abc).
Proof.
  destruct (query_route_guards Examples.b_stuck (Some "") (Some "a")
              Examples.connected_abc) as [Hmissing _].
  apply Hmissing. vm_compute. reflexivity.
Defined.

Lemma find_route_agrees_with_findTool_witness :
  get_find "search"
    (run Examples.b_stuck Examples.three_servers
       (constructor (Some "sk-demo") None))
  = ({| status := 200;
        body := FindBody "search"
                  (0 <? length
                          (findTool "search"
                             (run Examples.b_stuck Examples.three_servers
                                (constructor (Some "sk-demo") None))))%nat
                  (findTool "search"
                     (run Examples.b_stuck Examples.three_servers
                        (constructor (Some "sk-demo") None))) |},
     run Examples.b_stuck Examples.three_servers
       (constructor (Some "sk-demo") None)).
Proof.
  pose proof (find_route_agrees_with_findTool Examples.b_stuck
                (Some "sk-demo") None Examples.three_servers "search")
    as Hthm.
  cbv zeta in Hthm. apply Hthm.
  replace (getConnectedServers
             (run Examples.b_stuck Examples.three_servers
                (constructor (Some "sk-demo") None)))
    with ["a"; "b"; "c"] by (vm_compute; reflexivity).
  repeat apply Forall_cons_2; try apply Forall_nil_2;
    (split; [discriminate | vm_compute; reflexivity]).
Defined.

Lemma config_path_is_cut_at_equals_witness :
  configPath_of (["--verbose"] ++ ("--config=" ++ "conf/a.json") :: ["x"])
  = Some "conf/a.json"
  /\ configPath_of
       (["--verbose"] ++ ("--config=" ++ "conf/a.json" ++ "=" ++ "b")
          :: ["x"])
     = Some "conf/a.json".
Proof.
  apply config_path_is_cut_at_equals.
  - constructor; [vm_compute; reflexivity | constructor].
  - vm_compute. reflexivity.
Defined.
